(** * A shallow embedding of the robot scheduling system

    The development follows the Python sources:
    - [src/models/robot.py]   : [Position], [Robot]
    - [src/models/task.py]    : [Task]
    - [src/scheduler/robot_scheduler.py] : [RobotScheduler]
    - [src/services/task_service.py]     : [TaskService]

    Python [float] is IEEE 754 binary64: it is modelled by Rocq's primitive
    floats, whose operations are specified by [SpecFloat].  A power [**]
    of floats goes through [pow] of the platform's C library, which is a
    parameter of the model ([Libm]).  Python [dict]
    keeps insertion order, which the scheduler observes (tie breaking,
    stable sorting): it is modelled by an association list.  Objects held
    in a [dict] are mutable and shared with the caller; an object is
    identified with the entry that holds it, and a mutation of the object
    is a replacement of the value of that entry. *)

From Stdlib Require Import ZArith List String Ascii Bool Lia Floats.
From Stdlib Require Import Permutation Sorted.
Import ListNotations.
Open Scope string_scope.
Open Scope list_scope.


(* ================================================================== *)
(** * Python runtime: exceptions, strings, dictionaries, sorting       *)
(* ================================================================== *)

Module Py.

(** The exception classes the modelled code raises. *)
Inductive exn : Set :=
| ValueError
| SchedulerError
| TaskNotFoundError
| OverflowError
| TypeError.

(** How a call ends: with a value, or with a raised exception. *)
Inductive outcome (A : Type) : Type :=
| Return (a : A)
| Raise (e : exn).
Arguments Return {A} a.
Arguments Raise {A} e.

Definition raised {A} (o : outcome A) : bool :=
  match o with Return _ => false | Raise _ => true end.

(** ** [str] *)

(** A [str] is kept as its UTF-8 bytes. *)

(** [if s:] on a string. *)
Definition truthy (s : string) : bool :=
  match s with EmptyString => false | String _ _ => true end.

(** [if o:] on a value of type [str | None]. *)
Definition truthy_opt (o : option string) : bool :=
  match o with None => false | Some s => truthy s end.

(** [s.startswith(p)] *)
Definition startswith (s p : string) : bool := String.prefix p s.

(** A byte [10xxxxxx] continues a code point. *)
Definition continuation (c : ascii) : bool :=
  let n := N_of_ascii c in ((128 <=? n) && (n <? 192))%N.

(** [len(s)]: the number of code points. *)
Fixpoint len (s : string) : nat :=
  match s with
  | EmptyString => 0
  | String c s' => if continuation c then len s' else S (len s')
  end.

(** *** White space

    [str.strip] removes the code points for which [str.isspace] holds:
    U+0009 to U+000D, U+001C to U+0020, U+0085, U+00A0, U+1680, U+2000 to
    U+200A, U+2028, U+2029, U+202F, U+205F and U+3000.  The
    [str_strip_whitespace] of pydantic removes the code points with the
    Unicode property White_Space: the same ones without U+001C to U+001F.
    Both are given on the UTF-8 bytes of the code points. *)

(** The white space of one byte, for [str.isspace]. *)
Definition isspace (c : ascii) : bool :=
  let n := N_of_ascii c in
  (((9 <=? n) && (n <=? 13)) || ((28 <=? n) && (n <=? 32)))%N.

(** The white space of one byte, for White_Space. *)
Definition is_white_space (c : ascii) : bool :=
  let n := N_of_ascii c in
  (((9 <=? n) && (n <=? 13)) || (n =? 32))%N.

(** U+0085 and U+00A0: the bytes [C2 85] and [C2 A0]. *)
Definition space2 (c1 c2 : ascii) : bool :=
  let n1 := N_of_ascii c1 in
  let n2 := N_of_ascii c2 in
  ((n1 =? 194) && ((n2 =? 133) || (n2 =? 160)))%N.

(** U+1680 ([E1 9A 80]); U+2000 to U+200A, U+2028, U+2029 and U+202F
    ([E2 80 80] to [E2 80 8A], [E2 80 A8], [E2 80 A9], [E2 80 AF]);
    U+205F ([E2 81 9F]); U+3000 ([E3 80 80]). *)
Definition space3 (c1 c2 c3 : ascii) : bool :=
  let n1 := N_of_ascii c1 in
  let n2 := N_of_ascii c2 in
  let n3 := N_of_ascii c3 in
  (((n1 =? 225) && (n2 =? 154) && (n3 =? 128))
   || ((n1 =? 226) && (n2 =? 128)
       && (((128 <=? n3) && (n3 <=? 138)) || (n3 =? 168) || (n3 =? 169) || (n3 =? 175)))
   || ((n1 =? 226) && (n2 =? 129) && (n3 =? 159))
   || ((n1 =? 227) && (n2 =? 128) && (n3 =? 128)))%N.

Section Strip.
Variable space1 : ascii -> bool.

(** White space is removed at the start, code point by code point. *)
Fixpoint lstrip_by (s : string) : string :=
  match s with
  | EmptyString => EmptyString
  | String c1 s1 =>
      if space1 c1 then lstrip_by s1
      else
        match s1 with
        | EmptyString => s
        | String c2 s2 =>
            if space2 c1 c2 then lstrip_by s2
            else
              match s2 with
              | EmptyString => s
              | String c3 s3 => if space3 c1 c2 c3 then lstrip_by s3 else s
              end
        end
  end.

(** [s] is white space only. *)
Definition blank_by (s : string) : bool :=
  match lstrip_by s with EmptyString => true | String _ _ => false end.

(** At the end, the longest run of white space is removed. *)
Fixpoint rstrip_by (s : string) : string :=
  match s with
  | EmptyString => EmptyString
  | String c s' => if blank_by s then EmptyString else String c (rstrip_by s')
  end.

Definition strip_by (s : string) : string := rstrip_by (lstrip_by s).
End Strip.

(** [s.lstrip()], [s.rstrip()] and [s.strip()] *)
Definition lstrip (s : string) : string := lstrip_by isspace s.

Definition rstrip (s : string) : string := rstrip_by isspace s.

Definition strip (s : string) : string := strip_by isspace s.

(** What [str_strip_whitespace=True] of pydantic makes of a string field. *)
Definition str_strip_whitespace (s : string) : string := strip_by is_white_space s.

(** The line feed character, ["\n"]. *)
Definition LF : string := String (ascii_of_nat 10) EmptyString.

(** ** [dict], with [str] keys *)

Section Dict.
Variable V : Type.

(** Entries in insertion order; keys are pairwise distinct. *)
Definition dict := list (string * V).

Definition keys (d : dict) : list string := map fst d.

(** [d.values()] *)
Definition values (d : dict) : list V := map snd d.

(** [d.get(k)] *)
Fixpoint get (d : dict) (k : string) : option V :=
  match d with
  | [] => None
  | (k', v) :: d' => if String.eqb k k' then Some v else get d' k
  end.

(** [k in d] *)
Definition contains (d : dict) (k : string) : bool :=
  match get d k with Some _ => true | None => false end.

(** [d[k] = v]: a present key keeps its place, a new one comes last. *)
Fixpoint set (d : dict) (k : string) (v : V) : dict :=
  match d with
  | [] => [(k, v)]
  | (k', v') :: d' =>
      if String.eqb k k' then (k', v) :: d' else (k', v') :: set d' k v
  end.

(** [del d[k]] *)
Fixpoint del (d : dict) (k : string) : dict :=
  match d with
  | [] => []
  | (k', v') :: d' =>
      if String.eqb k k' then d' else (k', v') :: del d' k
  end.

(** The invariant of the data structure. *)
Definition wf (d : dict) : Prop := NoDup (keys d).

(** Every object is stored under the identifier it carries. *)
Definition keyed_by (id : V -> string) (d : dict) : Prop :=
  Forall (fun kv => fst kv = id (snd kv)) d.
End Dict.

Arguments keys {V} d.
Arguments values {V} d.
Arguments get {V} d k.
Arguments contains {V} d k.
Arguments set {V} d k v.
Arguments del {V} d k.
Arguments wf {V} d.
Arguments keyed_by {V} id d.

(** ** [sorted(l, key=key, reverse=True)]

    Python's sort is stable, and stays so under [reverse=True]: elements
    with equal keys keep the order they have in [l].  The model is the
    stable insertion sort with that contract. *)
Section Sorted.
Variable A : Type.
Variable key : A -> Z.

Fixpoint insert_desc (a : A) (l : list A) : list A :=
  match l with
  | [] => [a]
  | b :: l' => if (key a <? key b)%Z then b :: insert_desc a l' else a :: l
  end.

Definition sorted_desc (l : list A) : list A :=
  fold_right insert_desc [] l.
End Sorted.

Arguments insert_desc {A} key a l.
Arguments sorted_desc {A} key l.

(** ** Slices of [str] *)

(** The first [n] code points of [s]. *)
Fixpoint take (n : nat) (s : string) : string :=
  match s with
  | EmptyString => EmptyString
  | String c s' =>
      if continuation c then String c (take n s')
      else match n with
           | O => EmptyString
           | S n' => String c (take n' s')
           end
  end.

(** [s[:n]]: a negative [n] counts from the end. *)
Definition slice_to (s : string) (n : Z) : string :=
  if (0 <=? n)%Z then take (Z.to_nat n) s
  else take (Z.to_nat (Z.of_nat (len s) + n)) s.

(** ** [list.sort(key=key)] with [float] keys

    The sort compares keys with [<] only and is stable; the model is the
    stable insertion sort. *)
Section SortedFloat.
Variable A : Type.
Variable key : A -> float.

Fixpoint insert_asc (a : A) (l : list A) : list A :=
  match l with
  | [] => [a]
  | b :: l' => if (key b <? key a)%float then b :: insert_asc a l' else a :: l
  end.

Definition sort_asc (l : list A) : list A :=
  fold_right insert_asc [] l.
End SortedFloat.

Arguments insert_asc {A} key a l.
Arguments sort_asc {A} key l.

(** ** Numbers: [int] and [float] *)

Inductive num : Set :=
| Int (z : Z)
| Float (f : float).

(** [float(z)], for an integer below [2 ** 63] in magnitude. *)
Definition float_of_Z (z : Z) : float :=
  if (0 <=? z)%Z then of_uint63 (Uint63.of_Z z)
  else (- of_uint63 (Uint63.of_Z (- z)))%float.

Definition to_float (a : num) : float :=
  match a with Int z => float_of_Z z | Float f => f end.

Definition num_add (a b : num) : num :=
  match a, b with
  | Int x, Int y => Int (x + y)
  | _, _ => Float (to_float a + to_float b)
  end.

Definition num_sub (a b : num) : num :=
  match a, b with
  | Int x, Int y => Int (x - y)
  | _, _ => Float (to_float a - to_float b)
  end.

Definition num_mul (a b : num) : num :=
  match a, b with
  | Int x, Int y => Int (x * y)
  | _, _ => Float (to_float a * to_float b)
  end.

(** [a / b], for a divisor that is not zero (a zero divisor raises
    [ZeroDivisionError]); the quotient of two integers is the rounded
    quotient of their conversions, which are exact below [2 ** 53]. *)
Definition num_div (a b : num) : num := Float (to_float a / to_float b).

(** [a < b] *)
Definition num_ltb (a b : num) : bool :=
  match a, b with
  | Int x, Int y => (x <? y)%Z
  | _, _ => (to_float a <? to_float b)%float
  end.

(** [a <= b] *)
Definition num_leb (a b : num) : bool :=
  match a, b with
  | Int x, Int y => (x <=? y)%Z
  | _, _ => (to_float a <=? to_float b)%float
  end.

(** [min(a, b)] and [max(a, b)]: the first argument stays unless the
    second is strictly smaller, or strictly greater. *)
Definition min2 (a b : num) : num := if num_ltb b a then b else a.

Definition max2 (a b : num) : num := if num_ltb a b then b else a.

(** ** Powers of [float]: [v ** 2] and [v ** 0.5]

    The interpreter settles the special cases of a power itself (a NaN,
    an infinity or a zero as base, a negative base, the base 1) and hands
    the others to [pow] of the C library of the platform.  That function
    is not correctly rounded and differs from one library to the next in
    the last place of its results: it is a parameter of the model. *)

(** What a call of the library leaves in [errno]: nothing, [ERANGE], or
    another code. *)
Inductive errno : Set := ENONE | ERANGE | EDOM.

(** The C library: [pow x y] is the result of the call, with the [errno]
    it leaves. *)
Class Libm : Type := { pow : float -> float -> float * errno }.

(** The call [pow(iv, iw)] and the check of its result: an infinite
    result counts as a range error, the range error of a zero result is
    dropped, and what is then left in [errno] is raised. *)
Definition call_pow {L : Libm} (iv iw : float) : outcome float :=
  let '(ix, e) := pow iv iw in
  let e :=
    match e with
    | ENONE => if is_infinity ix then ERANGE else ENONE
    | ERANGE => if (ix =? 0)%float then ENONE else ERANGE
    | EDOM => EDOM
    end in
  match e with
  | ENONE => Return ix
  | ERANGE => Raise OverflowError
  | EDOM => Raise ValueError
  end.

(** [v ** 2].  The exponent is an even integer: a negative base is
    replaced by its absolute value, and the result is not negated. *)
Definition float_pow_2 {L : Libm} (v : float) : outcome float :=
  if is_nan v then Return v
  else if is_infinity v then Return (abs v)
  else if (v =? 0)%float then Return 0%float
  else
    let iv := if (v <? 0)%float then (- v)%float else v in
    if (iv =? 1)%float then Return 1%float
    else call_pow iv 2.

(** The value of [v ** 0.5]: a [float], or a complex number, which comes
    from a negative base and whose value is not followed. *)
Inductive power : Set :=
| Real (f : float)
| Complex.

(** [v ** 0.5].  The exponent is not an integer. *)
Definition float_pow_half {L : Libm} (v : float) : outcome power :=
  if is_nan v then Return (Real v)
  else if is_infinity v then Return (Real (abs v))
  else if (v =? 0)%float then Return (Real 0%float)
  else if (v <? 0)%float then Return Complex
  else if (v =? 1)%float then Return (Real 1%float)
  else
    match call_pow v 0.5 with
    | Return ix => Return (Real ix)
    | Raise e => Raise e
    end.

(** [float(p)]: a complex number is refused. *)
Definition float_ (p : power) : outcome float :=
  match p with
  | Real f => Return f
  | Complex => Raise TypeError
  end.

End Py.

Import Py.

(* ================================================================== *)
(** * models/robot.py                                                  *)
(* ================================================================== *)

Inductive RobotStatus : Set := IDLE | BUSY | CHARGING | MAINTENANCE.

Definition RobotStatus_eqb (a b : RobotStatus) : bool :=
  match a, b with
  | IDLE, IDLE | BUSY, BUSY | CHARGING, CHARGING | MAINTENANCE, MAINTENANCE => true
  | _, _ => false
  end.

Module Position.

Record t : Set := Build { x : float; y : float }.

(** [Field(..., ge=-1000, le=1000)] on both coordinates. *)
Definition in_range (v : float) : bool :=
  ((-1000 <=? v) && (v <=? 1000))%float.

Definition valid (p : t) : bool := in_range (x p) && in_range (y p).

(** [float(((self.x - other.x) ** 2 + (self.y - other.y) ** 2) ** 0.5)]:
    the two squares are taken from left to right, and an exception of a
    power ends the call. *)
Definition distance_to {L : Libm} (self other : t) : outcome float :=
  match float_pow_2 (x self - x other) with
  | Raise e => Raise e
  | Return dx2 =>
      match float_pow_2 (y self - y other) with
      | Raise e => Raise e
      | Return dy2 =>
          match float_pow_half (dx2 + dy2) with
          | Raise e => Raise e
          | Return p => float_ p
          end
      end
  end.

End Position.

Module Robot.

Record t : Set := Build {
  robot_id : string;
  name : string;
  position : Position.t;
  status : RobotStatus;
  current_task : option string;
  battery_level : float;
  created_at : Z
}.

Definition set_status (self : t) (v : RobotStatus) : t :=
  Build (robot_id self) (name self) (position self) v
        (current_task self) (battery_level self) (created_at self).

Definition set_current_task (self : t) (v : option string) : t :=
  Build (robot_id self) (name self) (position self) (status self)
        v (battery_level self) (created_at self).

Definition set_position (self : t) (v : Position.t) : t :=
  Build (robot_id self) (name self) v (status self)
        (current_task self) (battery_level self) (created_at self).

(** [validate_robot_id] *)
Definition validate_robot_id (v : string) : outcome string :=
  if negb (startswith v "R") then Raise ValueError else Return v.

(** [self.status == RobotStatus.IDLE and self.battery_level > 20] *)
Definition is_available (self : t) : bool :=
  RobotStatus_eqb (status self) IDLE && (20 <? battery_level self)%float.

Definition assign_task (self : t) (task_id : string) : t * outcome unit :=
  if negb (is_available self) then (self, Raise ValueError)
  else
    let self := set_current_task self (Some task_id) in
    let self := set_status self BUSY in
    (self, Return tt).

Definition complete_task (self : t) : t :=
  let self := set_current_task self None in
  set_status self IDLE.

Definition move_to (self : t) (new_position : Position.t) : t :=
  set_position self new_position.

End Robot.

(* ================================================================== *)
(** * models/task.py                                                   *)
(* ================================================================== *)

Inductive TaskType : Set := DELIVERY | PATROL | CLEANING.

Inductive TaskStatus : Set := PENDING | ASSIGNED | IN_PROGRESS | COMPLETED | FAILED.

Definition TaskStatus_eqb (a b : TaskStatus) : bool :=
  match a, b with
  | PENDING, PENDING | ASSIGNED, ASSIGNED | IN_PROGRESS, IN_PROGRESS
  | COMPLETED, COMPLETED | FAILED, FAILED => true
  | _, _ => false
  end.

Module Task.

Record t : Set := Build {
  task_id : string;
  task_type : TaskType;
  target_position : Position.t;
  priority : Z;
  status : TaskStatus;
  assigned_robot : option string;
  created_at : Z;
  estimated_duration : Z;
  description : string
}.

Definition set_status (self : t) (v : TaskStatus) : t :=
  Build (task_id self) (task_type self) (target_position self) (priority self)
        v (assigned_robot self) (created_at self) (estimated_duration self)
        (description self).

Definition set_assigned_robot (self : t) (v : option string) : t :=
  Build (task_id self) (task_type self) (target_position self) (priority self)
        (status self) v (created_at self) (estimated_duration self)
        (description self).

Definition set_description (self : t) (v : string) : t :=
  Build (task_id self) (task_type self) (target_position self) (priority self)
        (status self) (assigned_robot self) (created_at self)
        (estimated_duration self) v.

(** [validate_task_id] *)
Definition validate_task_id (v : string) : outcome string :=
  if negb (startswith v "T") then Raise ValueError else Return v.

(** [validate_description]: [v.strip() if v else ""] *)
Definition validate_description (v : option string) : string :=
  if truthy_opt v then match v with Some s => strip s | None => EmptyString end
  else EmptyString.

(** The constructor [Task(...)] with the field constraints of the class:
    string fields are stripped by pydantic ([str_strip_whitespace]), then
    [task_id] has 1 to 50 characters and passes [validate_task_id],
    [priority] is in 1..5, [estimated_duration] in 1..1440, and
    [description] has at most 500 characters and goes through
    [validate_description].  [None] is a validation error.  The status
    starts as [PENDING] with no robot. *)
Definition init (task_id : string) (task_type : TaskType)
    (target_position : Position.t) (priority : Z) (created_at : Z)
    (estimated_duration : Z) (description : option string) : option t :=
  let task_id := str_strip_whitespace task_id in
  let description :=
    match description with
    | Some s => Some (str_strip_whitespace s)
    | None => None
    end in
  let description_ok :=
    match description with
    | None => true
    | Some s => (len s <=? 500)%nat
    end in
  if ((1 <=? len task_id)%nat && (len task_id <=? 50)%nat
      && negb (raised (validate_task_id task_id))
      && Position.valid target_position
      && (1 <=? priority)%Z && (priority <=? 5)%Z
      && (1 <=? estimated_duration)%Z && (estimated_duration <=? 1440)%Z
      && description_ok)%bool
  then Some (Build task_id task_type target_position priority PENDING None
                   created_at estimated_duration
                   (validate_description description))
  else None.

Definition is_high_priority (self : t) : bool := (4 <=? priority self)%Z.

Definition is_pending (self : t) : bool := TaskStatus_eqb (status self) PENDING.

Definition is_completed (self : t) : bool := TaskStatus_eqb (status self) COMPLETED.

Definition assign_to_robot (self : t) (robot_id : string) : t * outcome unit :=
  if negb (is_pending self) then (self, Raise ValueError)
  else
    let self := set_assigned_robot self (Some robot_id) in
    let self := set_status self ASSIGNED in
    (self, Return tt).

Definition start_execution (self : t) : t * outcome unit :=
  if negb (TaskStatus_eqb (status self) ASSIGNED) then (self, Raise ValueError)
  else
    let self := set_status self IN_PROGRESS in
    (self, Return tt).

Definition complete (self : t) : t * outcome unit :=
  if negb (TaskStatus_eqb (status self) IN_PROGRESS) then (self, Raise ValueError)
  else
    let self := set_status self COMPLETED in
    (self, Return tt).

(** The text put between the description and the reason,
    ["\n失败原因: "]: a line feed, four CJK characters, a colon and a space. *)
Definition failure_label : string := (LF ++ "失败原因: ")%string.

Definition fail (self : t) (reason : string) : t * outcome unit :=
  let self := set_status self FAILED in
  if truthy reason
  then (set_description self
          (strip (description self ++ failure_label ++ reason)%string),
        Return tt)
  else (self, Return tt).

(** The calls of the lifecycle, as data. *)
Inductive call : Set :=
| Assign_to_robot (robot_id : string)
| Start_execution
| Complete
| Fail (reason : string).

Definition invoke (self : t) (c : call) : t * outcome unit :=
  match c with
  | Assign_to_robot r => assign_to_robot self r
  | Start_execution => start_execution self
  | Complete => complete self
  | Fail reason => fail self reason
  end.

(** A caller that catches every exception and goes on: the task after a
    sequence of calls, and the log of (status before, call, outcome,
    status after). *)
Fixpoint run (self : t) (cs : list call)
  : t * list (TaskStatus * call * outcome unit * TaskStatus) :=
  match cs with
  | [] => (self, [])
  | c :: cs' =>
      let '(self', o) := invoke self c in
      let '(final, log) := run self' cs' in
      (final, (status self, c, o, status self') :: log)
  end.

End Task.


(* ================================================================== *)
(** * scheduler/robot_scheduler.py                                     *)
(* ================================================================== *)

Module RobotScheduler.

(** [self.robots] and [self.tasks].  A robot or task object held by the
    scheduler is named by the key of its entry. *)
Record t : Type := Build {
  robots : dict Robot.t;
  tasks : dict Task.t
}.

Definition set_robots (self : t) (v : dict Robot.t) : t := Build v (tasks self).

Definition set_tasks (self : t) (v : dict Task.t) : t := Build (robots self) v.

(** [RobotScheduler()] *)
Definition init : t := Build [] [].

Definition register_robot (self : t) (robot : Robot.t) : t * outcome unit :=
  if contains (robots self) (Robot.robot_id robot)
  then (self, Raise SchedulerError)
  else (set_robots self (set (robots self) (Robot.robot_id robot) robot), Return tt).

(** [task.status = TaskStatus.PENDING; task.assigned_robot = None] *)
Definition reset_task (task : Task.t) : Task.t :=
  let task := Task.set_status task PENDING in
  Task.set_assigned_robot task None.

Definition unregister_robot (self : t) (robot_id : string) : t * bool :=
  if negb (contains (robots self) robot_id) then (self, false)
  else
    match get (robots self) robot_id with
    | None => (self, false)
    | Some robot =>
        let self :=
          match Robot.current_task robot with
          | Some task_key =>
              if truthy task_key then
                match get (tasks self) task_key with
                | Some task =>
                    set_tasks self (set (tasks self) task_key (reset_task task))
                | None => self
                end
              else self
          | None => self
          end in
        (set_robots self (del (robots self) robot_id), true)
    end.

Definition add_task (self : t) (task : Task.t) : t :=
  set_tasks self (set (tasks self) (Task.task_id task) task).

(** [[robot for robot in self.robots.values() if robot.is_available()]];
    every robot comes with the key of its entry. *)
Definition get_available_robots (self : t) : list (string * Robot.t) :=
  filter (fun kr => Robot.is_available (snd kr)) (robots self).

(** The body of the loop of [_find_best_robot], on the pair
    [(best_robot, min_distance)]; an exception of [distance_to] ends the
    loop. *)
Definition closer {L : Libm} (task : Task.t)
    (acc : outcome (option (string * Robot.t) * float)) (robot : string * Robot.t)
  : outcome (option (string * Robot.t) * float) :=
  match acc with
  | Raise e => Raise e
  | Return (best_robot, min_distance) =>
      match Position.distance_to (Robot.position (snd robot))
              (Task.target_position task) with
      | Raise e => Raise e
      | Return distance =>
          if (distance <? min_distance)%float then Return (Some robot, distance)
          else Return (best_robot, min_distance)
      end
  end.

Definition _find_best_robot {L : Libm} (self : t) (task : Task.t)
  : outcome (option (string * Robot.t)) :=
  let available_robots := get_available_robots self in
  match available_robots with
  | [] => Return None
  | _ =>
      match fold_left (closer task) available_robots (Return (None, infinity)) with
      | Raise e => Raise e
      | Return (best_robot, _) => Return best_robot
      end
  end.

(** The [except ValueError] branch of [assign_task]; [task] is the state
    of the task object when the exception is caught. *)
Definition assign_task_failed (self : t) (task : Task.t) : t * outcome (option string) :=
  (set_tasks self (set (tasks self) (Task.task_id task) (reset_task task)),
   Raise SchedulerError).

(** An exception of [_find_best_robot] is outside the [try]: it leaves
    [assign_task] as it is. *)
Definition assign_task {L : Libm} (self : t) (task : Task.t)
  : t * outcome (option string) :=
  let self := add_task self task in
  match _find_best_robot self task with
  | Raise e => (self, Raise e)
  | Return None => (self, Return None)
  | Return (Some (robot_key, best_robot)) =>
      let '(best_robot, o) := Robot.assign_task best_robot (Task.task_id task) in
      let self := set_robots self (set (robots self) robot_key best_robot) in
      match o with
      | Raise ValueError => assign_task_failed self task
      | Raise e => (self, Raise e)
      | Return _ =>
          let '(task, o) := Task.assign_to_robot task (Robot.robot_id best_robot) in
          let self := set_tasks self (set (tasks self) (Task.task_id task) task) in
          match o with
          | Raise ValueError => assign_task_failed self task
          | Raise e => (self, Raise e)
          | Return _ => (self, Return (Some (Robot.robot_id best_robot)))
          end
      end
  end.

(** The robot released by [complete_task] and [fail_task]. *)
Definition release_robot (self : t) (task : Task.t) : t :=
  match Task.assigned_robot task with
  | Some robot_key =>
      if truthy robot_key then
        match get (robots self) robot_key with
        | Some robot =>
            set_robots self (set (robots self) robot_key (Robot.complete_task robot))
        | None => self
        end
      else self
  | None => self
  end.

Definition complete_task (self : t) (task_id : string) : t * outcome bool :=
  match get (tasks self) task_id with
  | None => (self, Raise TaskNotFoundError)
  | Some task =>
      let self := release_robot self task in
      let '(task, o) := Task.complete task in
      let self := set_tasks self (set (tasks self) task_id task) in
      match o with
      | Return _ => (self, Return true)
      | Raise ValueError => (self, Return false)
      | Raise e => (self, Raise e)
      end
  end.

Definition fail_task (self : t) (task_id : string) (reason : string) : t * bool :=
  match get (tasks self) task_id with
  | None => (self, false)
  | Some task =>
      let self := release_robot self task in
      let '(task, _) := Task.fail task reason in
      (set_tasks self (set (tasks self) task_id task), true)
  end.

Definition get_pending_tasks (self : t) : list Task.t :=
  let pending_tasks := filter Task.is_pending (values (tasks self)) in
  sorted_desc Task.priority pending_tasks.

(** One turn of the loop of [auto_assign_pending_tasks]. *)
Definition auto_assign_step {L : Libm} (acc : t * dict string * option exn)
    (task : Task.t)
  : t * dict string * option exn :=
  let '(self, assignments, escaped) := acc in
  match escaped with
  | Some _ => acc
  | None =>
      match assign_task self task with
      | (self, Return assigned_robot) =>
          match assigned_robot with
          | Some r =>
              if truthy r then (self, set assignments (Task.task_id task) r, None)
              else (self, assignments, None)
          | None => (self, assignments, None)
          end
      | (self, Raise SchedulerError) => (self, assignments, None)
      | (self, Raise e) => (self, assignments, Some e)
      end
  end.

(** The tasks of the snapshot [pending_tasks] are objects of [self.tasks].
    The loop hands each of them to [assign_task] in the state the snapshot
    has it in: when every object is stored once, under its own identifier,
    no earlier turn has touched it. *)
Definition auto_assign_pending_tasks {L : Libm} (self : t)
  : t * outcome (dict string) :=
  let assignments : dict string := [] in
  let pending_tasks := get_pending_tasks self in
  let '(self, assignments, escaped) :=
    fold_left auto_assign_step pending_tasks (self, assignments, None) in
  match escaped with
  | Some e => (self, Raise e)
  | None => (self, Return assignments)
  end.

(** The dictionary of [get_system_status], in the order of the source. *)
Definition get_system_status (self : t) : dict Z :=
  let count_robots (st : RobotStatus) : Z :=
    Z.of_nat (List.length
      (filter (fun r => RobotStatus_eqb (Robot.status r) st) (values (robots self)))) in
  let count_tasks (st : TaskStatus) : Z :=
    Z.of_nat (List.length
      (filter (fun t => TaskStatus_eqb (Task.status t) st) (values (tasks self)))) in
  let total_robots := Z.of_nat (List.length (robots self)) in
  let idle_robots := count_robots IDLE in
  let busy_robots := count_robots BUSY in
  let total_tasks := Z.of_nat (List.length (tasks self)) in
  let pending_tasks :=
    Z.of_nat (List.length (filter Task.is_pending (values (tasks self)))) in
  let completed_tasks :=
    Z.of_nat (List.length (filter Task.is_completed (values (tasks self)))) in
  [("total_robots", total_robots);
   ("idle_robots", idle_robots);
   ("busy_robots", busy_robots);
   ("charging_robots", count_robots CHARGING);
   ("maintenance_robots", count_robots MAINTENANCE);
   ("total_tasks", total_tasks);
   ("pending_tasks", pending_tasks);
   ("assigned_tasks", count_tasks ASSIGNED);
   ("in_progress_tasks", count_tasks IN_PROGRESS);
   ("completed_tasks", completed_tasks);
   ("failed_tasks", count_tasks FAILED)].

End RobotScheduler.

(* ================================================================== *)
(** * services/task_service.py                                         *)
(* ================================================================== *)

Module TaskService.

Record t : Type := Build { _tasks : dict Task.t }.

Definition init : t := Build [].

Definition get_task (self : t) (task_id : string) : option Task.t :=
  get (_tasks self) task_id.

Definition update_task_status (self : t) (task_id : string) (status : TaskStatus)
  : t * bool :=
  match get (_tasks self) task_id with
  | None => (self, false)
  | Some task =>
      (Build (set (_tasks self) task_id (Task.set_status task status)), true)
  end.

(** [create_task].  [suffix] stands for [uuid.uuid4().hex[:8].upper()], the
    random part of the identifier, and [created_at] for the time of the
    call.  A validation error of the constructor is a [ValueError]; it is
    raised before anything is stored. *)
Definition create_task (self : t) (suffix : string) (created_at : Z)
    (task_type : TaskType) (target_position : Position.t) (priority : Z)
    (estimated_duration : Z) (description : string) : t * outcome Task.t :=
  let task_id := ("T" ++ suffix)%string in
  match Task.init task_id task_type target_position priority created_at
          estimated_duration (Some description) with
  | None => (self, Raise ValueError)
  | Some task => (Build (set (_tasks self) task_id task), Return task)
  end.

Definition get_all_tasks (self : t) : list Task.t := values (_tasks self).

Definition TaskType_eqb (a b : TaskType) : bool :=
  match a, b with
  | DELIVERY, DELIVERY | PATROL, PATROL | CLEANING, CLEANING => true
  | _, _ => false
  end.

Definition get_tasks_by_status (self : t) (status : TaskStatus) : list Task.t :=
  filter (fun task => TaskStatus_eqb (Task.status task) status) (values (_tasks self)).

Definition get_tasks_by_type (self : t) (task_type : TaskType) : list Task.t :=
  filter (fun task => TaskType_eqb (Task.task_type task) task_type) (values (_tasks self)).

Definition get_high_priority_tasks (self : t) : list Task.t :=
  let high_priority_tasks := filter Task.is_high_priority (values (_tasks self)) in
  sorted_desc Task.priority high_priority_tasks.

Definition get_pending_tasks (self : t) : list Task.t :=
  let pending_tasks := filter Task.is_pending (values (_tasks self)) in
  sorted_desc Task.priority pending_tasks.

Definition delete_task (self : t) (task_id : string) : t * bool :=
  if contains (_tasks self) task_id
  then (Build (del (_tasks self) task_id), true)
  else (self, false).

(** [status.value] and [task_type.value] *)
Definition TaskStatus_value (s : TaskStatus) : string :=
  match s with
  | PENDING => "pending"
  | ASSIGNED => "assigned"
  | IN_PROGRESS => "in_progress"
  | COMPLETED => "completed"
  | FAILED => "failed"
  end.

Definition TaskType_value (ty : TaskType) : string :=
  match ty with
  | DELIVERY => "delivery"
  | PATROL => "patrol"
  | CLEANING => "cleaning"
  end.

(** [for status in TaskStatus] and [for task_type in TaskType] *)
Definition all_statuses : list TaskStatus :=
  [PENDING; ASSIGNED; IN_PROGRESS; COMPLETED; FAILED].

Definition all_types : list TaskType := [DELIVERY; PATROL; CLEANING].

Definition get_task_statistics (self : t) : dict Z :=
  let total_tasks := Z.of_nat (List.length (_tasks self)) in
  let status_counts :=
    fold_left
      (fun (d : dict Z) status =>
         set d (TaskStatus_value status ++ "_tasks")%string
           (Z.of_nat (List.length (get_tasks_by_status self status))))
      all_statuses [] in
  let type_counts :=
    fold_left
      (fun (d : dict Z) task_type =>
         set d (TaskType_value task_type ++ "_tasks")%string
           (Z.of_nat (List.length (get_tasks_by_type self task_type))))
      all_types [] in
  let result : dict Z :=
    [("total_tasks", total_tasks);
     ("high_priority_tasks", Z.of_nat (List.length (get_high_priority_tasks self)))] in
  let result := fold_left (fun d kv => set d (fst kv) (snd kv)) status_counts result in
  fold_left (fun d kv => set d (fst kv) (snd kv)) type_counts result.

(** [description or default] *)
Definition or_default (description default : string) : string :=
  if truthy description then description else default.

Definition create_delivery_task (self : t) (suffix : string) (created_at : Z)
    (target_position : Position.t) (priority : Z) (description : string)
  : t * outcome Task.t :=
  create_task self suffix created_at DELIVERY target_position priority 45
    (or_default description "配送任务").

Definition create_patrol_task (self : t) (suffix : string) (created_at : Z)
    (target_position : Position.t) (priority : Z) (description : string)
  : t * outcome Task.t :=
  create_task self suffix created_at PATROL target_position priority 60
    (or_default description "巡逻任务").

Definition create_cleaning_task (self : t) (suffix : string) (created_at : Z)
    (target_position : Position.t) (priority : Z) (description : string)
  : t * outcome Task.t :=
  create_task self suffix created_at CLEANING target_position priority 90
    (or_default description "清洁任务").

End TaskService.



(* ================================================================== *)
(** * utils/validators.py                                              *)
(* ================================================================== *)

Module Validators.

(** The arguments are typed [Any]: the values the checks tell apart.
    [bool] is a subclass of [int], with [True == 1] and [False == 0]. *)
Inductive value : Set :=
| VNone
| VBool (b : bool)
| VInt (z : Z)
| VFloat (f : float)
| VStr (s : string)
| VPosition (p : Position.t)
| VObject.

(** The integer behind a value for which [isinstance(v, int)] holds. *)
Definition as_int (v : value) : option Z :=
  match v with
  | VBool b => Some (if b then 1 else 0)%Z
  | VInt z => Some z
  | _ => None
  end.



Definition validate_battery_level (battery_level : value) : bool :=
  match battery_level with
  | VFloat f => ((0 <=? f) && (f <=? 100))%float
  | _ =>
      match as_int battery_level with
      | None => false
      | Some z => ((0 <=? z) && (z <=? 100))%Z
      end
  end.

Definition validate_robot_id (robot_id : value) : bool :=
  match robot_id with
  | VStr s => startswith s "R" && ((2 <=? len s)%nat && (len s <=? 50)%nat)
  | _ => false
  end.

Definition validate_task_id (task_id : value) : bool :=
  match task_id with
  | VStr s => startswith s "T" && ((2 <=? len s)%nat && (len s <=? 50)%nat)
  | _ => false
  end.

Definition validate_name (name : value) : bool :=
  match name with
  | VStr s => (len (strip s) <=? 100)%nat
  | _ => false
  end.

Definition validate_description (description : value) : bool :=
  match description with
  | VNone => true
  | VStr s => (len s <=? 500)%nat
  | _ => false
  end.


Definition sanitize_string (value : string) (max_length : Z) : string :=
  let cleaned := strip value in
  if (max_length <? Z.of_nat (len cleaned))%Z then slice_to cleaned max_length
  else cleaned.

(** Whether [-1000 <= v <= 1000] for a number [v]; [None] for the values
    that are neither [int] nor [float]. *)
Definition coordinate_in_range (v : value) : option bool :=
  match v with
  | VFloat f => Some ((-1000 <=? f) && (f <=? 1000))%float
  | _ =>
      match as_int v with
      | None => None
      | Some z => Some ((-1000 <=? z) && (z <=? 1000))%Z
      end
  end.

Definition validate_coordinates (x y : value) : bool :=
  match coordinate_in_range x, coordinate_in_range y with
  | Some bx, Some by_ => bx && by_
  | _, _ => false
  end.

End Validators.

(* ================================================================== *)
(** * utils/location_utils.py                                          *)
(* ================================================================== *)

Module LocationUtils.

(** [math.sqrt(dx * dx + dy * dy)] *)
Definition calculate_distance (pos1 pos2 : Position.t) : float :=
  let dx := (Position.x pos2 - Position.x pos1)%float in
  let dy := (Position.y pos2 - Position.y pos1)%float in
  sqrt (dx * dx + dy * dy)%float.

Definition calculate_manhattan_distance (pos1 pos2 : Position.t) : float :=
  (abs (Position.x pos2 - Position.x pos1)
   + abs (Position.y pos2 - Position.y pos1))%float.

(** The body of the loop of [find_nearest_robot], on the pair
    [(nearest_robot, min_distance)]. *)
Definition nearer (target_position : Position.t)
    (acc : option Robot.t * float) (robot : Robot.t) : option Robot.t * float :=
  let '(nearest_robot, min_distance) := acc in
  let distance := calculate_distance (Robot.position robot) target_position in
  if (distance <? min_distance)%float then (Some robot, distance)
  else (nearest_robot, min_distance).

Definition find_nearest_robot (target_position : Position.t)
    (robots : list Robot.t) (available_only : bool) : option Robot.t :=
  match robots with
  | [] => None
  | _ =>
      let candidates :=
        if available_only then filter Robot.is_available robots else robots in
      match candidates with
      | [] => None
      | _ => fst (fold_left (nearer target_position) candidates (None, infinity))
      end
  end.

Definition find_robots_within_radius (center : Position.t)
    (robots : list Robot.t) (radius : float) : list Robot.t :=
  let robots_in_radius :=
    flat_map
      (fun robot =>
         let distance := calculate_distance center (Robot.position robot) in
         if (distance <=? radius)%float then [(robot, distance)] else [])
      robots in
  let robots_in_radius := sort_asc snd robots_in_radius in
  map fst robots_in_radius.

Definition is_position_in_bounds (position : Position.t)
    (min_x max_x min_y max_y : float) : bool :=
  ((min_x <=? Position.x position) && (Position.x position <=? max_x)
   && ((min_y <=? Position.y position) && (Position.y position <=? max_y)))%float.

Definition calculate_travel_time (distance speed : float) : outcome float :=
  if (speed <=? 0)%float then Raise ValueError
  else Return (distance / speed)%float.

End LocationUtils.

(* ================================================================== *)
(** * utils/status_monitor.py                                          *)
(* ================================================================== *)

Module StatusMonitor.

(** [sum(1 for x in l if f(x))] *)
Definition count {A : Type} (f : A -> bool) (l : list A) : num :=
  Int (Z.of_nat (List.length (filter f l))).

(** [n / total * 100] *)
Definition rate (n total : num) : num := num_mul (num_div n total) (Int 100).

Definition get_robot_utilization (robots : list Robot.t) : dict num :=
  match robots with
  | [] => []
  | _ =>
      let total_robots := Int (Z.of_nat (List.length robots)) in
      let idle_count := count (fun r => RobotStatus_eqb (Robot.status r) IDLE) robots in
      let busy_count := count (fun r => RobotStatus_eqb (Robot.status r) BUSY) robots in
      let charging_count :=
        count (fun r => RobotStatus_eqb (Robot.status r) CHARGING) robots in
      let maintenance_count :=
        count (fun r => RobotStatus_eqb (Robot.status r) MAINTENANCE) robots in
      [("total_robots", total_robots);
       ("idle_rate", rate idle_count total_robots);
       ("busy_rate", rate busy_count total_robots);
       ("charging_rate", rate charging_count total_robots);
       ("maintenance_rate", rate maintenance_count total_robots);
       ("availability_rate", rate (num_add idle_count busy_count) total_robots)]
  end.

Definition get_task_completion_stats (tasks : list Task.t) : dict num :=
  match tasks with
  | [] => []
  | _ =>
      let total_tasks := Int (Z.of_nat (List.length tasks)) in
      let pending_count := count (fun t => TaskStatus_eqb (Task.status t) PENDING) tasks in
      let assigned_count := count (fun t => TaskStatus_eqb (Task.status t) ASSIGNED) tasks in
      let in_progress_count :=
        count (fun t => TaskStatus_eqb (Task.status t) IN_PROGRESS) tasks in
      let completed_count :=
        count (fun t => TaskStatus_eqb (Task.status t) COMPLETED) tasks in
      let failed_count := count (fun t => TaskStatus_eqb (Task.status t) FAILED) tasks in
      [("total_tasks", total_tasks);
       ("pending_rate", rate pending_count total_tasks);
       ("assigned_rate", rate assigned_count total_tasks);
       ("in_progress_rate", rate in_progress_count total_tasks);
       ("completion_rate", rate completed_count total_tasks);
       ("failure_rate", rate failed_count total_tasks)]
  end.

(** [sum(l)]: the additions start from the integer 0 and go from left to
    right (from Python 3.12 on, [sum] also compensates rounding errors). *)
Definition sum (l : list float) : num :=
  fold_left (fun acc x => num_add acc (Float x)) l (Int 0).

(** [min(l)] and [max(l)] of a list that is not empty. *)
Definition list_min (first : float) (others : list float) : float :=
  fold_left (fun m x => if (x <? m)%float then x else m) others first.

Definition list_max (first : float) (others : list float) : float :=
  fold_left (fun m x => if (m <? x)%float then x else m) others first.

Definition get_battery_status (robots : list Robot.t) : dict num :=
  match map Robot.battery_level robots with
  | [] => []
  | first :: others =>
      let battery_levels := first :: others in
      let low_battery_count := count (fun level => (level <? 20)%float) battery_levels in
      let critical_battery_count :=
        count (fun level => (level <? 10)%float) battery_levels in
      [("average_battery",
        num_div (sum battery_levels) (Int (Z.of_nat (List.length battery_levels))));
       ("min_battery", Float (list_min first others));
       ("max_battery", Float (list_max first others));
       ("low_battery_count", low_battery_count);
       ("critical_battery_count", critical_battery_count);
       ("low_battery_rate",
        rate low_battery_count (Int (Z.of_nat (List.length robots))))]
  end.

(** The weights [0.3] and [0.4], as the binary64 numbers nearest to them. *)
Definition weight_03 : float := 0x1.3333333333333p-2%float.

Definition weight_04 : float := 0x1.999999999999ap-2%float.

(** [d.get(k, 0)] *)
Definition get_or_zero (d : dict num) (k : string) : num :=
  match get d k with Some v => v | None => Int 0 end.

(** [if d:] on a dictionary. *)
Definition nonempty (d : dict num) : bool :=
  match d with [] => false | _ => true end.

Definition get_system_health_score (robots : list Robot.t) (tasks : list Task.t) : num :=
  match robots with
  | [] => Float 0
  | _ =>
      let robot_stats := get_robot_utilization robots in
      let task_stats :=
        match tasks with [] => [] | _ => get_task_completion_stats tasks end in
      let battery_stats := get_battery_status robots in
      let availability_score :=
        num_mul (get_or_zero robot_stats "availability_rate") (Float weight_03) in
      let battery_score :=
        num_mul (min2 (get_or_zero battery_stats "average_battery") (Int 100))
                (Float weight_03) in
      let completion_score :=
        if nonempty task_stats then
          let completion_rate := get_or_zero task_stats "completion_rate" in
          let failure_rate := get_or_zero task_stats "failure_rate" in
          num_mul (num_sub completion_rate (num_div failure_rate (Int 2))) (Float weight_04)
        else Float 0 in
      let health_score :=
        max2 (Int 0)
          (num_add (num_add availability_score battery_score) completion_score) in
      min2 (Int 100) health_score
  end.

End StatusMonitor.
(* ================================================================== *)
(** * Vocabulary of the specification                                  *)
(* ================================================================== *)

(** The moves of the task lifecycle: which call takes which status to
    which. *)
Inductive lifecycle_move : TaskStatus -> Task.call -> TaskStatus -> Prop :=
| move_assign : forall r, lifecycle_move PENDING (Task.Assign_to_robot r) ASSIGNED
| move_start : lifecycle_move ASSIGNED Task.Start_execution IN_PROGRESS
| move_complete : lifecycle_move IN_PROGRESS Task.Complete COMPLETED
| move_fail : forall s reason, lifecycle_move s (Task.Fail reason) FAILED.

(** What one entry of the log of [Task.run] has to satisfy. *)
Definition lifecycle_entry (e : TaskStatus * Task.call * outcome unit * TaskStatus) : Prop :=
  let '(before, c, o, after) := e in
  match o with
  | Return _ => lifecycle_move before c after
  | Raise exc =>
      exc = ValueError /\ after = before
      /\ forall s', ~ lifecycle_move before c s'
  end.

(** The order [get_pending_tasks] promises: priorities go down. *)
Definition priority_ge (a b : Task.t) : Prop := (Task.priority b <= Task.priority a)%Z.

(** The tasks of a list that have priority [p], in the order of the list. *)
Definition with_priority (p : Z) (l : list Task.t) : list Task.t :=
  filter (fun t => (Task.priority t =? p)%Z) l.

(** ** Magnitudes of binary64 numbers, on their [SpecFloat] form *)

(** [x] is a zero or a finite number, of sign [s] and of magnitude below
    [2 ^ B]: what rounding a small enough mantissa gives. *)
Definition rounded (s : bool) (B : Z) (x : spec_float) : Prop :=
  match x with
  | S754_zero s' => s' = s
  | S754_finite s' m e => s' = s /\ (Z.pos (digits2_pos m) + e <= B)%Z
  | _ => False
  end.

(** [x] is a zero or a finite number of magnitude below [2 ^ B]. *)
Definition bounded_by (B : Z) (x : spec_float) : Prop :=
  match x with
  | S754_zero _ => True
  | S754_finite _ m e => (Z.pos (digits2_pos m) + e <= B)%Z
  | _ => False
  end.

(** The same, for a number that is not negative. *)
Definition nonneg_bounded_by (B : Z) (x : spec_float) : Prop :=
  match x with
  | S754_zero _ => True
  | S754_finite false m e => (Z.pos (digits2_pos m) + e <= B)%Z
  | _ => False
  end.

(** [x] is a number that is not negative: a zero, a finite number above
    zero, or the infinity. *)
Definition nonneg_number (x : spec_float) : Prop :=
  match x with
  | S754_zero _ | S754_finite false _ _ | S754_infinity false => True
  | _ => False
  end.

(** Values for the examples. *)
Module Sample.

Definition at_ (x y : float) : Position.t := Position.Build x y.

Definition robot (id : string) (p : Position.t) : Robot.t :=
  Robot.Build id "robot" p IDLE None 100 0.

Definition task (id : string) (p : Position.t) (prio : Z) (st : TaskStatus) : Task.t :=
  Task.Build id DELIVERY p prio st None 0 30 "".

(** ["A" * n] *)
Fixpoint letters (n : nat) : string :=
  match n with O => EmptyString | S n' => String "A" (letters n') end.

End Sample.

(** A scheduler with one idle robot, and a task that is already completed. *)
Definition one_robot : RobotScheduler.t :=
  RobotScheduler.Build [("R1", Sample.robot "R1" (Sample.at_ 0 0))] [].

Definition completed_task : Task.t :=
  Sample.task "T1" (Sample.at_ 3 4) 1 COMPLETED.

(** Robot R1 holds task T1, which is completed. *)
Definition holding : RobotScheduler.t :=
  RobotScheduler.Build
    [("R1", Robot.Build "R1" "robot" (Sample.at_ 0 0) BUSY (Some "T1") 100 0)]
    [("T1", Task.Build "T1" DELIVERY (Sample.at_ 3 4) 1 COMPLETED (Some "R1") 0 30 "")].


(** ** The C library *)

(** [r] is not negative, and it is [c] or a neighbour of [c] among the
    [float]s: at most one unit in the last place away from [c]. *)
Definition one_ulp_from (c r : float) : bool :=
  ((0 <=? r) && ((r =? next_down c) || (r =? c) || (r =? next_up c)))%float.

(** [errno] is left alone, or set to [ERANGE] with a result that is zero
    or infinite. *)
Definition range_errno (re : float * errno) : bool :=
  match snd re with
  | ENONE => true
  | ERANGE => (fst re =? 0)%float || is_infinity (fst re)
  | EDOM => false
  end.

(** What is asked of [pow] where the interpreter calls it for a distance,
    on a finite base above zero: with the exponent 2 the result is within
    one unit in the last place of the correctly rounded square, with the
    exponent 0.5 of the correctly rounded square root, and [errno]
    follows the result. *)
Definition accurate (L : Libm) : Prop :=
  forall x : float,
    (0 <? x)%float = true -> (x <? infinity)%float = true ->
    one_ulp_from (x * x) (fst (pow x 2)) = true
    /\ range_errno (pow x 2) = true
    /\ one_ulp_from (sqrt x) (fst (pow x 0.5)) = true
    /\ range_errno (pow x 0.5) = true.

(** A library whose [pow] is correctly rounded for the exponents 2 and
    0.5, and reports an overflow. *)
Definition correctly_rounded : Libm :=
  {| pow x y :=
       let r :=
         if (y =? 2)%float then (x * x)%float
         else if (y =? 0.5)%float then sqrt x
         else nan in
       (r, if is_infinity r then ERANGE else ENONE) |}.

(** The same library, but for [pow 14170.0 0.5], which is one unit in the
    last place below the square root: 119.03780911962383 where the
    square root is 119.03780911962384. *)
Definition last_place_low : Libm :=
  {| pow x y :=
       if ((y =? 0.5) && (x =? 14170))%float then (next_down (sqrt x), ENONE)
       else pow (Libm := correctly_rounded) x y |}.

(** ** Nearest robot *)

Section Nearest.
Context {L : Libm}.

(** The distance the scheduler compares: from a robot to a target.  A
    call of [distance_to] that raises gives none: NaN stands for it. *)
Definition distance_of (target : Position.t) (robot : string * Robot.t) : float :=
  match Position.distance_to (Robot.position (snd robot)) target with
  | Return d => d
  | Raise _ => nan
  end.

(** [r] is the first of the robots of [l], in the order of [l], at the
    least distance from [target]: the robots before it are strictly
    farther, no robot after it is strictly nearer. *)
Definition first_closest (target : Position.t) (l : list (string * Robot.t))
    (r : string * Robot.t) : Prop :=
  exists l1 l2,
    l = l1 ++ r :: l2
    /\ (forall r', In r' l1 -> (distance_of target r <? distance_of target r')%float = true)
    /\ (forall r', In r' l2 -> (distance_of target r' <? distance_of target r)%float = false).

(** What the loop of [_find_best_robot] keeps true of
    [(best_robot, min_distance)] after the robots [seen]. *)
Definition closest_so_far (target : Position.t) (seen : list (string * Robot.t))
    (acc : outcome (option (string * Robot.t) * float)) : Prop :=
  match acc with
  | Raise _ => False
  | Return (None, min_distance) => seen = [] /\ min_distance = infinity
  | Return (Some b, min_distance) =>
      min_distance = distance_of target b /\ first_closest target seen b
  end.

End Nearest.

(** The positions of all robots pass the validation of [Position]. *)
Definition valid_positions (self : RobotScheduler.t) : Prop :=
  Forall (fun kr => Position.valid (Robot.position (snd kr)) = true)
         (RobotScheduler.robots self).

(** The targets of all tasks pass the validation of [Position]. *)
Definition valid_targets (self : RobotScheduler.t) : Prop :=
  Forall (fun kt => Position.valid (Task.target_position (snd kt)) = true)
         (RobotScheduler.tasks self).

(** A tiny coordinate, [2 ** -600], whose square underflows to zero. *)
Definition tiny : float := 0x1p-600%float.

(** Three robots at distances 5, 1 and 10 from the origin, and a fourth
    one at distance 1 again. *)
Definition fleet : RobotScheduler.t :=
  RobotScheduler.Build
    [("R1", Sample.robot "R1" (Sample.at_ 3 4));
     ("R2", Sample.robot "R2" (Sample.at_ 1 0));
     ("R3", Sample.robot "R3" (Sample.at_ 6 8));
     ("R4", Sample.robot "R4" (Sample.at_ 0 1))]
    [].

(** Two robots whose distances from the origin are the square roots of
    14170.000000000002 and of 14170: R1 at [(119.03780911962384, 0)] and
    R2 at [(3, 119)]. *)
Definition near_tie : RobotScheduler.t :=
  RobotScheduler.Build
    [("R1", Sample.robot "R1" (Sample.at_ 0x1.dc26b76f11199p+6 0));
     ("R2", Sample.robot "R2" (Sample.at_ 3 119))]
    [].

(** ** Automatic assignment *)

(** A scheduler as the public operations build it: every robot and every
    task is stored once, under the identifier it carries, and the robot
    identifiers pass [validate_robot_id]. *)
Definition well_formed (self : RobotScheduler.t) : Prop :=
  wf (RobotScheduler.robots self)
  /\ keyed_by Robot.robot_id (RobotScheduler.robots self)
  /\ Forall (fun kr => startswith (Robot.robot_id (snd kr)) "R" = true)
       (RobotScheduler.robots self)
  /\ wf (RobotScheduler.tasks self)
  /\ keyed_by Task.task_id (RobotScheduler.tasks self).

(** The robot after [Robot.assign_task] has returned. *)
Definition busy_with (r : Robot.t) (task_id : string) : Robot.t :=
  Robot.set_status (Robot.set_current_task r (Some task_id)) BUSY.

(** The task after [Task.assign_to_robot] has returned. *)
Definition assigned_to (t : Task.t) (robot_id : string) : Task.t :=
  Task.set_status (Task.set_assigned_robot t (Some robot_id)) ASSIGNED.

(** What the loop of [auto_assign_pending_tasks] keeps true, the call
    having started in [self0]: [done] are the tasks of the snapshot handled
    so far, [todo] those to come, [s] the scheduler and [m] the
    assignments.  The robots available at the start go, one by one, to
    the first tasks of the snapshot. *)
Record auto_assign_inv (self0 : RobotScheduler.t) (done todo : list Task.t)
    (s : RobotScheduler.t) (m : dict string) : Prop := {
  inv_robots_wf : wf (RobotScheduler.robots s);
  inv_robots_keyed : keyed_by Robot.robot_id (RobotScheduler.robots s);
  inv_robots_ids :
    Forall (fun kr => startswith (Robot.robot_id (snd kr)) "R" = true)
      (RobotScheduler.robots s);
  inv_positions : valid_positions s;
  inv_todo :
    forall t, In t todo -> get (RobotScheduler.tasks s) (Task.task_id t) = Some t;
  inv_unassigned :
    forall t, In t done -> get m (Task.task_id t) = None ->
              get (RobotScheduler.tasks s) (Task.task_id t) = Some t;
  inv_assigned :
    forall tid rid, get m tid = Some rid ->
      exists t r0,
        In t done /\ Task.task_id t = tid
        /\ get (RobotScheduler.tasks s) tid = Some (assigned_to t rid)
        /\ In (rid, r0) (RobotScheduler.get_available_robots self0)
        /\ get (RobotScheduler.robots s) rid = Some (busy_with r0 tid);
  inv_available :
    forall kr, In kr (RobotScheduler.get_available_robots s) ->
               In kr (RobotScheduler.get_available_robots self0);
  inv_keys :
    keys m
    = map Task.task_id
        (firstn (List.length (RobotScheduler.get_available_robots self0)) done);
  inv_count :
    List.length m + List.length (RobotScheduler.get_available_robots s)
    = List.length (RobotScheduler.get_available_robots self0)
}.

(** Two available robots, a third one with a low battery, and three
    pending tasks of priorities 1, 3 and 2. *)
Definition two_for_three : RobotScheduler.t :=
  RobotScheduler.Build
    [("R1", Sample.robot "R1" (Sample.at_ 0 0));
     ("R2", Robot.Build "R2" "robot" (Sample.at_ 5 5) IDLE None 15 0);
     ("R3", Sample.robot "R3" (Sample.at_ 10 10))]
    [("T1", Sample.task "T1" (Sample.at_ 1 1) 1 PENDING);
     ("T2", Sample.task "T2" (Sample.at_ 9 9) 3 PENDING);
     ("T3", Sample.task "T3" (Sample.at_ 2 2) 2 PENDING)].

(** ** Further vocabulary *)

(** A robot is BUSY exactly when it has a current task. *)
Definition robot_consistent (r : Robot.t) : Prop :=
  Robot.status r = BUSY <-> Robot.current_task r <> None.

(** The caller's [scheduler.tasks[task_id].start_execution()], on the
    task object the scheduler holds. *)
Definition start_stored_task (self : RobotScheduler.t) (task_id : string)
  : RobotScheduler.t * outcome unit :=
  match get (RobotScheduler.tasks self) task_id with
  | None => (self, Raise TaskNotFoundError)
  | Some task =>
      let '(task, o) := Task.start_execution task in
      (RobotScheduler.set_tasks self (set (RobotScheduler.tasks self) task_id task), o)
  end.

(** Two idle robots and one pending task: a scheduler for the examples. *)
Definition small_fleet : RobotScheduler.t :=
  RobotScheduler.Build
    [("R1", Sample.robot "R1" (Sample.at_ 0 0));
     ("R2", Sample.robot "R2" (Sample.at_ 6 8))]
    [("T0", Sample.task "T0" (Sample.at_ 1 1) 2 PENDING)].

(** The entry [k] of a dictionary of counts, 0 when it is missing. *)
Definition stat (d : dict Z) (k : string) : Z :=
  match get d k with Some z => z | None => 0%Z end.

(** The characters of [uuid.uuid4().hex[:8].upper()]: eight of the
    digits [0] to [9] and the letters [A] to [F]. *)
Definition is_hex_upper (c : ascii) : bool :=
  let n := N_of_ascii c in
  (((48 <=? n) && (n <=? 57)) || ((65 <=? n) && (n <=? 70)))%N.

Fixpoint all_chars (f : ascii -> bool) (s : string) : bool :=
  match s with
  | EmptyString => true
  | String c s' => f c && all_chars f s'
  end.

Definition hex8 (s : string) : bool :=
  (String.length s =? 8)%nat && all_chars is_hex_upper s.

(** A character of one byte that is not white space. *)
Definition plain_char (c : ascii) : bool :=
  (N_of_ascii c <? 128)%N && negb (isspace c).


(** [r] is the first element of [l] at the least [dist]: the elements
    before it are strictly farther, none after it is strictly nearer. *)
Definition first_least {A : Type} (dist : A -> float) (l : list A) (r : A) : Prop :=
  exists l1 l2,
    l = l1 ++ r :: l2
    /\ (forall r', In r' l1 -> (dist r <? dist r')%float = true)
    /\ (forall r', In r' l2 -> (dist r' <? dist r)%float = false).

(** What the loop of [find_nearest_robot] keeps true of
    [(nearest_robot, min_distance)] after the robots [seen]. *)
Definition least_so_far {A : Type} (dist : A -> float) (seen : list A)
    (acc : option A * float) : Prop :=
  match fst acc with
  | None => seen = [] /\ snd acc = infinity
  | Some b => snd acc = dist b /\ first_least dist seen b
  end.

(** The distance [find_nearest_robot] compares. *)
Definition distance_from (target : Position.t) (robot : Robot.t) : float :=
  LocationUtils.calculate_distance (Robot.position robot) target.

(** The distance [find_robots_within_radius] compares. *)
Definition distance_around (center : Position.t) (robot : Robot.t) : float :=
  LocationUtils.calculate_distance center (Robot.position robot).

(** Keys go up: no later key is strictly below an earlier one. *)
Definition ascending {A : Type} (key : A -> float) (a b : A) : Prop :=
  (key b <? key a)%float = false.

(** Robots for the examples of the location utilities. *)
Definition some_robots : list Robot.t :=
  [Sample.robot "R1" (Sample.at_ 3 4);
   Robot.Build "R2" "robot" (Sample.at_ 1 0) BUSY (Some "T9") 100 0;
   Sample.robot "R3" (Sample.at_ 0 2);
   Sample.robot "R4" (Sample.at_ 6 8)].

(** [Field(default=100.0, ge=0, le=100)] on the battery level. *)
Definition valid_battery (r : Robot.t) : bool :=
  ((0 <=? Robot.battery_level r) && (Robot.battery_level r <=? 100))%float.

(** Robots with batteries at 5, 15 and 80 percent. *)
Definition mixed_batteries : list Robot.t :=
  [Robot.Build "R1" "robot" (Sample.at_ 0 0) IDLE None 15 0;
   Robot.Build "R2" "robot" (Sample.at_ 1 0) IDLE None 5 0;
   Robot.Build "R3" "robot" (Sample.at_ 2 0) IDLE None 80 0].
(* ================================================================== *)
(** * Facts about dictionaries                                         *)
(* ================================================================== *)

Section DictFacts.
Variable V : Type.
Implicit Types (d : dict V) (k : string) (v : V).

Lemma get_set_same d k v : get (set d k v) k = Some v.
Proof.
  induction d as [|[k0 v0] d IH]; simpl.
  - now rewrite String.eqb_refl.
  - destruct (String.eqb_spec k k0) as [->|Hne]; simpl.
    + now rewrite String.eqb_refl.
    + apply String.eqb_neq in Hne. now rewrite Hne.
Qed.

Lemma get_set_other d k k' v : k <> k' -> get (set d k v) k' = get d k'.
Proof.
  intros Hne. induction d as [|[k0 v0] d IH]; simpl.
  - destruct (String.eqb_spec k' k); congruence.
  - destruct (String.eqb_spec k k0) as [->|Hk]; simpl.
    + destruct (String.eqb_spec k' k0); congruence.
    + destruct (String.eqb_spec k' k0); congruence.
Qed.

Lemma set_get_id d k v : get d k = Some v -> set d k v = d.
Proof.
  induction d as [|[k0 v0] d IH]; simpl; [discriminate|].
  destruct (String.eqb_spec k k0) as [->|Hk]; intros H.
  - congruence.
  - now rewrite IH.
Qed.

Lemma keys_set_present d k v v' : get d k = Some v' -> keys (set d k v) = keys d.
Proof.
  induction d as [|[k0 v0] d IH]; simpl; [discriminate|].
  destruct (String.eqb_spec k k0) as [->|Hk]; intros H; simpl.
  - reflexivity.
  - now rewrite IH.
Qed.

Lemma get_None_keys d k : get d k = None <-> ~ In k (keys d).
Proof.
  induction d as [|[k0 v0] d IH]; simpl.
  - tauto.
  - destruct (String.eqb_spec k k0) as [->|Hk].
    + split; [discriminate|]. intros H. exfalso. apply H. now left.
    + rewrite IH. split; intros H; [intros [E|I]; [congruence|tauto]|tauto].
Qed.

Lemma get_del_same d k : wf d -> get (del d k) k = None.
Proof.
  unfold wf. induction d as [|[k0 v0] d IH]; simpl; intros Hwf; [reflexivity|].
  inversion Hwf as [|? ? Hnin Hnd]; subst.
  destruct (String.eqb_spec k k0) as [->|Hk]; simpl.
  - now apply get_None_keys.
  - apply String.eqb_neq in Hk. rewrite Hk. now apply IH.
Qed.

Lemma get_del_other d k k' : k <> k' -> get (del d k) k' = get d k'.
Proof.
  intros Hne. induction d as [|[k0 v0] d IH]; simpl; [reflexivity|].
  destruct (String.eqb_spec k k0) as [->|Hk]; simpl.
  - destruct (String.eqb_spec k' k0); congruence.
  - destruct (String.eqb_spec k' k0); congruence.
Qed.

Lemma get_In d k v : get d k = Some v -> In (k, v) d.
Proof.
  induction d as [|[k0 v0] d IH]; simpl; [discriminate|].
  destruct (String.eqb_spec k k0) as [->|Hk]; intros H.
  - left. congruence.
  - right. now apply IH.
Qed.

Lemma In_get d k v : wf d -> In (k, v) d -> get d k = Some v.
Proof.
  unfold wf. induction d as [|[k0 v0] d IH]; simpl; intros Hwf HI; [contradiction|].
  inversion Hwf as [|? ? Hnin Hnd]; subst.
  destruct HI as [E|HI].
  - inversion E; subst. now rewrite String.eqb_refl.
  - destruct (String.eqb_spec k k0) as [->|Hk].
    + exfalso. apply Hnin. change (In (fst (k0, v)) (map fst d)). now apply in_map.
    + now apply IH.
Qed.

End DictFacts.

(* ================================================================== *)
(** * Facts about binary64 arithmetic                                  *)
(* ================================================================== *)

(** ** Symmetry of the square of a difference *)

Lemma binary_round_aux_abs (s : bool) (m e : Z) (l : location) :
  SFabs (binary_round_aux prec emax s m e l) = binary_round_aux prec emax false m e l.
Proof.
  unfold binary_round_aux.
  destruct (shr_fexp prec emax m e l) as [mrs' e'].
  destruct (shr_fexp prec emax _ e' loc_Exact) as [mrs'' e''].
  destruct (shr_m mrs''); simpl; try reflexivity.
  destruct (_ <=? _)%Z; reflexivity.
Qed.

Lemma binary_round_abs (s : bool) (m : positive) (e : Z) :
  SFabs (binary_round prec emax s m e) = binary_round prec emax false m e.
Proof.
  unfold binary_round.
  destruct (shl_align m e _) as [mz ez]. apply binary_round_aux_abs.
Qed.

Lemma binary_normalize_abs_opp (m e : Z) :
  SFabs (binary_normalize prec emax (- m) e false)
  = SFabs (binary_normalize prec emax m e false).
Proof.
  destruct m; simpl; try reflexivity; now rewrite !binary_round_abs.
Qed.

Lemma SF64sub_abs_sym (x y : spec_float) :
  SFabs (SF64sub x y) = SFabs (SF64sub y x).
Proof.
  destruct x as [sx|sx| |sx mx ex], y as [sy|sy| |sy my ey];
    try (destruct sx); try (destruct sy); try reflexivity;
    unfold SF64sub, SFsub;
    replace (IntDef.Z.min ey ex) with (IntDef.Z.min ex ey) by apply Z.min_comm;
    rewrite <- binary_normalize_abs_opp; f_equal; f_equal;
    generalize (fst (shl_align mx ex (IntDef.Z.min ex ey)));
    generalize (fst (shl_align my ey (IntDef.Z.min ex ey)));
    intros; unfold cond_Zopp; lia.
Qed.

Lemma SF64mul_square_abs (z : spec_float) :
  SF64mul z z = SF64mul (SFabs z) (SFabs z).
Proof.
  destruct z as [s|s| |s m e]; simpl; try (destruct s; reflexivity).
  reflexivity.
Qed.

Lemma sub_square_sym (a b : float) :
  ((a - b) * (a - b) = (b - a) * (b - a))%float.
Proof.
  apply Prim2SF_inj. rewrite !mul_spec, !sub_spec.
  rewrite SF64mul_square_abs, (SF64mul_square_abs (SF64sub (Prim2SF b) (Prim2SF a))).
  now rewrite SF64sub_abs_sym.
Qed.

(** ** Digits *)

Section Magnitude.
Local Open Scope Z_scope.

Lemma digits2_pos_size (p : positive) : digits2_pos p = Pos.size p.
Proof. induction p; simpl; congruence. Qed.

Lemma digits2_pos_gt (p : positive) : Z.pos p < 2 ^ Z.pos (digits2_pos p).
Proof.
  rewrite digits2_pos_size.
  pose proof (Pos.size_gt p) as H.
  apply Pos2Z.pos_lt_pos in H. now rewrite Pos2Z.inj_pow in H.
Qed.

Lemma digits2_pos_le (p : positive) : 2 ^ Z.pos (digits2_pos p) <= 2 * Z.pos p.
Proof.
  rewrite digits2_pos_size.
  pose proof (Pos.size_le p) as H.
  apply Pos2Z.pos_le_pos in H. now rewrite Pos2Z.inj_pow in H.
Qed.

Lemma Zdigits2_nonneg (m : Z) : 0 <= Zdigits2 m.
Proof. destruct m; simpl; lia. Qed.

Lemma Zdigits2_gt (m : Z) : Z.abs m < 2 ^ Zdigits2 m.
Proof.
  destruct m; simpl; [lia| |]; apply digits2_pos_gt.
Qed.

(** A number below [2 ^ k] has at most [k] digits. *)
Lemma Zdigits2_le (m k : Z) : 0 <= k -> Z.abs m < 2 ^ k -> Zdigits2 m <= k.
Proof.
  intros Hk Hm.
  destruct (Z.le_gt_cases (Zdigits2 m) k) as [|Hgt]; [assumption|exfalso].
  assert (Hp : 2 ^ Zdigits2 m <= 2 * Z.abs m).
  { destruct m; simpl in *; [lia| |]; apply digits2_pos_le. }
  assert (Hpow : 2 ^ (k + 1) <= 2 ^ Zdigits2 m)
    by (apply Z.pow_le_mono_r; lia).
  replace (k + 1) with (Z.succ k) in Hpow by lia.
  rewrite Z.pow_succ_r in Hpow by lia. lia.
Qed.

Lemma Zdigits2_pos (p : positive) : Zdigits2 (Z.pos p) = Z.pos (digits2_pos p).
Proof. reflexivity. Qed.

Lemma pow2_pos (k : Z) : 0 <= k -> 0 < 2 ^ k.
Proof. intros. apply Z.pow_pos_nonneg; lia. Qed.

Lemma pow2_le (a b : Z) : 0 <= a <= b -> 2 ^ a <= 2 ^ b.
Proof. intros. apply Z.pow_le_mono_r; lia. Qed.

(** ** Shifting right *)

Lemma shr_1_bound (mrs : shr_record) :
  0 <= shr_m mrs ->
  0 <= shr_m (shr_1 mrs)
  /\ Zdigits2 (shr_m (shr_1 mrs)) <= Z.max 0 (Zdigits2 (shr_m mrs) - 1).
Proof.
  destruct mrs as [m r s]. cbn [shr_m].
  destruct m as [|p|p]; [cbn; lia| |lia].
  destruct p; cbn [shr_1 shr_m Zdigits2 digits2_pos];
    rewrite ?Pos2Z.inj_succ; lia.
Qed.

Lemma iter_shr_1_bound (p : positive) :
  forall mrs : shr_record,
    0 <= shr_m mrs ->
    0 <= shr_m (iter_pos shr_1 p mrs)
    /\ Zdigits2 (shr_m (iter_pos shr_1 p mrs))
       <= Z.max 0 (Zdigits2 (shr_m mrs) - Z.pos p).
Proof.
  induction p as [p IH|p IH|]; intros mrs Hm; simpl.
  - destruct (shr_1_bound mrs Hm) as [H1 D1].
    destruct (IH _ H1) as [H2 D2]. destruct (IH _ H2) as [H3 D3].
    split; [assumption|lia].
  - destruct (IH _ Hm) as [H2 D2]. destruct (IH _ H2) as [H3 D3].
    split; [assumption|lia].
  - apply shr_1_bound; assumption.
Qed.

Lemma shr_m_of_loc (m : Z) (l : location) : shr_m (shr_record_of_loc m l) = m.
Proof. destruct l as [|[]]; reflexivity. Qed.

Lemma shr_fexp_bound (m e : Z) (l : location) (B : Z) :
  0 <= m -> Zdigits2 m + e <= B -> e <= B -> -1074 <= B ->
  0 <= shr_m (fst (shr_fexp prec emax m e l))
  /\ Zdigits2 (shr_m (fst (shr_fexp prec emax m e l))) + snd (shr_fexp prec emax m e l) <= B
  /\ snd (shr_fexp prec emax m e l) <= B.
Proof.
  intros Hm Hd He HB. unfold shr_fexp, shr.
  assert (Hf : fexp prec emax (Zdigits2 m + e) <= B).
  { unfold fexp, SpecFloat.emin, prec, emax. lia. }
  destruct (fexp prec emax (Zdigits2 m + e) - e) as [|n|n] eqn:En; simpl;
    rewrite ?shr_m_of_loc; try lia.
  destruct (iter_shr_1_bound n (shr_record_of_loc m l)) as [H1 D1];
    rewrite ?shr_m_of_loc in *; [assumption|].
  split; [assumption|]. lia.
Qed.

Lemma round_nearest_even_bound (m : Z) (l : location) :
  0 <= m ->
  0 <= round_nearest_even m l
  /\ Zdigits2 (round_nearest_even m l) <= Zdigits2 m + 1.
Proof.
  intros Hm.
  assert (H1 : Zdigits2 (m + 1) <= Zdigits2 m + 1).
  { pose proof (Zdigits2_gt m) as Hg. pose proof (Zdigits2_nonneg m) as Hn.
    apply Zdigits2_le; [lia|].
    replace (Zdigits2 m + 1) with (Z.succ (Zdigits2 m)) by lia.
    rewrite Z.pow_succ_r by lia. lia. }
  unfold round_nearest_even.
  destruct l as [|[]]; try destruct (Z.even m); split; try lia.
Qed.

Lemma binary_round_aux_bound (s : bool) (m e : Z) (l : location) (B : Z) :
  0 <= m -> Zdigits2 m + e <= B -> e <= B -> -1074 <= B -> B <= 971 ->
  rounded s (B + 1) (binary_round_aux prec emax s m e l).
Proof.
  intros Hm Hd He HB1 HB2. unfold binary_round_aux.
  destruct (shr_fexp_bound m e l B Hm Hd He HB1) as (H1 & D1 & E1).
  destruct (shr_fexp prec emax m e l) as [mrs' e']. simpl in H1, D1, E1.
  destruct (round_nearest_even_bound (shr_m mrs') (loc_of_shr_record mrs') H1)
    as [H2 D2].
  destruct (shr_fexp_bound (round_nearest_even (shr_m mrs') (loc_of_shr_record mrs'))
              e' loc_Exact (B + 1) H2) as (H3 & D3 & E3); try lia.
  destruct (shr_fexp prec emax _ e' loc_Exact) as [mrs'' e'']. simpl in H3, D3, E3.
  destruct (shr_m mrs'') as [|p|p] eqn:Em; [reflexivity| |lia].
  cbn [Zdigits2] in D3.
  destruct (Z.leb_spec e'' (emax - prec)) as [Hl|Hl]; cbn [rounded].
  - split; [reflexivity|lia].
  - unfold emax, prec in Hl. lia.
Qed.

(** ** Shifting left *)

Lemma digits2_pos_iter_xO (m d : positive) :
  Z.pos (digits2_pos (Pos.iter xO m d)) = Z.pos (digits2_pos m) + Z.pos d.
Proof.
  induction d as [|d IH] using Pos.peano_ind.
  - simpl. rewrite Pos2Z.inj_succ. lia.
  - rewrite Pos.iter_succ. cbn [digits2_pos].
    rewrite !Pos2Z.inj_succ, IH. lia.
Qed.

Lemma shl_align_bound (m : positive) (e e' : Z) :
  Z.pos (digits2_pos (fst (shl_align m e e'))) + snd (shl_align m e e')
  = Z.pos (digits2_pos m) + e
  /\ snd (shl_align m e e') <= e
  /\ (e' <= e -> snd (shl_align m e e') = e').
Proof.
  unfold shl_align.
  destruct (e' - e) as [|d|d] eqn:Ed; cbn [fst snd]; try lia.
  rewrite digits2_pos_iter_xO. lia.
Qed.

Lemma binary_round_bound (s : bool) (m : positive) (e B : Z) :
  Z.pos (digits2_pos m) + e <= B -> -1074 <= B -> B <= 971 ->
  rounded s (B + 1) (binary_round prec emax s m e).
Proof.
  intros Hd HB1 HB2. unfold binary_round.
  destruct (shl_align_bound m e (fexp prec emax (Z.pos (digits2_pos m) + e)))
    as (D & E & _).
  destruct (shl_align m e _) as [mz ez]. cbn [fst snd] in D, E.
  apply binary_round_aux_bound; cbn [Zdigits2]; lia.
Qed.

Lemma rounded_bounded (s : bool) (B : Z) (x : spec_float) :
  rounded s B x -> bounded_by B x.
Proof. destruct x; simpl; tauto. Qed.

Lemma rounded_nonneg_bounded (B : Z) (x : spec_float) :
  rounded false B x -> nonneg_bounded_by B x.
Proof. destruct x as [| | |[] m e]; simpl; intuition congruence. Qed.

Lemma binary_normalize_bound (m e B : Z) :
  Zdigits2 m + e <= B -> -1074 <= B -> B <= 971 ->
  bounded_by (B + 1) (binary_normalize prec emax m e false)
  /\ (0 <= m -> nonneg_bounded_by (B + 1) (binary_normalize prec emax m e false)).
Proof.
  intros Hd HB1 HB2. destruct m as [|p|p]; cbn [binary_normalize Zdigits2] in *.
  - split; simpl; auto.
  - split; [eapply rounded_bounded|intros _; apply rounded_nonneg_bounded];
      apply binary_round_bound; lia.
  - split; [eapply rounded_bounded; apply binary_round_bound; lia|lia].
Qed.

Lemma Zdigits2_sum (a b : Z) (D : Z) :
  Zdigits2 a <= D -> Zdigits2 b <= D -> Zdigits2 (a + b) <= D + 1.
Proof.
  intros Ha Hb.
  pose proof (Zdigits2_gt a) as Ga. pose proof (Zdigits2_gt b) as Gb.
  pose proof (Zdigits2_nonneg a) as Na. pose proof (Zdigits2_nonneg b) as Nb.
  pose proof (pow2_le (Zdigits2 a) D) as Pa.
  pose proof (pow2_le (Zdigits2 b) D) as Pb.
  apply Zdigits2_le; [lia|].
  replace (D + 1) with (Z.succ D) by lia.
  rewrite Z.pow_succ_r by lia. lia.
Qed.

Lemma Zdigits2_opp (a : Z) : Zdigits2 (- a) = Zdigits2 a.
Proof. destruct a; reflexivity. Qed.

Lemma Zdigits2_cond_Zopp (s : bool) (a : Z) : Zdigits2 (cond_Zopp s a) = Zdigits2 a.
Proof. destruct s; simpl; [apply Zdigits2_opp|reflexivity]. Qed.

(** The aligned mantissas of a sum or difference. *)
Lemma aligned_digits (mx : positive) (ex : Z) (my : positive) (ey : Z) (B : Z) :
  Z.pos (digits2_pos mx) + ex <= B ->
  Z.pos (digits2_pos my) + ey <= B ->
  Z.pos (digits2_pos (fst (shl_align mx ex (Z.min ex ey)))) + Z.min ex ey <= B
  /\ Z.pos (digits2_pos (fst (shl_align my ey (Z.min ex ey)))) + Z.min ex ey <= B.
Proof.
  intros Hx Hy.
  destruct (shl_align_bound mx ex (Z.min ex ey)) as (Dx & _ & Ex).
  destruct (shl_align_bound my ey (Z.min ex ey)) as (Dy & _ & Ey).
  rewrite Ex in Dx by lia. rewrite Ey in Dy by lia. lia.
Qed.

Lemma SF64sub_bound (x y : spec_float) (B : Z) :
  bounded_by B x -> bounded_by B y -> -1075 <= B -> B <= 970 ->
  bounded_by (B + 2) (SF64sub x y).
Proof.
  intros Hx Hy HB1 HB2.
  destruct x as [sx|sx| |sx mx ex], y as [sy|sy| |sy my ey];
    try contradiction; cbn [bounded_by] in Hx, Hy.
  - destruct sx, sy; exact I.
  - unfold SF64sub, SFsub; cbn [bounded_by]; lia.
  - unfold SF64sub, SFsub; cbn [bounded_by]; lia.
  - unfold SF64sub, SFsub.
    destruct (aligned_digits mx ex my ey B Hx Hy) as [Dx Dy].
    replace (B + 2) with (B + 1 + 1) by lia.
    apply binary_normalize_bound; try lia.
    unfold Z.sub at 1.
    assert (Zdigits2 (cond_Zopp sx (Z.pos (fst (shl_align mx ex (Z.min ex ey))))
                      + - cond_Zopp sy (Z.pos (fst (shl_align my ey (Z.min ex ey)))))
            <= (B - Z.min ex ey) + 1); [|lia].
    apply Zdigits2_sum;
      rewrite ?Zdigits2_opp, Zdigits2_cond_Zopp; cbn [Zdigits2]; lia.
Qed.

Lemma SF64add_bound (x y : spec_float) (B : Z) :
  nonneg_bounded_by B x -> nonneg_bounded_by B y -> -1075 <= B -> B <= 970 ->
  nonneg_bounded_by (B + 2) (SF64add x y).
Proof.
  intros Hx Hy HB1 HB2.
  destruct x as [sx|sx| |[] mx ex], y as [sy|sy| |[] my ey];
    try contradiction; cbn [nonneg_bounded_by] in Hx, Hy.
  - destruct sx, sy; exact I.
  - unfold SF64add, SFadd; cbn [nonneg_bounded_by]; lia.
  - unfold SF64add, SFadd; cbn [nonneg_bounded_by]; lia.
  - unfold SF64add, SFadd.
    destruct (aligned_digits mx ex my ey B Hx Hy) as [Dx Dy].
    replace (B + 2) with (B + 1 + 1) by lia.
    apply binary_normalize_bound; try lia.
    + assert (Zdigits2 (cond_Zopp false (Z.pos (fst (shl_align mx ex (Z.min ex ey))))
                        + cond_Zopp false (Z.pos (fst (shl_align my ey (Z.min ex ey)))))
              <= (B - Z.min ex ey) + 1); [|lia].
      apply Zdigits2_sum; rewrite Zdigits2_cond_Zopp; cbn [Zdigits2]; lia.
    + cbn [cond_Zopp]. lia.
Qed.

Lemma digits2_pos_mul (a b : positive) :
  Z.pos (digits2_pos (a * b)) <= Z.pos (digits2_pos a) + Z.pos (digits2_pos b).
Proof.
  pose proof (digits2_pos_gt a) as Ga. pose proof (digits2_pos_gt b) as Gb.
  change (Zdigits2 (Z.pos (a * b)) <= Z.pos (digits2_pos a) + Z.pos (digits2_pos b)).
  apply Zdigits2_le; [lia|].
  rewrite Z.pow_add_r by lia. rewrite Pos2Z.inj_mul.
  rewrite Z.abs_eq by lia. nia.
Qed.

Lemma SF64mul_square_bound (x : spec_float) (B : Z) :
  bounded_by B x -> -537 <= B -> B <= 485 ->
  nonneg_bounded_by (2 * B + 1) (SF64mul x x).
Proof.
  intros Hx HB1 HB2.
  destruct x as [sx|sx| |sx mx ex]; try contradiction; cbn [bounded_by] in Hx.
  - exact I.
  - unfold SF64mul, SFmul. rewrite xorb_nilpotent.
    apply rounded_nonneg_bounded.
    pose proof (digits2_pos_mul mx mx) as Hm.
    apply binary_round_aux_bound; cbn [Zdigits2]; lia.
Qed.

(** ** Square root *)

Lemma sqrt_digits (m' q r D : Z) :
  0 <= D -> 0 <= m' < 2 ^ D -> m' = q * q + r -> 0 <= r <= 2 * q ->
  0 <= q /\ Zdigits2 q <= (D + 1) / 2.
Proof.
  intros HD Hm Hq Hr.
  assert (Hq0 : 0 <= q) by lia.
  split; [assumption|].
  assert (Hk : 0 <= (D + 1) / 2) by (apply Z.div_pos; lia).
  apply Zdigits2_le; [assumption|].
  rewrite Z.abs_eq by assumption.
  destruct (Z.lt_ge_cases q (2 ^ ((D + 1) / 2))) as [|Hge]; [assumption|exfalso].
  assert (Hpp : 2 ^ D <= 2 ^ ((D + 1) / 2) * 2 ^ ((D + 1) / 2)).
  { rewrite <- Z.pow_add_r by assumption. apply pow2_le.
    pose proof (Z.div_mod (D + 1) 2 ltac:(lia)) as Hdm.
    pose proof (Z.mod_pos_bound (D + 1) 2 ltac:(lia)). lia. }
  pose proof (pow2_pos ((D + 1) / 2) Hk) as Hpos.
  nia.
Qed.

Lemma SFsqrt_core_binary_bound (m : positive) (e B : Z) :
  Z.pos (digits2_pos m) + e <= B -> 0 <= B ->
  let '(q, e', l) := SFsqrt_core_binary prec emax (Z.pos m) e in
  0 <= q /\ Zdigits2 q + e' <= B /\ e' <= B.
Proof.
  intros Hd HB. unfold SFsqrt_core_binary. cbn [Zdigits2].
  set (d := Z.pos (digits2_pos m)) in *.
  set (e' := Z.min (fexp prec emax (Z.div2 (d + e + 1))) (Z.div2 e)).
  assert (He' : 2 * e' <= e /\ e' <= Z.div2 e).
  { pose proof (Z.div2_odd e) as Ho. unfold e'.
    destruct (Z.odd e); cbn [Z.b2z] in Ho; lia. }
  assert (HeB : e' <= B).
  { pose proof (Z.div2_odd e) as Ho. unfold d in Hd.
    destruct (Z.odd e); cbn [Z.b2z] in Ho; lia. }
  set (s := e - 2 * e').
  assert (Hs : 0 <= s) by (unfold s; lia).
  set (m' := match s with
             | Z.pos _ => Z.shiftl (Z.pos m) s
             | 0 => Z.pos m
             | Z.neg _ => 0
             end).
  assert (Hm' : 0 <= m' < 2 ^ (d + s)).
  { pose proof (digits2_pos_gt m) as Hg. fold d in Hg.
    pose proof (pow2_pos s Hs) as Hp.
    assert (Em : m' = Z.pos m * 2 ^ s).
    { unfold m'. destruct s as [|p|p] eqn:Es; [simpl; lia| |lia].
      now rewrite Z.shiftl_mul_pow2 by lia. }
    rewrite Em, Z.pow_add_r by lia. nia. }
  pose proof (Z.sqrtrem_spec m' (proj1 Hm')) as Hsq.
  destruct (Z.sqrtrem m') as [q r].
  destruct Hsq as [Hq Hr].
  destruct (sqrt_digits m' q r (d + s) ltac:(lia) Hm' Hq Hr) as [Hq0 Hdq].
  split; [assumption|]. split; [|assumption].
  assert ((d + s + 1) / 2 + e' <= B); [|lia].
  pose proof (Z.div_mod (d + s + 1) 2 ltac:(lia)) as Hdm.
  pose proof (Z.mod_pos_bound (d + s + 1) 2 ltac:(lia)). unfold s in *. lia.
Qed.

Lemma SF64sqrt_bound (x : spec_float) (B : Z) :
  nonneg_bounded_by B x -> 0 <= B -> B <= 971 ->
  nonneg_bounded_by (B + 1) (SF64sqrt x).
Proof.
  intros Hx HB1 HB2.
  destruct x as [sx|sx| |[] mx ex]; try contradiction; cbn [nonneg_bounded_by] in Hx.
  - exact I.
  - unfold SF64sqrt, SFsqrt.
    pose proof (SFsqrt_core_binary_bound mx ex B Hx HB1) as H.
    destruct (SFsqrt_core_binary prec emax (Z.pos mx) ex) as [[q e'] l].
    destruct H as (Hq & Hd & He).
    apply rounded_nonneg_bounded. apply binary_round_aux_bound; lia.
Qed.

(** ** The order of numbers that are not negative *)

Lemma SFltb_infinity (x : spec_float) (B : Z) :
  nonneg_bounded_by B x -> SFltb x (S754_infinity false) = true.
Proof. destruct x as [s|s| |[] m e]; simpl; intros H; try contradiction; reflexivity. Qed.

Lemma SFltb_nonneg_cotrans (x y z : spec_float) (Bx By Bz : Z) :
  nonneg_bounded_by Bx x -> nonneg_bounded_by By y -> nonneg_bounded_by Bz z ->
  SFltb x y = true -> SFltb z y = false -> SFltb x z = true.
Proof.
  destruct x as [sx|sx| |[] mx ex], y as [sy|sy| |[] my ey], z as [sz|sz| |[] mz ez];
    simpl; try contradiction; intros _ _ _; unfold SFltb, SFcompare;
    try discriminate; try reflexivity.
  change (Pos.compare_cont Eq mx my) with (Pos.compare mx my).
  change (Pos.compare_cont Eq mz my) with (Pos.compare mz my).
  change (Pos.compare_cont Eq mx mz) with (Pos.compare mx mz).
  destruct (Z.compare_spec ex ey), (Z.compare_spec ez ey), (Z.compare_spec ex ez);
    try discriminate; try reflexivity; try lia;
    destruct (Pos.compare_spec mx my), (Pos.compare_spec mz my),
      (Pos.compare_spec mx mz);
    try discriminate; try reflexivity; try lia.
Qed.

Lemma SFltb_nonneg_asym (x y : spec_float) (Bx By : Z) :
  nonneg_bounded_by Bx x -> nonneg_bounded_by By y ->
  SFltb x y = true -> SFltb y x = false.
Proof.
  destruct x as [sx|sx| |[] mx ex], y as [sy|sy| |[] my ey];
    simpl; try contradiction; intros _ _; unfold SFltb, SFcompare;
    try discriminate; try reflexivity.
  change (Pos.compare_cont Eq mx my) with (Pos.compare mx my).
  change (Pos.compare_cont Eq my mx) with (Pos.compare my mx).
  destruct (Z.compare_spec ex ey), (Z.compare_spec ey ex);
    try discriminate; try reflexivity; try lia;
    destruct (Pos.compare_spec mx my), (Pos.compare_spec my mx);
    try discriminate; try reflexivity; try lia.
Qed.

Lemma SFeqb_nonneg_refl (x : spec_float) (B : Z) :
  nonneg_bounded_by B x -> SFeqb x x = true.
Proof.
  destruct x as [s|s| |[] m e]; simpl; try contradiction; intros _;
    unfold SFeqb, SFcompare; [reflexivity|].
  rewrite Z.compare_refl.
  change (Pos.compare_cont Eq m m) with (Pos.compare m m).
  now rewrite Pos.compare_refl.
Qed.

End Magnitude.

(** ** Rounding does not lose a number that is not zero *)

Section NoUnderflow.
Local Open Scope Z_scope.

Lemma shr_1_digits_ge (mrs : shr_record) :
  0 <= shr_m mrs -> Zdigits2 (shr_m mrs) - 1 <= Zdigits2 (shr_m (shr_1 mrs)).
Proof.
  destruct mrs as [m r s]. cbn [shr_m].
  destruct m as [|p|p]; [cbn; lia| |lia].
  destruct p; cbn [shr_1 shr_m Zdigits2 digits2_pos];
    rewrite ?Pos2Z.inj_succ; lia.
Qed.

Lemma iter_shr_1_digits_ge (p : positive) :
  forall mrs : shr_record,
    0 <= shr_m mrs ->
    Zdigits2 (shr_m mrs) - Z.pos p <= Zdigits2 (shr_m (iter_pos shr_1 p mrs)).
Proof.
  induction p as [p IH|p IH|]; intros mrs Hm; cbn [iter_pos].
  - pose proof (shr_1_digits_ge mrs Hm) as D1.
    destruct (shr_1_bound mrs Hm) as [H1 _].
    pose proof (IH _ H1) as D2.
    destruct (iter_shr_1_bound p _ H1) as [H2 _].
    pose proof (IH _ H2) as D3. lia.
  - pose proof (IH _ Hm) as D2.
    destruct (iter_shr_1_bound p _ Hm) as [H2 _].
    pose proof (IH _ H2) as D3. lia.
  - apply shr_1_digits_ge; assumption.
Qed.

Lemma Zdigits2_pos_iff (m : Z) : 0 <= m -> (0 < m <-> 0 < Zdigits2 m).
Proof. destruct m; cbn; lia. Qed.

Lemma shr_fexp_positive (m e : Z) (l : location) :
  0 < m -> -1074 <= e ->
  0 < shr_m (fst (shr_fexp prec emax m e l))
  /\ -1074 <= snd (shr_fexp prec emax m e l).
Proof.
  intros Hm He. unfold shr_fexp, shr.
  destruct (fexp prec emax (Zdigits2 m + e) - e) as [|n|n] eqn:En;
    cbn [fst snd]; rewrite ?shr_m_of_loc; try lia.
  unfold fexp, SpecFloat.emin, prec, emax in En.
  pose proof (iter_shr_1_digits_ge n (shr_record_of_loc m l)) as D.
  destruct (iter_shr_1_bound n (shr_record_of_loc m l)) as [H1 _];
    rewrite ?shr_m_of_loc in *; [lia|].
  specialize (D ltac:(lia)).
  split; [|lia]. apply Zdigits2_pos_iff; [assumption|]. lia.
Qed.

Lemma round_nearest_even_positive (m : Z) (l : location) :
  0 < m -> 0 < round_nearest_even m l.
Proof.
  intros Hm. unfold round_nearest_even.
  destruct l as [|[]]; try destruct (Z.even m); lia.
Qed.

Lemma binary_round_aux_nonzero (s : bool) (m e : Z) (l : location) :
  0 < m -> -1074 <= e ->
  match binary_round_aux prec emax s m e l with
  | S754_zero _ | S754_nan => False
  | _ => True
  end.
Proof.
  intros Hm He. unfold binary_round_aux.
  destruct (shr_fexp_positive m e l Hm He) as [H1 E1].
  destruct (shr_fexp prec emax m e l) as [mrs' e']. cbn [fst snd] in H1, E1.
  pose proof (round_nearest_even_positive (shr_m mrs') (loc_of_shr_record mrs') H1)
    as H2.
  destruct (shr_fexp_positive _ e' loc_Exact H2 E1) as [H3 _].
  destruct (shr_fexp prec emax _ e' loc_Exact) as [mrs'' e'']. cbn [fst] in H3.
  destruct (shr_m mrs'') as [|p|p]; [lia| |lia].
  destruct (e'' <=? emax - prec); exact I.
Qed.

Lemma binary_normalize_zero (m e : Z) (s : bool) :
  -1074 <= e -> binary_normalize prec emax m e false = S754_zero s -> m = 0.
Proof.
  intros He. destruct m as [|p|p]; [reflexivity| |];
    cbn [binary_normalize]; unfold binary_round; intros H; exfalso.
  - destruct (shl_align_bound p e (fexp prec emax (Z.pos (digits2_pos p) + e)))
      as (_ & _ & _).
    pose proof (binary_round_aux_nonzero false
                  (Z.pos (fst (shl_align p e (fexp prec emax (Z.pos (digits2_pos p) + e)))))
                  (snd (shl_align p e (fexp prec emax (Z.pos (digits2_pos p) + e))))
                  loc_Exact ltac:(lia)) as Hnz.
    destruct (shl_align p e _) as [mz ez] eqn:Es. cbn [fst snd] in Hnz.
    rewrite H in Hnz. apply Hnz.
    unfold shl_align in Es.
    destruct (fexp prec emax (Z.pos (digits2_pos p) + e) - e) eqn:Ed;
      inversion Es; subst; try lia.
    unfold fexp, SpecFloat.emin, prec, emax. lia.
  - pose proof (binary_round_aux_nonzero true
                  (Z.pos (fst (shl_align p e (fexp prec emax (Z.pos (digits2_pos p) + e)))))
                  (snd (shl_align p e (fexp prec emax (Z.pos (digits2_pos p) + e))))
                  loc_Exact ltac:(lia)) as Hnz.
    destruct (shl_align p e _) as [mz ez] eqn:Es. cbn [fst snd] in Hnz.
    rewrite H in Hnz. apply Hnz.
    unfold shl_align in Es.
    destruct (fexp prec emax (Z.pos (digits2_pos p) + e) - e) eqn:Ed;
      inversion Es; subst; try lia.
    unfold fexp, SpecFloat.emin, prec, emax. lia.
Qed.

(** The exponent of a valid finite number. *)
Lemma valid_finite_exponent (s : bool) (m : positive) (e : Z) :
  valid_binary (S754_finite s m e) = true ->
  -1074 <= e /\ fexp prec emax (Z.pos (digits2_pos m) + e) = e.
Proof.
  cbn [SpecFloat.valid_binary]. unfold bounded, canonical_mantissa. intros H.
  apply andb_true_iff in H. destruct H as [H _]. apply Z.eqb_eq in H.
  split; [|exact H].
  unfold fexp, SpecFloat.emin, prec, emax in H. lia.
Qed.

(** A difference of valid finite numbers is zero only for equal numbers. *)
Lemma SF64sub_zero_eq (x y : spec_float) (B : Z) (s : bool) :
  valid_binary x = true -> valid_binary y = true ->
  bounded_by B x -> bounded_by B y ->
  SF64sub x y = S754_zero s -> SFeqb x y = true.
Proof.
  intros Vx Vy Hx Hy.
  destruct x as [sx|sx| |sx mx ex], y as [sy|sy| |sy my ey];
    try contradiction; unfold SF64sub, SFsub, SFeqb, SFcompare.
  - reflexivity.
  - discriminate.
  - discriminate.
  - destruct (valid_finite_exponent _ _ _ Vx) as [Ex Cx].
    destruct (valid_finite_exponent _ _ _ Vy) as [Ey Cy].
    intros H. apply binary_normalize_zero in H; [|lia].
    destruct (shl_align_bound mx ex (Z.min ex ey)) as (Dx & _ & Sx).
    destruct (shl_align_bound my ey (Z.min ex ey)) as (Dy & _ & Sy).
    specialize (Sx ltac:(lia)). specialize (Sy ltac:(lia)).
    rewrite Sx in Dx. rewrite Sy in Dy.
    assert (Hs : sx = sy /\ fst (shl_align mx ex (Z.min ex ey))
                           = fst (shl_align my ey (Z.min ex ey))).
    { destruct sx, sy; cbn [cond_Zopp] in H; split; try reflexivity; try lia;
        assert (E : Z.pos (fst (shl_align mx ex (Z.min ex ey)))
                    = Z.pos (fst (shl_align my ey (Z.min ex ey)))) by lia;
        now inversion E. }
    destruct Hs as [<- HX]. rewrite HX in Dx.
    assert (Hee : ex = ey) by (rewrite <- Cx, <- Cy; f_equal; lia).
    subst ey. rewrite Z.min_id in HX.
    unfold shl_align in HX. rewrite Z.sub_diag in HX. cbn [fst] in HX. subst my.
    rewrite Z.compare_refl.
    change (Pos.compare_cont Eq mx mx) with (Pos.compare mx mx).
    rewrite Pos.compare_refl. now destruct sx.
Qed.

(** A sum of two valid numbers that are not negative is zero only when
    both are zero. *)
Lemma SF64add_zero_inv (x y : spec_float) (B : Z) (s : bool) :
  valid_binary x = true -> valid_binary y = true ->
  nonneg_bounded_by B x -> nonneg_bounded_by B y ->
  SF64add x y = S754_zero s ->
  (exists sx, x = S754_zero sx) /\ (exists sy, y = S754_zero sy).
Proof.
  intros Vx Vy Hx Hy.
  destruct x as [sx|sx| |[] mx ex], y as [sy|sy| |[] my ey];
    try contradiction; unfold SF64add, SFadd.
  - intros _. split; eexists; reflexivity.
  - discriminate.
  - discriminate.
  - destruct (valid_finite_exponent _ _ _ Vx) as [Ex _].
    destruct (valid_finite_exponent _ _ _ Vy) as [Ey _].
    intros H. apply binary_normalize_zero in H; [|lia].
    cbn [cond_Zopp] in H. lia.
Qed.

End NoUnderflow.

Lemma SFeqb_sym (x y : spec_float) : SFeqb x y = SFeqb y x.
Proof.
  unfold SFeqb, SFcompare.
  destruct x as [sx|sx| |sx mx ex], y as [sy|sy| |sy my ey];
    try destruct sx; try destruct sy; try reflexivity;
    rewrite (Z.compare_antisym ex ey);
    change (Pos.compare_cont Eq mx my) with (Pos.compare mx my);
    change (Pos.compare_cont Eq my mx) with (Pos.compare my mx);
    rewrite (Pos.compare_antisym mx my);
    destruct (Z.compare ex ey); cbn [CompOpp]; try reflexivity;
    destruct (Pos.compare mx my); reflexivity.
Qed.

Lemma eqb_sym (a b : float) : (a =? b)%float = (b =? a)%float.
Proof. rewrite !eqb_spec. apply SFeqb_sym. Qed.

Lemma leb_zero_nonneg (a : float) (B : Z) :
  nonneg_bounded_by B (Prim2SF a) -> (0 <=? a)%float = true.
Proof.
  rewrite leb_spec. change (Prim2SF 0) with (S754_zero false).
  destruct (Prim2SF a) as [s|s| |[] m e]; cbn; intros H; try contradiction;
    reflexivity.
Qed.

(* ================================================================== *)
(** * Distances                                                        *)
(* ================================================================== *)

Lemma in_range_bounded (v : float) :
  Position.in_range v = true -> bounded_by 10 (Prim2SF v).
Proof.
  unfold Position.in_range. rewrite andb_true_iff, !leb_spec.
  pose proof (Prim2SF_valid v) as Hv.
  change (Prim2SF 1000) with (S754_finite false 8796093022208000 (-43)).
  change (Prim2SF (-1000)) with (S754_finite true 8796093022208000 (-43)).
  destruct (Prim2SF v) as [s|s| |s m e]; intros [Hlo Hhi].
  - exact I.
  - destruct s; discriminate.
  - discriminate.
  - cbn [bounded_by]. cbn [valid_binary] in Hv.
    unfold bounded, canonical_mantissa in Hv.
    apply andb_true_iff in Hv. destruct Hv as [Hc _].
    apply Z.eqb_eq in Hc. unfold fexp, SpecFloat.emin, prec, emax in Hc.
    assert (He : (e <= -43)%Z).
    { unfold SFleb, SFcompare in Hlo, Hhi.
      destruct s.
      - destruct (Z.compare_spec (-43) e); try lia; discriminate.
      - destruct (Z.compare_spec e (-43)); try lia; discriminate. }
    lia.
Qed.

(** Coordinates that are equal for [==] have a zero difference. *)
Lemma sub_eqb_zero (a b : float) :
  Position.in_range a = true -> Position.in_range b = true ->
  (a =? b)%float = true ->
  exists s, Prim2SF (a - b) = S754_zero s.
Proof.
  intros Ha Hb. apply in_range_bounded in Ha, Hb.
  rewrite eqb_spec, sub_spec.
  destruct (Prim2SF a) as [sa|sa| |sa ma ea], (Prim2SF b) as [sb|sb| |sb mb eb];
    try contradiction; unfold SFeqb, SFcompare.
  - intros _. destruct sa, sb; eexists; reflexivity.
  - destruct sb; discriminate.
  - destruct sa; discriminate.
  - intros H. exists false.
    assert (E : sa = sb /\ ea = eb /\ ma = mb).
    { change (Pos.compare_cont Eq ma mb) with (Pos.compare ma mb) in H.
      destruct sa, sb; try discriminate;
        destruct (Z.compare_spec ea eb); try discriminate;
        destruct (Pos.compare_spec ma mb); try discriminate; auto. }
    destruct E as (-> & -> & ->).
    unfold SF64sub, SFsub. now rewrite Z.sub_diag.
Qed.

(** ** [calculate_distance]: the correctly rounded formula *)

(** The distance between two valid positions is a finite number that is
    not negative. *)
Lemma calculate_distance_bounded (p q : Position.t) :
  Position.valid p = true -> Position.valid q = true ->
  nonneg_bounded_by 28 (Prim2SF (LocationUtils.calculate_distance p q)).
Proof.
  unfold Position.valid. rewrite !andb_true_iff. intros [Hpx Hpy] [Hqx Hqy].
  apply in_range_bounded in Hpx, Hpy, Hqx, Hqy.
  cbv beta zeta delta [LocationUtils.calculate_distance].
  rewrite sqrt_spec, add_spec, !mul_spec, !sub_spec.
  apply (SF64sqrt_bound _ 27); [|lia|lia].
  apply (SF64add_bound _ _ 25); [| |lia|lia].
  - apply (SF64mul_square_bound _ 12); [|lia|lia].
    apply (SF64sub_bound _ _ 10); auto; lia.
  - apply (SF64mul_square_bound _ 12); [|lia|lia].
    apply (SF64sub_bound _ _ 10); auto; lia.
Qed.

Lemma calculate_distance_sym (p q : Position.t) :
  LocationUtils.calculate_distance p q = LocationUtils.calculate_distance q p.
Proof.
  cbv beta zeta delta [LocationUtils.calculate_distance].
  now rewrite (sub_square_sym (Position.x q)), (sub_square_sym (Position.y q)).
Qed.

Lemma calculate_distance_equal_coordinates (p q : Position.t) :
  Position.valid p = true -> Position.valid q = true ->
  (Position.x p =? Position.x q)%float = true ->
  (Position.y p =? Position.y q)%float = true ->
  LocationUtils.calculate_distance p q = 0%float.
Proof.
  unfold Position.valid. rewrite !andb_true_iff. intros [Hpx Hpy] [Hqx Hqy] Ex Ey.
  rewrite eqb_sym in Ex, Ey.
  destruct (sub_eqb_zero _ _ Hqx Hpx Ex) as [sx Hx].
  destruct (sub_eqb_zero _ _ Hqy Hpy Ey) as [sy Hy].
  apply Prim2SF_inj. cbv beta zeta delta [LocationUtils.calculate_distance].
  rewrite sqrt_spec, add_spec, !mul_spec, Hx, Hy.
  destruct sx, sy; reflexivity.
Qed.

(** ** The order of distances *)

Lemma ltb_infinity (a : float) (B : Z) :
  nonneg_bounded_by B (Prim2SF a) -> (a <? infinity)%float = true.
Proof. rewrite ltb_spec. apply SFltb_infinity. Qed.

Lemma ltb_cotrans (a b c : float) (Ba Bb Bc : Z) :
  nonneg_bounded_by Ba (Prim2SF a) -> nonneg_bounded_by Bb (Prim2SF b) ->
  nonneg_bounded_by Bc (Prim2SF c) ->
  (a <? b)%float = true -> (c <? b)%float = false -> (a <? c)%float = true.
Proof. rewrite !ltb_spec. apply SFltb_nonneg_cotrans. Qed.

Lemma ltb_asym (a b : float) (Ba Bb : Z) :
  nonneg_bounded_by Ba (Prim2SF a) -> nonneg_bounded_by Bb (Prim2SF b) ->
  (a <? b)%float = true -> (b <? a)%float = false.
Proof. rewrite !ltb_spec. apply SFltb_nonneg_asym. Qed.

Lemma eqb_refl_nonneg (a : float) (B : Z) :
  nonneg_bounded_by B (Prim2SF a) -> (a =? a)%float = true.
Proof. rewrite eqb_spec. apply SFeqb_nonneg_refl. Qed.

(* ================================================================== *)
(** * Powers through the C library                                     *)
(* ================================================================== *)

(** ** The neighbours of a number *)

Section Neighbours.
Local Open Scope Z_scope.

Lemma nonneg_bounded_by_le (B B' : Z) (x : spec_float) :
  nonneg_bounded_by B x -> B <= B' -> nonneg_bounded_by B' x.
Proof. destruct x as [s|s| |[] m e]; cbn; intros; auto; lia. Qed.

Lemma nonneg_bounded_bounded (B : Z) (x : spec_float) :
  nonneg_bounded_by B x -> bounded_by B x.
Proof. destruct x as [s|s| |[] m e]; cbn; intros; auto; contradiction. Qed.

Lemma bounded_by_opp (B : Z) (x : spec_float) :
  bounded_by B x -> bounded_by B (SFopp x).
Proof. destruct x; cbn; auto. Qed.

Lemma nonneg_bounded_number (B : Z) (x : spec_float) :
  nonneg_bounded_by B x -> nonneg_number x.
Proof. destruct x as [s|s| |[] m e]; cbn; intros; auto; contradiction. Qed.

(** A power of two. *)
Lemma SFldexp_one_bound (e B : Z) :
  e + 1 <= B -> -1074 <= B -> B <= 971 ->
  nonneg_bounded_by (B + 1) (SFldexp prec emax (SFone prec emax) e).
Proof.
  intros He HB1 HB2.
  change (SFone prec emax) with (S754_finite false 4503599627370496 (-52)).
  cbn [SFldexp]. apply rounded_nonneg_bounded. apply binary_round_bound; try lia.
  change (Z.pos (digits2_pos 4503599627370496)) with 53. lia.
Qed.

Lemma SFfrexp_exponent (s : bool) (m : positive) (e : Z) :
  snd (SFfrexp prec emax (S754_finite s m e)) <= Z.pos (digits2_pos m) + e.
Proof.
  cbn [SFfrexp]. destruct (Z.leb_spec prec (Z.pos (digits2_pos m))) as [H|H];
    cbn [snd]; unfold prec in *; lia.
Qed.

(** The unit in the last place of a finite number. *)
Lemma SFulp_bound (s : bool) (m : positive) (e B : Z) :
  Z.pos (digits2_pos m) + e <= B -> -1072 <= B -> B <= 1023 ->
  nonneg_bounded_by B (SFulp prec emax (S754_finite s m e)).
Proof.
  intros Hd HB1 HB2. unfold SFulp.
  pose proof (SFfrexp_exponent s m e) as HE.
  set (E := snd (SFfrexp prec emax (S754_finite s m e))) in *.
  apply (nonneg_bounded_by_le (Z.max (B - 52) (-1073) + 1)); [|lia].
  apply SFldexp_one_bound; unfold fexp, SpecFloat.emin, prec, emax; lia.
Qed.

Lemma SF64succ_bound (x : spec_float) (B : Z) :
  nonneg_bounded_by B x -> -1072 <= B -> B <= 970 ->
  nonneg_bounded_by (B + 2) (SF64succ x).
Proof.
  intros Hx HB1 HB2. unfold SF64succ.
  destruct x as [s|s| |[] m e]; try contradiction; cbn [SFsucc nonneg_bounded_by] in *.
  - apply (nonneg_bounded_by_le (-1073 + 1)); [|lia].
    apply SFldexp_one_bound; unfold SpecFloat.emin, prec, emax; lia.
  - apply SF64add_bound; try lia; [exact Hx|].
    apply SFulp_bound; lia.
Qed.

Lemma SF64pred_bound (x : spec_float) (B : Z) :
  nonneg_bounded_by B x -> -1072 <= B -> B <= 970 ->
  bounded_by (B + 2) (SF64pred x).
Proof.
  intros Hx HB1 HB2. unfold SF64pred, SFpred.
  destruct x as [s|s| |[] m e]; try contradiction; cbn [SFopp SFsucc nonneg_bounded_by] in *.
  - apply bounded_by_opp, nonneg_bounded_bounded.
    apply (nonneg_bounded_by_le (-1073 + 1)); [|lia].
    apply SFldexp_one_bound; unfold SpecFloat.emin, prec, emax; lia.
  - apply bounded_by_opp, bounded_by_opp. cbn [negb]. unfold SFpred_pos.
    apply SF64sub_bound; try lia; [exact Hx|].
    apply nonneg_bounded_bounded.
    destruct (Pos.eqb _ _).
    + pose proof (SFfrexp_exponent false m e) as HE.
      set (E := snd (SFfrexp prec emax (S754_finite false m e))) in *.
      apply (nonneg_bounded_by_le (Z.max (B - 52) (-1073) + 1)); [|lia].
      apply SFldexp_one_bound; unfold fexp, SpecFloat.emin, prec, emax; lia.
    + apply SFulp_bound; lia.
Qed.

(** Numbers that are equal for [==] have the same magnitude. *)
Lemma SFeqb_bounded (r c : spec_float) (B : Z) :
  SFeqb r c = true -> bounded_by B c -> bounded_by B r.
Proof.
  unfold SFeqb, SFcompare.
  destruct r as [sr|sr| |sr mr er], c as [sc|sc| |sc mc ec];
    try destruct sr; try destruct sc; cbn [bounded_by]; try discriminate; auto;
    change (Pos.compare_cont Eq mr mc) with (Pos.compare mr mc);
    destruct (Z.compare_spec er ec); try discriminate;
    destruct (Pos.compare_spec mr mc); try discriminate; intros _; subst; auto.
Qed.

Lemma SFleb_zero_bounded (r : spec_float) (B : Z) :
  SFleb (S754_zero false) r = true -> bounded_by B r -> nonneg_bounded_by B r.
Proof.
  unfold SFleb, SFcompare.
  destruct r as [sr|sr| |[] mr er]; cbn; try discriminate; auto.
Qed.

End Neighbours.

(** A number that is not negative and within one unit in the last place
    of a bounded one is bounded. *)
Lemma one_ulp_from_bounded (c r : float) (B : Z) :
  one_ulp_from c r = true ->
  nonneg_bounded_by B (Prim2SF c) -> (-1072 <= B)%Z -> (B <= 970)%Z ->
  nonneg_bounded_by (B + 2) (Prim2SF r).
Proof.
  unfold one_ulp_from. rewrite andb_true_iff, !orb_true_iff.
  rewrite leb_spec, !eqb_spec, next_down_spec, next_up_spec.
  change (Prim2SF 0) with (S754_zero false).
  intros [H0 H] Hc HB1 HB2.
  apply SFleb_zero_bounded; [exact H0|].
  destruct H as [[H|H]|H].
  - apply (SFeqb_bounded _ _ _ H). now apply SF64pred_bound.
  - apply (SFeqb_bounded _ _ _ H). apply nonneg_bounded_bounded.
    apply (nonneg_bounded_by_le B); [exact Hc|lia].
  - apply (SFeqb_bounded _ _ _ H). apply nonneg_bounded_bounded.
    now apply SF64succ_bound.
Qed.

(** ** The tests of the interpreter, by the form of the number *)

Lemma SFeqb_finite_refl (s : bool) (m : positive) (e : Z) :
  SFeqb (S754_finite s m e) (S754_finite s m e) = true.
Proof.
  unfold SFeqb, SFcompare. rewrite Z.compare_refl.
  change (Pos.compare_cont Eq m m) with (Pos.compare m m).
  rewrite Pos.compare_refl. now destruct s.
Qed.



Lemma zero_tests (v : float) (s : bool) :
  Prim2SF v = S754_zero s ->
  is_nan v = false /\ is_infinity v = false /\ (v =? 0)%float = true.
Proof.
  intros H. unfold is_nan, is_infinity. rewrite !eqb_spec, abs_spec, H.
  now destruct s.
Qed.

Lemma finite_tests (v : float) (s : bool) (m : positive) (e : Z) :
  Prim2SF v = S754_finite s m e ->
  is_nan v = false /\ is_infinity v = false /\ (v =? 0)%float = false
  /\ (v <? 0)%float = s
  /\ Prim2SF (if s then (- v)%float else v) = S754_finite false m e.
Proof.
  intros H. unfold is_nan, is_infinity.
  rewrite !eqb_spec, ltb_spec, abs_spec, H, SFeqb_finite_refl.
  repeat split; try (now destruct s).
  destruct s; [|exact H]. now rewrite opp_spec, H.
Qed.

(** A finite number above zero. *)
Lemma positive_finite (x : float) :
  (0 <? x)%float = true -> (x <? infinity)%float = true ->
  exists m e, Prim2SF x = S754_finite false m e.
Proof.
  rewrite !ltb_spec.
  change (Prim2SF 0) with (S754_zero false).
  change (Prim2SF infinity) with (S754_infinity false).
  destruct (Prim2SF x) as [s|s| |s m e]; try destruct s; try discriminate.
  intros _ _. now exists m, e.
Qed.

Lemma finite_positive (x : float) (m : positive) (e : Z) :
  Prim2SF x = S754_finite false m e ->
  (0 <? x)%float = true /\ (x <? infinity)%float = true.
Proof. intros H. rewrite !ltb_spec, H. split; reflexivity. Qed.

Lemma bounded_not_infinity (r : float) (B : Z) :
  nonneg_bounded_by B (Prim2SF r) -> is_infinity r = false.
Proof.
  unfold is_infinity. rewrite eqb_spec, abs_spec.
  destruct (Prim2SF r) as [s|s| |[] m e]; cbn; intros H; try contradiction;
    reflexivity.
Qed.

(** ** Powers under an accurate [pow] *)

Section Powers.
Context {L : Libm}.

(** A call of [pow] whose result is near a bounded number returns. *)
Lemma call_pow_returns (iv iw c : float) (B : Z) :
  one_ulp_from c (fst (pow iv iw)) = true ->
  range_errno (pow iv iw) = true ->
  nonneg_bounded_by B (Prim2SF c) -> (-1072 <= B)%Z -> (B <= 970)%Z ->
  exists r, call_pow iv iw = Return r /\ nonneg_bounded_by (B + 2) (Prim2SF r).
Proof.
  unfold call_pow, range_errno. destruct (pow iv iw) as [ix e]. cbn [fst snd].
  intros H1 He Hc HB1 HB2.
  pose proof (one_ulp_from_bounded c ix B H1 Hc HB1 HB2) as Hb.
  pose proof (bounded_not_infinity ix _ Hb) as Hinf.
  exists ix. split; [|exact Hb].
  destruct e; [now rewrite Hinf| |discriminate].
  rewrite Hinf, orb_false_r in He. now rewrite He.
Qed.

(** A zero has the square zero, whatever the library is. *)
Lemma float_pow_2_zero (v : float) (s : bool) :
  Prim2SF v = S754_zero s -> float_pow_2 v = Return 0%float.
Proof.
  intros H. destruct (zero_tests v s H) as (H1 & H2 & H3).
  unfold float_pow_2. now rewrite H1, H2, H3.
Qed.


Hypothesis Hacc : accurate L.

Lemma float_pow_2_bounded (v : float) (B : Z) :
  bounded_by B (Prim2SF v) -> (-536 <= B)%Z -> (B <= 484)%Z ->
  exists r, float_pow_2 v = Return r /\ nonneg_bounded_by (2 * B + 3) (Prim2SF r).
Proof.
  intros Hb HB1 HB2.
  destruct (Prim2SF v) as [s|s| |s m e] eqn:Ev; try contradiction.
  - exists 0%float. split; [now apply (float_pow_2_zero v s)|exact I].
  - destruct (finite_tests v s m e Ev) as (H1 & H2 & H3 & H4 & H5).
    unfold float_pow_2. rewrite H1, H2, H3. cbv zeta. rewrite H4.
    set (iv := if s then (- v)%float else v) in *.
    assert (Hiv : bounded_by B (Prim2SF iv)) by (rewrite H5; exact Hb).
    destruct (iv =? 1)%float eqn:E1.
    + exists 1%float. split; [reflexivity|].
      rewrite eqb_spec, SFeqb_sym in E1.
      pose proof (SFeqb_bounded _ _ B E1 Hiv) as H.
      change (Prim2SF 1) with (S754_finite false 4503599627370496 (-52)) in *.
      cbn [bounded_by nonneg_bounded_by] in H |- *.
      change (Z.pos (digits2_pos 4503599627370496)) with 53%Z in *. lia.
    + destruct (finite_positive iv m e H5) as [Hp Hf].
      destruct (Hacc iv Hp Hf) as (Hu & He & _).
      replace (2 * B + 3)%Z with (2 * B + 1 + 2)%Z by lia.
      apply (call_pow_returns iv 2 (iv * iv) (2 * B + 1) Hu He); [|lia|lia].
      rewrite mul_spec. apply SF64mul_square_bound; [exact Hiv|lia|lia].
Qed.

Lemma float_pow_half_bounded (v : float) (B : Z) :
  nonneg_bounded_by B (Prim2SF v) -> (0 <= B)%Z -> (B <= 968)%Z ->
  exists r,
    float_pow_half v = Return (Real r) /\ nonneg_bounded_by (B + 3) (Prim2SF r).
Proof.
  intros Hb HB1 HB2.
  destruct (Prim2SF v) as [s|s| |[] m e] eqn:Ev; try contradiction.
  - destruct (zero_tests v s Ev) as (H1 & H2 & H3).
    exists 0%float. unfold float_pow_half. rewrite H1, H2, H3.
    split; [reflexivity|exact I].
  - destruct (finite_tests v false m e Ev) as (H1 & H2 & H3 & H4 & H5).
    unfold float_pow_half. rewrite H1, H2, H3, H4.
    destruct (v =? 1)%float eqn:E1.
    + exists 1%float. split; [reflexivity|].
      change (Prim2SF 1) with (S754_finite false 4503599627370496 (-52)).
      cbn [nonneg_bounded_by].
      change (Z.pos (digits2_pos 4503599627370496)) with 53%Z. lia.
    + destruct (finite_positive v m e Ev) as [Hp Hf].
      destruct (Hacc v Hp Hf) as (_ & _ & Hu & He).
      destruct (call_pow_returns v 0.5 (sqrt v) (B + 1) Hu He) as (r & Hr & Hrb);
        try lia.
      { rewrite sqrt_spec, Ev. apply SF64sqrt_bound; [exact Hb|lia|lia]. }
      exists r. rewrite Hr. split; [reflexivity|].
      replace (B + 3)%Z with (B + 1 + 2)%Z by lia. exact Hrb.
Qed.

End Powers.

(** ** [distance_to] *)

Section Distance.
Context {L : Libm}.



(** With an accurate library, the distance between two valid positions
    is returned, and it is a finite number that is not negative. *)
Lemma distance_to_returns (p q : Position.t) :
  accurate L ->
  Position.valid p = true -> Position.valid q = true ->
  exists d,
    Position.distance_to p q = Return d /\ nonneg_bounded_by 32 (Prim2SF d).
Proof.
  intros Hacc. unfold Position.valid. rewrite !andb_true_iff.
  intros [Hpx Hpy] [Hqx Hqy].
  apply in_range_bounded in Hpx, Hpy, Hqx, Hqy.
  unfold Position.distance_to.
  destruct (float_pow_2_bounded Hacc (Position.x p - Position.x q) 12)
    as (dx2 & -> & Hdx); [|lia|lia|].
  { rewrite sub_spec. apply (SF64sub_bound _ _ 10); auto; lia. }
  destruct (float_pow_2_bounded Hacc (Position.y p - Position.y q) 12)
    as (dy2 & -> & Hdy); [|lia|lia|].
  { rewrite sub_spec. apply (SF64sub_bound _ _ 10); auto; lia. }
  destruct (float_pow_half_bounded Hacc (dx2 + dy2) 29) as (d & -> & Hd);
    [|lia|lia|].
  { rewrite add_spec. apply (SF64add_bound _ _ 27); auto; lia. }
  exists d. split; [reflexivity|exact Hd].
Qed.

End Distance.

(** ** The exceptions of a distance *)

Lemma call_pow_exn {L : Libm} (iv iw : float) (e : exn) :
  call_pow iv iw = Raise e -> e = OverflowError \/ e = ValueError.
Proof.
  unfold call_pow. destruct (pow iv iw) as [ix er].
  destruct er; try destruct (is_infinity ix); try destruct (ix =? 0)%float;
    intros H; inversion H; auto.
Qed.

Lemma float_pow_2_exn {L : Libm} (v : float) (e : exn) :
  float_pow_2 v = Raise e -> e = OverflowError \/ e = ValueError.
Proof.
  unfold float_pow_2.
  destruct (is_nan v); [discriminate|].
  destruct (is_infinity v); [discriminate|].
  destruct (v =? 0)%float; [discriminate|]. cbv zeta.
  destruct (_ =? 1)%float; [discriminate|]. apply call_pow_exn.
Qed.

Lemma float_pow_half_exn {L : Libm} (v : float) (e : exn) :
  float_pow_half v = Raise e -> e = OverflowError \/ e = ValueError.
Proof.
  unfold float_pow_half.
  destruct (is_nan v); [discriminate|].
  destruct (is_infinity v); [discriminate|].
  destruct (v =? 0)%float; [discriminate|].
  destruct (v <? 0)%float; [discriminate|].
  destruct (v =? 1)%float; [discriminate|].
  destruct (call_pow v 0.5) as [ix|e'] eqn:E; [discriminate|].
  intros H. inversion H; subst. now apply (call_pow_exn v 0.5).
Qed.

(** What [distance_to] raises is an [OverflowError] or a [ValueError] of
    a power, or the [TypeError] of a complex number. *)
Lemma distance_to_exn {L : Libm} (p q : Position.t) (e : exn) :
  Position.distance_to p q = Raise e ->
  e = OverflowError \/ e = ValueError \/ e = TypeError.
Proof.
  unfold Position.distance_to.
  destruct (float_pow_2 (Position.x p - Position.x q)) as [dx2|e1] eqn:E1.
  - destruct (float_pow_2 (Position.y p - Position.y q)) as [dy2|e2] eqn:E2.
    + destruct (float_pow_half (dx2 + dy2)) as [[d|]|e3] eqn:E3.
      * discriminate.
      * intros H. inversion H. auto.
      * intros H. inversion H; subst.
        destruct (float_pow_half_exn _ _ E3); auto.
    + intros H. inversion H; subst. destruct (float_pow_2_exn _ _ E2); auto.
  - intros H. inversion H; subst. destruct (float_pow_2_exn _ _ E1); auto.
Qed.

(** ** Libraries that are accurate *)

Section Rounded.
Local Open Scope Z_scope.

Lemma shr_fexp_nonneg (m e : Z) (l : location) :
  0 <= m -> 0 <= shr_m (fst (shr_fexp prec emax m e l)).
Proof.
  intros Hm. unfold shr_fexp, shr.
  destruct (fexp prec emax (Zdigits2 m + e) - e) as [|n|n]; cbn [fst];
    rewrite ?shr_m_of_loc; try assumption.
  destruct (iter_shr_1_bound n (shr_record_of_loc m l)) as [H _];
    rewrite ?shr_m_of_loc in *; assumption.
Qed.

(** Rounding a mantissa that is not negative gives a number that is not
    negative. *)
Lemma binary_round_aux_nonneg (m e : Z) (l : location) :
  0 <= m -> nonneg_number (binary_round_aux prec emax false m e l).
Proof.
  intros Hm. unfold binary_round_aux.
  pose proof (shr_fexp_nonneg m e l Hm) as H1.
  destruct (shr_fexp prec emax m e l) as [mrs' e']. cbn [fst] in H1.
  destruct (round_nearest_even_bound (shr_m mrs') (loc_of_shr_record mrs') H1)
    as [H2 _].
  pose proof (shr_fexp_nonneg _ e' loc_Exact H2) as H3.
  destruct (shr_fexp prec emax _ e' loc_Exact) as [mrs'' e'']. cbn [fst] in H3.
  destruct (shr_m mrs'') as [|p|p]; [exact I| |lia].
  destruct (e'' <=? emax - prec); exact I.
Qed.

Lemma SF64mul_square_nonneg (m : positive) (e : Z) :
  nonneg_number (SF64mul (S754_finite false m e) (S754_finite false m e)).
Proof.
  unfold SF64mul, SFmul. cbn [xorb]. apply binary_round_aux_nonneg. lia.
Qed.

Lemma SF64sqrt_nonneg (m : positive) (e : Z) :
  nonneg_number (SF64sqrt (S754_finite false m e)).
Proof.
  unfold SF64sqrt, SFsqrt.
  pose proof (SFsqrt_core_binary_bound m e (Z.max 0 (Z.pos (digits2_pos m) + e))
                ltac:(lia) ltac:(lia)) as H.
  destruct (SFsqrt_core_binary prec emax (Z.pos m) e) as [[q e'] l].
  destruct H as (Hq & _). now apply binary_round_aux_nonneg.
Qed.

End Rounded.

Lemma nonneg_number_tests (r : float) :
  nonneg_number (Prim2SF r) -> (0 <=? r)%float = true /\ (r =? r)%float = true.
Proof.
  rewrite leb_spec, eqb_spec. change (Prim2SF 0) with (S754_zero false).
  destruct (Prim2SF r) as [s|s| |s m e]; try destruct s; cbn [nonneg_number];
    intros H; try contradiction; split; try reflexivity.
  apply SFeqb_finite_refl.
Qed.

(** The correctly rounded result is within one unit in the last place
    of itself. *)
Lemma one_ulp_from_self (c : float) :
  nonneg_number (Prim2SF c) -> one_ulp_from c c = true.
Proof.
  intros H. destruct (nonneg_number_tests c H) as [H0 H1].
  unfold one_ulp_from. now rewrite H0, H1, orb_true_r.
Qed.

Lemma range_errno_of_result (r : float) :
  range_errno (r, if is_infinity r then ERANGE else ENONE) = true.
Proof.
  unfold range_errno. cbn [fst snd].
  destruct (is_infinity r); [apply orb_true_r|reflexivity].
Qed.

Lemma correctly_rounded_accurate : accurate correctly_rounded.
Proof.
  intros x H0 Hf. destruct (positive_finite x H0 Hf) as (m & e & Ex).
  cbn [pow correctly_rounded].
  change (2 =? 2)%float with true. change (0.5 =? 2)%float with false.
  change (0.5 =? 0.5)%float with true. cbv iota zeta. cbn [fst].
  split; [|split; [|split]].
  - apply one_ulp_from_self. rewrite mul_spec, Ex. apply SF64mul_square_nonneg.
  - apply range_errno_of_result.
  - apply one_ulp_from_self. rewrite sqrt_spec, Ex. apply SF64sqrt_nonneg.
  - apply range_errno_of_result.
Qed.


(* ================================================================== *)
(** * Strings                                                          *)
(* ================================================================== *)

Lemma len_app (a b : string) : len (a ++ b) = len a + len b.
Proof.
  induction a as [|c a IH]; cbn [append len]; [reflexivity|].
  destruct (continuation c); rewrite IH; reflexivity.
Qed.

Lemma len_cons_le (c : ascii) (s : string) : len s <= len (String c s).
Proof. cbn [len]. destruct (continuation c); lia. Qed.

(** A plain character starts no white space of two or three bytes. *)
Lemma plain_char_space (c1 c2 c3 : ascii) :
  plain_char c1 = true ->
  isspace c1 = false /\ is_white_space c1 = false
  /\ continuation c1 = false
  /\ space2 c1 c2 = false /\ space3 c1 c2 c3 = false.
Proof.
  destruct c1 as [[] [] [] [] [] [] [] []]; cbn; intros H;
    solve [discriminate | repeat split; reflexivity].
Qed.

(** ** Stripping *)

Section StripFacts.
Variable space1 : ascii -> bool.

Lemma len_lstrip_by_fuel (n : nat) :
  forall s : string, String.length s <= n -> len (lstrip_by space1 s) <= len s.
Proof.
  induction n as [|n IH]; intros s Hn.
  - destruct s; [cbn; lia|cbn in Hn; lia].
  - destruct s as [|c1 s1]; [cbn; lia|].
    cbn [String.length] in Hn. cbn [lstrip_by].
    pose proof (len_cons_le c1 s1) as L1.
    destruct (space1 c1).
    { pose proof (IH s1 ltac:(lia)). lia. }
    destruct s1 as [|c2 s2]; [lia|].
    cbn [String.length] in Hn.
    pose proof (len_cons_le c2 s2) as L2.
    destruct (space2 c1 c2).
    { pose proof (IH s2 ltac:(lia)). lia. }
    destruct s2 as [|c3 s3]; [lia|].
    cbn [String.length] in Hn.
    pose proof (len_cons_le c3 s3) as L3.
    destruct (space3 c1 c2 c3); [|lia].
    pose proof (IH s3 ltac:(lia)). lia.
Qed.

Lemma len_lstrip_by (s : string) : len (lstrip_by space1 s) <= len s.
Proof. now apply (len_lstrip_by_fuel (String.length s)). Qed.

Lemma len_rstrip_by (s : string) : len (rstrip_by space1 s) <= len s.
Proof.
  induction s as [|c s IH]; cbn [rstrip_by]; [lia|].
  destruct (blank_by space1 (String c s)); [cbn [len]; lia|].
  cbn [len]. destruct (continuation c); lia.
Qed.

Lemma len_strip_by (s : string) : len (strip_by space1 s) <= len s.
Proof.
  unfold strip_by.
  pose proof (len_rstrip_by (lstrip_by space1 s)). pose proof (len_lstrip_by s). lia.
Qed.

Hypothesis plain_is_no_space : forall c, plain_char c = true -> space1 c = false.

(** A string that starts with a plain character keeps its start. *)
Lemma lstrip_by_first (c : ascii) (s : string) :
  plain_char c = true -> lstrip_by space1 (String c s) = String c s.
Proof.
  intros Hc. cbn [lstrip_by]. rewrite (plain_is_no_space c Hc).
  destruct s as [|c2 s2]; [reflexivity|].
  destruct (plain_char_space c c2 c2 Hc) as (_ & _ & _ & H2 & _). rewrite H2.
  destruct s2 as [|c3 s3]; [reflexivity|].
  destruct (plain_char_space c c2 c3 Hc) as (_ & _ & _ & _ & H3). now rewrite H3.
Qed.

Lemma strip_by_first (c : ascii) (s : string) :
  plain_char c = true ->
  strip_by space1 (String c s) = String c (rstrip_by space1 s).
Proof.
  intros Hc. unfold strip_by. rewrite (lstrip_by_first c s Hc).
  cbn [rstrip_by]. unfold blank_by. now rewrite (lstrip_by_first c s Hc).
Qed.

Lemma rstrip_by_plain (s : string) :
  all_chars plain_char s = true -> rstrip_by space1 s = s.
Proof.
  induction s as [|c s IH]; cbn [all_chars rstrip_by]; [reflexivity|].
  intros H. apply andb_true_iff in H. destruct H as [Hc Hs].
  unfold blank_by. rewrite (lstrip_by_first c s Hc). now rewrite (IH Hs).
Qed.

(** Plain characters are left alone. *)
Lemma strip_by_plain (s : string) :
  all_chars plain_char s = true -> strip_by space1 s = s.
Proof.
  intros H. destruct s as [|c s]; [reflexivity|].
  cbn [all_chars] in H. apply andb_true_iff in H. destruct H as [Hc Hs].
  rewrite (strip_by_first c s Hc). now rewrite (rstrip_by_plain s Hs).
Qed.

End StripFacts.

Lemma plain_not_isspace (c : ascii) : plain_char c = true -> isspace c = false.
Proof. intros H. now destruct (plain_char_space c c c H). Qed.

Lemma plain_not_white_space (c : ascii) :
  plain_char c = true -> is_white_space c = false.
Proof. intros H. now destruct (plain_char_space c c c H) as (_ & H' & _). Qed.

Lemma len_strip (s : string) : len (strip s) <= len s.
Proof. apply len_strip_by. Qed.

Lemma len_str_strip_whitespace (s : string) : len (str_strip_whitespace s) <= len s.
Proof. apply len_strip_by. Qed.

Lemma strip_plain (s : string) : all_chars plain_char s = true -> strip s = s.
Proof. apply strip_by_plain, plain_not_isspace. Qed.

Lemma str_strip_whitespace_plain (s : string) :
  all_chars plain_char s = true -> str_strip_whitespace s = s.
Proof. apply strip_by_plain, plain_not_white_space. Qed.

Lemma len_plain (s : string) : all_chars plain_char s = true -> len s = String.length s.
Proof.
  induction s as [|c s IH]; cbn [all_chars len String.length]; [reflexivity|].
  intros H. apply andb_true_iff in H. destruct H as [Hc Hs].
  destruct (plain_char_space c c c Hc) as (_ & _ & Hn & _).
  rewrite Hn. now rewrite IH.
Qed.

Lemma is_hex_upper_plain (c : ascii) : is_hex_upper c = true -> plain_char c = true.
Proof.
  destruct c as [[] [] [] [] [] [] [] []]; cbn; intros H;
    solve [reflexivity | discriminate].
Qed.

Lemma all_chars_hex_plain (s : string) :
  all_chars is_hex_upper s = true -> all_chars plain_char s = true.
Proof.
  induction s as [|c s IH]; cbn [all_chars]; [reflexivity|].
  intros H. apply andb_true_iff in H. destruct H as [Hc Hs].
  now rewrite (is_hex_upper_plain c Hc), IH.
Qed.
(* ================================================================== *)
(** * The distance between positions                                   *)
(* ================================================================== *)





(* ================================================================== *)
(** * The nearest available robot                                      *)
(* ================================================================== *)

Section FindBest.
Context {L : Libm}.
Variable task : Task.t.
Let target := Task.target_position task.

(** The hypothesis under which the loop is followed: the distances are
    returned, finite and not negative. *)
Let measured (l : list (string * Robot.t)) : Prop :=
  forall r, In r l ->
    exists d,
      Position.distance_to (Robot.position (snd r)) target = Return d
      /\ nonneg_bounded_by 32 (Prim2SF d).

Lemma measured_distance_of (l : list (string * Robot.t)) (r : string * Robot.t) :
  measured l -> In r l ->
  Position.distance_to (Robot.position (snd r)) target
  = Return (distance_of target r)
  /\ nonneg_bounded_by 32 (Prim2SF (distance_of target r)).
Proof.
  intros Hm Hin. destruct (Hm r Hin) as (d & Hd & Hb).
  unfold distance_of. rewrite Hd. split; [reflexivity|exact Hb].
Qed.

Lemma closer_keeps (seen : list (string * Robot.t))
    (acc : outcome (option (string * Robot.t) * float)) (r : string * Robot.t) :
  measured (seen ++ [r]) ->
  closest_so_far target seen acc ->
  closest_so_far target (seen ++ [r]) (RobotScheduler.closer task acc r).
Proof.
  intros Hm. destruct acc as [[best min_distance]|e]; [|intros []].
  unfold closest_so_far, RobotScheduler.closer.
  destruct (measured_distance_of _ r Hm) as [Hd Hr];
    [apply in_or_app; right; now left|].
  fold target. rewrite Hd.
  destruct best as [b|].
  - intros [Hmin (l1 & l2 & Hseen & Hbefore & Hafter)]. subst min_distance seen.
    destruct (measured_distance_of _ b Hm) as [_ Hb];
      [apply in_or_app; left; apply in_or_app; right; now left|].
    destruct (distance_of target r <? distance_of target b)%float eqn:Hlt.
    + split; [reflexivity|].
      exists (l1 ++ b :: l2), []. split; [reflexivity|]. split; [|intros r' []].
      intros r' Hin.
      destruct (measured_distance_of _ r' Hm) as [_ Hr'];
        [apply in_or_app; now left|].
      apply in_app_or in Hin. destruct Hin as [Hin|[<-|Hin]].
      * apply (ltb_cotrans _ (distance_of target b) _ 32 32 32); auto.
        apply (ltb_asym _ _ 32 32); auto.
      * exact Hlt.
      * apply (ltb_cotrans _ (distance_of target b) _ 32 32 32); auto.
    + split; [reflexivity|].
      exists l1, (l2 ++ [r]). split; [now rewrite <- app_assoc|].
      split; [exact Hbefore|].
      intros r' Hin. apply in_app_or in Hin. destruct Hin as [Hin|[<-|[]]].
      * now apply Hafter.
      * exact Hlt.
  - intros [Hseen Hmin]. subst seen min_distance.
    rewrite (ltb_infinity _ 32 Hr).
    split; [reflexivity|].
    exists [], []. split; [reflexivity|]. split; intros r' [].
Qed.

Lemma closer_fold (l : list (string * Robot.t)) :
  forall (seen : list (string * Robot.t))
         (acc : outcome (option (string * Robot.t) * float)),
    measured (seen ++ l) ->
    closest_so_far target seen acc ->
    closest_so_far target (seen ++ l) (fold_left (RobotScheduler.closer task) l acc).
Proof.
  induction l as [|r l IH]; intros seen acc Hm Hacc; cbn [fold_left].
  - now rewrite app_nil_r.
  - replace (seen ++ r :: l) with ((seen ++ [r]) ++ l) in *
      by (rewrite <- app_assoc; reflexivity).
    apply IH; [exact Hm|].
    apply closer_keeps; [|exact Hacc].
    intros r' Hin. apply Hm. apply in_or_app. now left.
Qed.

End FindBest.

(** The loop of [_find_best_robot] raises what a distance raises: no
    [SchedulerError]. *)
Lemma closer_fold_exn {L : Libm} (task : Task.t) (l : list (string * Robot.t)) :
  forall acc : outcome (option (string * Robot.t) * float),
    acc <> Raise SchedulerError ->
    fold_left (RobotScheduler.closer task) l acc <> Raise SchedulerError.
Proof.
  induction l as [|r l IH]; intros acc Hacc; cbn [fold_left]; [exact Hacc|].
  apply IH. unfold RobotScheduler.closer.
  destruct acc as [[b d]|e0]; [|exact Hacc].
  destruct (Position.distance_to _ _) as [dist|e] eqn:E.
  - destruct (dist <? d)%float; discriminate.
  - destruct (distance_to_exn _ _ _ E) as [->|[->| ->]]; discriminate.
Qed.

Lemma find_best_robot_exn {L : Libm} (self : RobotScheduler.t) (task : Task.t) :
  RobotScheduler._find_best_robot self task <> Raise SchedulerError.
Proof.
  unfold RobotScheduler._find_best_robot.
  destruct (RobotScheduler.get_available_robots self) as [|r0 l]; [discriminate|].
  pose proof (closer_fold_exn task (r0 :: l) (Return (None, infinity))
                ltac:(discriminate)) as H.
  destruct (fold_left _ _ _) as [[b d]|e]; [discriminate|].
  intros E. apply H. now inversion E.
Qed.

(** With an accurate library and valid positions, the distance of every
    robot to the target is returned. *)
Lemma robots_measured {L : Libm} (self : RobotScheduler.t) (task : Task.t) :
  accurate L ->
  Position.valid (Task.target_position task) = true ->
  valid_positions self ->
  forall r, In r (RobotScheduler.get_available_robots self) ->
    exists d,
      Position.distance_to (Robot.position (snd r)) (Task.target_position task)
      = Return d
      /\ nonneg_bounded_by 32 (Prim2SF d).
Proof.
  intros Hacc Ht Hv r Hin.
  apply filter_In in Hin. destruct Hin as [Hin _].
  unfold valid_positions in Hv. rewrite Forall_forall in Hv.
  apply distance_to_returns; [exact Hacc|now apply Hv|exact Ht].
Qed.

(** [_find_best_robot] finds nothing exactly when no robot is available,
    and otherwise the first of the nearest available robots. *)
Lemma find_best_robot_closest {L : Libm} (self : RobotScheduler.t) (task : Task.t) :
  accurate L ->
  Position.valid (Task.target_position task) = true ->
  valid_positions self ->
  match RobotScheduler.get_available_robots self with
  | [] => RobotScheduler._find_best_robot self task = Return None
  | _ :: _ =>
      exists best,
        RobotScheduler._find_best_robot self task = Return (Some best)
        /\ first_closest (Task.target_position task)
             (RobotScheduler.get_available_robots self) best
  end.
Proof.
  intros Hacc Ht Hv. unfold RobotScheduler._find_best_robot.
  pose proof (robots_measured self task Hacc Ht Hv) as Hm.
  destruct (RobotScheduler.get_available_robots self) as [|r0 l] eqn:Ea;
    [reflexivity|].
  pose proof (closer_fold task (r0 :: l) [] (Return (None, infinity)) Hm) as H.
  cbn [app] in H. specialize (H (conj eq_refl eq_refl)).
  unfold closest_so_far in H.
  destruct (fold_left (RobotScheduler.closer task) (r0 :: l) (Return (None, infinity)))
    as [[[b|] d]|e].
  - exists b. split; [reflexivity|]. apply H.
  - destruct H as [H _]. discriminate.
  - contradiction.
Qed.

(** C1.  [assign_task] first stores the task in the task collection, under
    its identifier.  If no robot is available (IDLE with a battery level
    above 20) it returns [None], and the task is stored as it was given,
    so that a PENDING task remains PENDING.  Otherwise, with valid
    positions and an accurate library, the distance of every available
    robot to the target is returned, and the robot chosen is the first,
    in the iteration order of the robot collection, of the available
    robots at the least distance from the target of the task; for a
    pending task it becomes BUSY with the task, the task becomes ASSIGNED
    to it and its identifier is returned. *)
Theorem assign_task_nearest_available {L : Libm} (self : RobotScheduler.t)
    (task : Task.t) :
  accurate L ->
  Position.valid (Task.target_position task) = true ->
  valid_positions self ->
  let stored := RobotScheduler.add_task self task in
  RobotScheduler.tasks stored
  = set (RobotScheduler.tasks self) (Task.task_id task) task
  /\ get (RobotScheduler.tasks stored) (Task.task_id task) = Some task
  /\ RobotScheduler.get_available_robots self
     = filter (fun kr => RobotStatus_eqb (Robot.status (snd kr)) IDLE
                         && (20 <? Robot.battery_level (snd kr))%float)
         (RobotScheduler.robots self)
  /\ (forall r, In r (RobotScheduler.get_available_robots self) ->
        Position.distance_to (Robot.position (snd r)) (Task.target_position task)
        = Return (distance_of (Task.target_position task) r))
  /\ match RobotScheduler.get_available_robots self with
     | [] => RobotScheduler.assign_task self task = (stored, Return None)
     | _ :: _ =>
         exists best,
           RobotScheduler._find_best_robot stored task = Return (Some best)
           /\ first_closest (Task.target_position task)
                (RobotScheduler.get_available_robots self) best
           /\ (Task.status task = PENDING ->
               RobotScheduler.assign_task self task
               = (RobotScheduler.Build
                    (set (RobotScheduler.robots self) (fst best)
                       (Robot.set_status
                          (Robot.set_current_task (snd best) (Some (Task.task_id task)))
                          BUSY))
                    (set (RobotScheduler.tasks stored) (Task.task_id task)
                       (Task.set_status
                          (Task.set_assigned_robot task
                             (Some (Robot.robot_id (snd best))))
                          ASSIGNED)),
                  Return (Some (Robot.robot_id (snd best)))))
     end.
Proof.
  intros Hacc Ht Hv stored.
  split; [reflexivity|]. split; [apply get_set_same|]. split; [reflexivity|].
  split.
  { intros r Hin.
    destruct (robots_measured self task Hacc Ht Hv r Hin) as (d & Hd & _).
    unfold distance_of. now rewrite Hd. }
  pose proof (find_best_robot_closest stored task Hacc Ht Hv) as Hbest.
  change (RobotScheduler.get_available_robots stored)
    with (RobotScheduler.get_available_robots self) in Hbest.
  destruct (RobotScheduler.get_available_robots self) as [|r0 l] eqn:Ea.
  - unfold RobotScheduler.assign_task. fold stored. now rewrite Hbest.
  - destruct Hbest as (best & Hfind & Hfirst).
    exists best. split; [exact Hfind|]. split; [exact Hfirst|].
    intros Hp. unfold RobotScheduler.assign_task. fold stored. rewrite Hfind.
    destruct best as [rk r]. cbn [fst snd].
    assert (Hav : Robot.is_available r = true).
    { destruct Hfirst as (l1 & l2 & Hl & _).
      assert (Hin : In (rk, r) (RobotScheduler.get_available_robots self)).
      { rewrite Ea, Hl. apply in_or_app. right. now left. }
      apply filter_In in Hin. apply Hin. }
    unfold Robot.assign_task. rewrite Hav. cbn [negb].
    unfold Task.assign_to_robot, Task.is_pending. rewrite Hp. reflexivity.
Qed.

Lemma assign_task_nearest_available_witness :
  RobotScheduler.assign_task (L := correctly_rounded) fleet
    (Sample.task "T1" (Sample.at_ 0 0) 1 PENDING)
  = (RobotScheduler.Build
       [("R1", Sample.robot "R1" (Sample.at_ 3 4));
        ("R2", Robot.Build "R2" "robot" (Sample.at_ 1 0) BUSY (Some "T1") 100 0);
        ("R3", Sample.robot "R3" (Sample.at_ 6 8));
        ("R4", Sample.robot "R4" (Sample.at_ 0 1))]
       [("T1", Task.Build "T1" DELIVERY (Sample.at_ 0 0) 1 ASSIGNED (Some "R2") 0 30 "")],
     Return (Some "R2")).
Proof.
  assert (Hv : valid_positions fleet) by (repeat constructor).
  pose proof (assign_task_nearest_available (L := correctly_rounded) fleet
                (Sample.task "T1" (Sample.at_ 0 0) 1 PENDING)
                correctly_rounded_accurate eq_refl Hv)
    as (_ & _ & _ & _ & H).
  vm_compute in H. destruct H as (best & Hfind & _ & H).
  inversion Hfind; subst best.
  specialize (H eq_refl). vm_compute. exact H.
Defined.

(** The distances of the fleet from the origin are 5, 1, 10 and 1: the
    robot chosen is R2, the first of the two at distance 1. *)
Example find_best_robot_fleet :
  map (distance_of (L := correctly_rounded) (Sample.at_ 0 0))
    (RobotScheduler.robots fleet)
  = [5; 1; 10; 1]%float
  /\ RobotScheduler._find_best_robot (L := correctly_rounded) fleet
       (Sample.task "T1" (Sample.at_ 0 0) 1 PENDING)
     = Return (Some ("R2", Sample.robot "R2" (Sample.at_ 1 0))).
Proof. split; reflexivity. Qed.

(** The robot chosen depends on the library.  R1 is at the square root
    of 14170.000000000002 from the origin and R2 at that of 14170.  With
    correctly rounded powers both distances are 119.03780911962384, and
    R1, the first, is chosen.  With the library that gives
    119.03780911962383 for the second, R2 is strictly nearer and is
    chosen.  Both libraries are accurate, and both choices are the first
    robot at the least distance the library gives. *)
Example find_best_robot_near_tie :
  map (distance_of (L := correctly_rounded) (Sample.at_ 0 0))
    (RobotScheduler.robots near_tie)
  = [0x1.dc26b76f11199p+6; 0x1.dc26b76f11199p+6]%float
  /\ snd (RobotScheduler.assign_task (L := correctly_rounded) near_tie
            (Sample.task "T1" (Sample.at_ 0 0) 1 PENDING))
     = Return (Some "R1")
  /\ map (distance_of (L := last_place_low) (Sample.at_ 0 0))
       (RobotScheduler.robots near_tie)
     = [0x1.dc26b76f11199p+6; 0x1.dc26b76f11198p+6]%float
  /\ snd (RobotScheduler.assign_task (L := last_place_low) near_tie
            (Sample.task "T1" (Sample.at_ 0 0) 1 PENDING))
     = Return (Some "R2").
Proof. repeat split. Qed.

(** Without robots the task is stored and stays PENDING, whatever the
    library is. *)
Example assign_task_no_robot {L : Libm} :
  RobotScheduler.assign_task RobotScheduler.init
    (Sample.task "T1" (Sample.at_ 0 0) 1 PENDING)
  = (RobotScheduler.Build [] [("T1", Sample.task "T1" (Sample.at_ 0 0) 1 PENDING)],
     Return None).
Proof. reflexivity. Qed.
(* ================================================================== *)
(** * The task lifecycle                                               *)
(* ================================================================== *)

Lemma TaskStatus_eqb_eq a b : TaskStatus_eqb a b = true <-> a = b.
Proof. destruct a, b; simpl; split; intros H; congruence. Qed.

Lemma RobotStatus_eqb_eq a b : RobotStatus_eqb a b = true <-> a = b.
Proof. destruct a, b; simpl; split; intros H; congruence. Qed.

(** A call that raises leaves the whole task as it was. *)
Lemma invoke_raise_unchanged (t : Task.t) (c : Task.call) :
  raised (snd (Task.invoke t c)) = true -> fst (Task.invoke t c) = t.
Proof.
  destruct c; simpl;
    unfold Task.assign_to_robot, Task.start_execution, Task.complete, Task.fail,
      Task.is_pending.
  - destruct (TaskStatus_eqb (Task.status t) PENDING); simpl; congruence.
  - destruct (TaskStatus_eqb (Task.status t) ASSIGNED); simpl; congruence.
  - destruct (TaskStatus_eqb (Task.status t) IN_PROGRESS); simpl; congruence.
  - destruct (truthy reason); simpl; congruence.
Qed.

Lemma invoke_lifecycle (t : Task.t) (c : Task.call) :
  lifecycle_entry
    (Task.status t, c, snd (Task.invoke t c), Task.status (fst (Task.invoke t c))).
Proof.
  unfold lifecycle_entry.
  destruct c; simpl;
    unfold Task.assign_to_robot, Task.start_execution, Task.complete, Task.fail,
      Task.is_pending.
  - destruct (Task.status t) eqn:E; simpl; rewrite ?E;
      try (repeat split; [intros s' H; inversion H]); constructor.
  - destruct (Task.status t) eqn:E; simpl; rewrite ?E;
      try (repeat split; [intros s' H; inversion H]); constructor.
  - destruct (Task.status t) eqn:E; simpl; rewrite ?E;
      try (repeat split; [intros s' H; inversion H]); constructor.
  - destruct (truthy reason); simpl; constructor.
Qed.

Lemma run_lifecycle (cs : list Task.call) :
  forall t, Forall lifecycle_entry (snd (Task.run t cs)).
Proof.
  induction cs as [|c cs IH]; intros t; simpl.
  - constructor.
  - pose proof (invoke_lifecycle t c) as Hc.
    destruct (Task.invoke t c) as [t' o] eqn:Ei.
    specialize (IH t'). destruct (Task.run t' cs) as [final log].
    simpl in *. constructor; assumption.
Qed.

(** C5.  Along every sequence of calls to the transition methods of a task,
    a call that returns moves the status by one of the four moves of the
    lifecycle (PENDING to ASSIGNED by [assign_to_robot], ASSIGNED to
    IN_PROGRESS by [start_execution], IN_PROGRESS to COMPLETED by
    [complete], anything to FAILED by [fail], which always returns);
    every other call raises [ValueError] and leaves the task, hence its
    status, unchanged. *)
Theorem task_lifecycle (t : Task.t) (cs : list Task.call) :
  Forall lifecycle_entry (snd (Task.run t cs))
  /\ (forall (u : Task.t) (c : Task.call),
        match Task.invoke u c with
        | (u', Return _) => lifecycle_move (Task.status u) c (Task.status u')
        | (u', Raise e) =>
            e = ValueError /\ u' = u
            /\ forall s', ~ lifecycle_move (Task.status u) c s'
        end)
  /\ (forall (u : Task.t) (reason : string),
        snd (Task.fail u reason) = Return tt
        /\ Task.status (fst (Task.fail u reason)) = FAILED).
Proof.
  split; [apply run_lifecycle|split].
  - intros u c.
    pose proof (invoke_lifecycle u c) as Hl.
    pose proof (invoke_raise_unchanged u c) as Hu.
    destruct (Task.invoke u c) as [u' o]. simpl in *.
    destruct o as [[]|e]; [exact Hl|].
    destruct Hl as (He & _ & Hno). repeat split; auto.
  - intros u reason. unfold Task.fail.
    destruct (truthy reason); simpl; auto.
Qed.

(* ================================================================== *)
(** * The task registry                                                *)
(* ================================================================== *)

(** C10.  [update_task_status] on a task of the registry stores the given
    status, whatever the current one is, returns [True] and leaves every
    other field of the task (the assigned robot among them), every other
    task and the order of the registry as they were; on an unknown
    identifier it returns [False] and the registry is unchanged. *)
Theorem update_task_status_unchecked
    (self : TaskService.t) (task_id : string) (s : TaskStatus) :
  match TaskService.get_task self task_id with
  | Some task =>
      let (self', r) := TaskService.update_task_status self task_id s in
      r = true
      /\ TaskService.get_task self' task_id = Some (Task.set_status task s)
      /\ Task.status (Task.set_status task s) = s
      /\ Task.assigned_robot (Task.set_status task s) = Task.assigned_robot task
      /\ keys (TaskService._tasks self') = keys (TaskService._tasks self)
      /\ (forall k, k <> task_id ->
            TaskService.get_task self' k = TaskService.get_task self k)
  | None => TaskService.update_task_status self task_id s = (self, false)
  end.
Proof.
  unfold TaskService.get_task, TaskService.update_task_status.
  destruct (get (TaskService._tasks self) task_id) as [task|] eqn:E; [|reflexivity].
  simpl. repeat split.
  - apply get_set_same.
  - now apply keys_set_present with (v' := task).
  - intros k Hk. apply get_set_other. congruence.
Qed.

(** The lifecycle forbids COMPLETED to PENDING; the registry does it. *)
Example update_task_status_completed_to_pending :
  let t := Sample.task "T1" (Sample.at_ 0 0) 1 COMPLETED in
  let reg := TaskService.Build [("T1", t)] in
  (forall c s', Task.invoke t c = (s', Return tt) -> Task.status s' <> PENDING)
  /\ TaskService.update_task_status reg "T1" PENDING
     = (TaskService.Build [("T1", Sample.task "T1" (Sample.at_ 0 0) 1 PENDING)], true).
Proof.
  split; [|reflexivity].
  intros c s' H. destruct c; simpl in H; try discriminate.
  unfold Task.fail in H. destruct (truthy reason); inversion H; simpl; discriminate.
Qed.

(* ================================================================== *)
(** * Rejected transitions                                             *)
(* ================================================================== *)

Lemma robot_assign_task_raise (r : Robot.t) (task_id : string) :
  match Robot.assign_task r task_id with
  | (r', Raise e) => e = ValueError /\ r' = r /\ Robot.is_available r = false
  | (r', Return _) =>
      Robot.is_available r = true
      /\ Robot.status r' = BUSY /\ Robot.current_task r' = Some task_id
  end.
Proof.
  unfold Robot.assign_task.
  destruct (Robot.is_available r); simpl; auto.
Qed.

(** When [assign_task] of the scheduler raises, either the exception is
    [SchedulerError] and the task object has been reset, or the exception
    comes from the distances and the task is stored as it was given. *)
Lemma assign_task_raise_resets {L : Libm} (self self' : RobotScheduler.t)
    (task : Task.t) (e : exn) :
  RobotScheduler.assign_task self task = (self', Raise e) ->
  (e = SchedulerError
   /\ get (RobotScheduler.tasks self') (Task.task_id task)
      = Some (RobotScheduler.reset_task task))
  \/ (e <> SchedulerError
      /\ RobotScheduler._find_best_robot (RobotScheduler.add_task self task) task
         = Raise e
      /\ self' = RobotScheduler.add_task self task).
Proof.
  unfold RobotScheduler.assign_task.
  destruct (RobotScheduler._find_best_robot _ task) as [[[rk r]|]|e'] eqn:Eb;
    [|discriminate|].
  - unfold Robot.assign_task.
    destruct (Robot.is_available r) eqn:Ea; simpl.
    + unfold Task.assign_to_robot.
      destruct (Task.is_pending task) eqn:Ep; simpl; [discriminate|].
      intros H. inversion H; subst. left. split; [reflexivity|]. simpl.
      apply get_set_same.
    + intros H. inversion H; subst. left. split; [reflexivity|]. simpl.
      apply get_set_same.
  - intros H. inversion H; subst. right. split; [|split; reflexivity].
    intros ->. now apply (find_best_robot_exn _ _ Eb).
Qed.

(** C2, as amended.  A rejected call of an entity leaves the entity as it
    was: [Robot.assign_task] on a robot that is not available, and
    [assign_to_robot], [start_execution] and [complete] of a task from a
    status that does not allow them, raise [ValueError] and change no
    field.  When [assign_task] of the scheduler fails with
    [SchedulerError], the task is left PENDING with no assigned robot,
    whatever its status was; with valid positions and an accurate library
    it fails in no other way.  An exception other than [SchedulerError]
    comes from the distances, and leaves the task stored as it was
    given. *)
Theorem rejected_calls {L : Libm} (self : RobotScheduler.t) (task : Task.t) :
  (forall (r : Robot.t) (task_id : string),
      Robot.is_available r = false ->
      Robot.assign_task r task_id = (r, Raise ValueError))
  /\ (forall (t : Task.t) (c : Task.call) (t' : Task.t) (e : exn),
        Task.invoke t c = (t', Raise e) -> e = ValueError /\ t' = t)
  /\ (forall self' : RobotScheduler.t,
        RobotScheduler.assign_task self task = (self', Raise SchedulerError) ->
        exists task',
          get (RobotScheduler.tasks self') (Task.task_id task) = Some task'
          /\ Task.status task' = PENDING
          /\ Task.assigned_robot task' = None)
  /\ (accurate L ->
      Position.valid (Task.target_position task) = true ->
      valid_positions self ->
      forall (self' : RobotScheduler.t) (e : exn),
        RobotScheduler.assign_task self task = (self', Raise e) ->
        e = SchedulerError
        /\ exists task',
            get (RobotScheduler.tasks self') (Task.task_id task) = Some task'
            /\ Task.status task' = PENDING
            /\ Task.assigned_robot task' = None)
  /\ (forall (self' : RobotScheduler.t) (e : exn),
        RobotScheduler.assign_task self task = (self', Raise e) ->
        e <> SchedulerError ->
        self' = RobotScheduler.add_task self task
        /\ RobotScheduler._find_best_robot self' task = Raise e).
Proof.
  split; [|split; [|split; [|split]]].
  - intros r task_id Ha. unfold Robot.assign_task. now rewrite Ha.
  - intros t c t' e H.
    pose proof (invoke_lifecycle t c) as Hl.
    pose proof (invoke_raise_unchanged t c) as Hu.
    rewrite H in Hl, Hu. simpl in Hl, Hu.
    destruct Hl as (He & _). split; auto.
  - intros self' H.
    destruct (assign_task_raise_resets _ _ _ _ H) as [[_ Hg]|[Hne _]];
      [|congruence].
    eexists. split; [exact Hg|]. split; reflexivity.
  - intros Hacc Ht Hv self' e H.
    destruct (assign_task_raise_resets _ _ _ _ H) as [[He Hg]|(_ & Hf & _)].
    + split; [exact He|]. eexists. split; [exact Hg|]. split; reflexivity.
    + pose proof (find_best_robot_closest (RobotScheduler.add_task self task) task
                    Hacc Ht Hv) as Hb.
      destruct (RobotScheduler.get_available_robots _) as [|r0 l].
      * rewrite Hb in Hf. discriminate.
      * destruct Hb as (best & Hb & _). rewrite Hb in Hf. discriminate.
  - intros self' e H Hne.
    destruct (assign_task_raise_resets _ _ _ _ H) as [[He _]|(_ & Hf & ->)];
      [congruence|].
    split; [reflexivity|exact Hf].
Qed.

Lemma rejected_calls_witness :
  exists self',
    RobotScheduler.assign_task (L := correctly_rounded) one_robot completed_task
    = (self', Raise SchedulerError)
    /\ exists task',
        get (RobotScheduler.tasks self') "T1" = Some task'
        /\ Task.status task' = PENDING
        /\ Task.assigned_robot task' = None.
Proof.
  eexists. split; [vm_compute; reflexivity|].
  assert (Hv : valid_positions one_robot) by (repeat constructor).
  pose proof (rejected_calls (L := correctly_rounded) one_robot completed_task)
    as (_ & _ & _ & H & _).
  destruct (H correctly_rounded_accurate eq_refl Hv _ SchedulerError eq_refl)
    as (_ & Ht).
  exact Ht.
Defined.

(** On every platform with an accurate library, [assign_task] of a
    completed task with one idle robot raises [SchedulerError], leaves
    the robot BUSY with the task and the task PENDING. *)
Lemma assign_task_completed_one_robot {L : Libm} :
  accurate L ->
  RobotScheduler.assign_task one_robot completed_task
  = (RobotScheduler.Build
       [("R1", Robot.Build "R1" "robot" (Sample.at_ 0 0) BUSY (Some "T1") 100 0)]
       [("T1", Sample.task "T1" (Sample.at_ 3 4) 1 PENDING)],
     Raise SchedulerError).
Proof.
  intros Hacc.
  assert (Hv : valid_positions one_robot) by (repeat constructor).
  pose proof (find_best_robot_closest
                (RobotScheduler.add_task one_robot completed_task) completed_task
                Hacc eq_refl Hv) as Hb.
  change (RobotScheduler.get_available_robots
            (RobotScheduler.add_task one_robot completed_task))
    with [("R1", Sample.robot "R1" (Sample.at_ 0 0))] in Hb.
  destruct Hb as (best & Hb & (l1 & l2 & Hl & _)).
  assert (best = ("R1", Sample.robot "R1" (Sample.at_ 0 0))).
  { destruct l1 as [|x l1]; [now inversion Hl|].
    inversion Hl as [[Hx Hl']]. now destruct l1. }
  subst best. unfold RobotScheduler.assign_task. rewrite Hb. reflexivity.
Qed.

(** C2, as the claim has it, fails: [assign_task] raises [SchedulerError]
    on a completed task, and by then the robot has become BUSY with the
    task and the task has gone from COMPLETED to PENDING.  That is so
    with correctly rounded powers, and with every accurate library. *)
Lemma assign_task_failure_commits :
  (exists self',
     RobotScheduler.assign_task (L := correctly_rounded) one_robot completed_task
     = (self', Raise SchedulerError)
     /\ get (RobotScheduler.robots one_robot) "R1"
        = Some (Sample.robot "R1" (Sample.at_ 0 0))
     /\ get (RobotScheduler.robots self') "R1"
        = Some (Robot.Build "R1" "robot" (Sample.at_ 0 0) BUSY (Some "T1") 100 0)
     /\ get (RobotScheduler.tasks self') "T1"
        = Some (Sample.task "T1" (Sample.at_ 3 4) 1 PENDING)
     /\ get (RobotScheduler.robots self') "R1"
        <> get (RobotScheduler.robots one_robot) "R1"
     /\ get (RobotScheduler.tasks self') "T1" <> Some completed_task)
  /\ (forall L : Libm,
        accurate L ->
        RobotScheduler.assign_task one_robot completed_task
        = (RobotScheduler.Build
             [("R1", Robot.Build "R1" "robot" (Sample.at_ 0 0) BUSY (Some "T1") 100 0)]
             [("T1", Sample.task "T1" (Sample.at_ 3 4) 1 PENDING)],
           Raise SchedulerError)).
Proof.
  split.
  - eexists. split; [vm_compute; reflexivity|].
    repeat split; try (vm_compute; discriminate).
  - intros L Hacc. now apply assign_task_completed_one_robot.
Qed.

(* ================================================================== *)
(** * Removing a robot, completing a task                              *)
(* ================================================================== *)

Lemma startswith_truthy (s : string) (c : ascii) :
  startswith s (String c EmptyString) = true -> truthy s = true.
Proof. destruct s; simpl; [discriminate|reflexivity]. Qed.

Lemma contains_get (V : Type) (d : dict V) (k : string) :
  contains d k = match get d k with Some _ => true | None => false end.
Proof. reflexivity. Qed.

(** C3.  [unregister_robot] on the key of a registered robot U that holds
    task X (the key in [current_task] is the identifier of X, under which
    X is stored) sets the status of X to PENDING and its assigned robot to
    [None] whatever the status of X was, keeps the other fields of X and
    the other tasks, removes U and returns [True]; on an absent key it
    returns [False] and changes nothing. *)
Theorem unregister_robot_resets_task (self : RobotScheduler.t) (robot_id : string) :
  wf (RobotScheduler.robots self) ->
  match get (RobotScheduler.robots self) robot_id with
  | None => RobotScheduler.unregister_robot self robot_id = (self, false)
  | Some U =>
      forall X : Task.t,
        Robot.current_task U = Some (Task.task_id X) ->
        startswith (Task.task_id X) "T" = true ->
        get (RobotScheduler.tasks self) (Task.task_id X) = Some X ->
        let (self', r) := RobotScheduler.unregister_robot self robot_id in
        r = true
        /\ get (RobotScheduler.tasks self') (Task.task_id X)
           = Some (Task.set_assigned_robot (Task.set_status X PENDING) None)
        /\ get (RobotScheduler.robots self') robot_id = None
        /\ (forall k, k <> robot_id ->
              get (RobotScheduler.robots self') k = get (RobotScheduler.robots self) k)
        /\ (forall k, k <> Task.task_id X ->
              get (RobotScheduler.tasks self') k = get (RobotScheduler.tasks self) k)
  end.
Proof.
  intros Hwf. unfold RobotScheduler.unregister_robot. rewrite contains_get.
  destruct (get (RobotScheduler.robots self) robot_id) as [U|] eqn:EU; simpl;
    [|reflexivity].
  intros X Hc Hid HX. rewrite Hc, (startswith_truthy _ _ Hid), HX. simpl.
  split; [reflexivity|]. split; [apply get_set_same|].
  split; [now apply get_del_same|]. split.
  - intros k Hk. apply get_del_other. congruence.
  - intros k Hk. apply get_set_other. congruence.
Qed.

Lemma unregister_robot_resets_task_witness :
  wf (RobotScheduler.robots holding)
  /\ get (RobotScheduler.tasks (fst (RobotScheduler.unregister_robot holding "R1"))) "T1"
     = Some (Task.Build "T1" DELIVERY (Sample.at_ 3 4) 1 PENDING None 0 30 "").
Proof.
  assert (Hwf : wf (RobotScheduler.robots holding)).
  { unfold wf. simpl. constructor; [intros []|constructor]. }
  split; [exact Hwf|].
  pose proof (unregister_robot_resets_task holding "R1" Hwf) as H.
  simpl in H.
  specialize (H (Task.Build "T1" DELIVERY (Sample.at_ 3 4) 1 COMPLETED (Some "R1") 0 30 "")
                eq_refl eq_refl eq_refl).
  vm_compute in H. destruct H as (_ & H & _).
  vm_compute. exact H.
Defined.

(** C4.  [complete_task] on a task T whose [assigned_robot] is the key of
    a registered robot U releases U (IDLE, no current task) whatever the
    status of T is; it returns [True] when T was IN_PROGRESS and otherwise
    returns [False] without raising, T staying as it was and the release
    of U being kept.  On an absent identifier it raises
    [TaskNotFoundError]. *)
Theorem complete_task_releases_robot (self : RobotScheduler.t) (task_id : string) :
  match get (RobotScheduler.tasks self) task_id with
  | None =>
      RobotScheduler.complete_task self task_id = (self, Raise TaskNotFoundError)
  | Some T =>
      forall (robot_key : string) (U : Robot.t),
        Task.assigned_robot T = Some robot_key ->
        truthy robot_key = true ->
        get (RobotScheduler.robots self) robot_key = Some U ->
        let (self', o) := RobotScheduler.complete_task self task_id in
        (exists U',
            get (RobotScheduler.robots self') robot_key = Some U'
            /\ U' = Robot.complete_task U
            /\ Robot.status U' = IDLE /\ Robot.current_task U' = None)
        /\ o = Return (TaskStatus_eqb (Task.status T) IN_PROGRESS)
        /\ (Task.status T <> IN_PROGRESS ->
              o = Return false
              /\ get (RobotScheduler.tasks self') task_id = Some T)
  end.
Proof.
  unfold RobotScheduler.complete_task.
  destruct (get (RobotScheduler.tasks self) task_id) as [T|] eqn:ET; [|reflexivity].
  intros rk U Ha Ht HU.
  unfold RobotScheduler.release_robot. rewrite Ha, Ht, HU.
  unfold Task.complete.
  destruct (TaskStatus_eqb (Task.status T) IN_PROGRESS) eqn:Es; simpl.
  - split; [|split; [reflexivity|]].
    + eexists. split; [apply get_set_same|]. repeat split.
    + intros Hn. exfalso. apply Hn. now apply TaskStatus_eqb_eq.
  - split; [|split; [reflexivity|]].
    + eexists. split; [apply get_set_same|]. repeat split.
    + intros _. split; [reflexivity|]. apply get_set_same.
Qed.

Lemma complete_task_releases_robot_witness :
  get (RobotScheduler.robots (fst (RobotScheduler.complete_task holding "T1"))) "R1"
  = Some (Robot.Build "R1" "robot" (Sample.at_ 0 0) IDLE None 100 0)
  /\ snd (RobotScheduler.complete_task holding "T1") = Return false.
Proof.
  pose proof (complete_task_releases_robot holding "T1") as H.
  simpl in H.
  specialize (H "R1" _ eq_refl eq_refl eq_refl).
  destruct H as ((U' & Hg & HU & _) & Ho & _).
  subst U'. split; [exact Hg|exact Ho].
Defined.

(* ================================================================== *)
(** * The length of the description                                    *)
(* ================================================================== *)

(** C8.  The constructor accepts a description of 500 characters, the
    longest the field allows; [fail] with the one-character reason ["x"]
    then stores a description of 508 characters.  The bound of 500 does
    not survive [fail]. *)
Theorem fail_outgrows_description :
  exists t : Task.t,
    Task.init "T002" PATROL (Sample.at_ 0 0) 1 0 30 (Some (Sample.letters 500)) = Some t
    /\ len (Task.description t) = 500
    /\ Task.invoke t (Task.Fail "x")
       = (Task.set_description (Task.set_status t FAILED)
            (Sample.letters 500 ++ Task.failure_label ++ "x")%string,
          Return tt)
    /\ len (Task.description (fst (Task.invoke t (Task.Fail "x")))) = 508.
Proof.
  eexists. split; [vm_compute; reflexivity|].
  split; [vm_compute; reflexivity|].
  split; vm_compute; reflexivity.
Qed.

(* ================================================================== *)
(** * Pending tasks, by priority                                       *)
(* ================================================================== *)

Section SortedFacts.
Variable A : Type.
Variable key : A -> Z.

Lemma insert_desc_perm (a : A) (l : list A) :
  Permutation (insert_desc key a l) (a :: l).
Proof.
  induction l as [|b l IH]; simpl.
  - apply Permutation_refl.
  - destruct (key a <? key b)%Z.
    + apply perm_trans with (b :: a :: l).
      * now apply perm_skip.
      * apply perm_swap.
    + apply Permutation_refl.
Qed.

Lemma sorted_desc_perm (l : list A) : Permutation (sorted_desc key l) l.
Proof.
  induction l as [|a l IH]; simpl.
  - apply perm_nil.
  - apply perm_trans with (a :: sorted_desc key l).
    + apply insert_desc_perm.
    + now apply perm_skip.
Qed.

Lemma insert_desc_sorted (a : A) (l : list A) :
  StronglySorted (fun u v => (key v <= key u)%Z) l ->
  StronglySorted (fun u v => (key v <= key u)%Z) (insert_desc key a l).
Proof.
  induction l as [|b l IH]; simpl; intros Hs.
  - constructor; constructor.
  - inversion Hs as [|? ? Hl Hb]; subst.
    destruct (Z.ltb_spec (key a) (key b)) as [Hlt|Hge].
    + constructor; [now apply IH|].
      rewrite Forall_forall in *. intros u Hu.
      apply (Permutation_in _ (insert_desc_perm a l)) in Hu.
      destruct Hu as [<-|Hu]; [lia|now apply Hb].
    + constructor; [exact Hs|].
      constructor; [lia|].
      rewrite Forall_forall in *. intros u Hu.
      specialize (Hb u Hu). simpl in Hb. lia.
Qed.

Lemma sorted_desc_sorted (l : list A) :
  StronglySorted (fun u v => (key v <= key u)%Z) (sorted_desc key l).
Proof.
  induction l as [|a l IH]; simpl.
  - constructor.
  - now apply insert_desc_sorted.
Qed.

(** Stability: the elements with a given key keep their order. *)
Lemma insert_desc_stable (p : Z) (a : A) (l : list A) :
  filter (fun u => (key u =? p)%Z) (insert_desc key a l)
  = filter (fun u => (key u =? p)%Z) (a :: l).
Proof.
  induction l as [|b l IH]; simpl; [reflexivity|].
  destruct (Z.ltb_spec (key a) (key b)) as [Hlt|Hge]; [|reflexivity].
  simpl in *. rewrite IH.
  destruct (Z.eqb_spec (key a) p) as [Ha|Ha];
    destruct (Z.eqb_spec (key b) p) as [Hb|Hb]; try reflexivity.
  lia.
Qed.

Lemma sorted_desc_stable (p : Z) (l : list A) :
  filter (fun u => (key u =? p)%Z) (sorted_desc key l)
  = filter (fun u => (key u =? p)%Z) l.
Proof.
  induction l as [|a l IH]; simpl; [reflexivity|].
  rewrite insert_desc_stable. simpl. now rewrite IH.
Qed.

End SortedFacts.

(** C6.  [get_pending_tasks] returns the tasks of the collection whose
    status is PENDING, each as often as it is there, by descending
    priority, and pending tasks of equal priority come in the order the
    collection has them in, which is the order of insertion. *)
Theorem get_pending_tasks_sorted_stable (self : RobotScheduler.t) :
  let pending := filter Task.is_pending (values (RobotScheduler.tasks self)) in
  let result := RobotScheduler.get_pending_tasks self in
  Permutation result pending
  /\ (forall t, In t result <->
        In t (values (RobotScheduler.tasks self)) /\ Task.status t = PENDING)
  /\ StronglySorted priority_ge result
  /\ (forall p, with_priority p result = with_priority p pending).
Proof.
  unfold RobotScheduler.get_pending_tasks. simpl.
  split; [apply sorted_desc_perm|]. split; [|split].
  - intros t. split.
    + intros H. apply (Permutation_in _ (sorted_desc_perm _ Task.priority _)) in H.
      apply filter_In in H. destruct H as [Hi Hp].
      split; [exact Hi|]. now apply TaskStatus_eqb_eq.
    + intros [Hi Hp].
      apply (Permutation_in _ (Permutation_sym (sorted_desc_perm _ Task.priority _))).
      apply filter_In. split; [exact Hi|]. now apply TaskStatus_eqb_eq.
  - apply sorted_desc_sorted.
  - intros p. apply sorted_desc_stable.
Qed.

(** Two pending tasks of priority 2 around one of priority 5 and a
    completed one: priority 5 first, then the two in their order. *)
Example get_pending_tasks_example :
  let a := Sample.task "Ta" (Sample.at_ 0 0) 2 PENDING in
  let b := Sample.task "Tb" (Sample.at_ 0 0) 5 PENDING in
  let c := Sample.task "Tc" (Sample.at_ 0 0) 4 COMPLETED in
  let d := Sample.task "Td" (Sample.at_ 0 0) 2 PENDING in
  RobotScheduler.get_pending_tasks
    (RobotScheduler.Build [] [("Ta", a); ("Tb", b); ("Tc", c); ("Td", d)])
  = [b; a; d].
Proof. reflexivity. Qed.

(* ================================================================== *)
(** * Automatic assignment of the pending tasks                        *)
(* ================================================================== *)

Section DictUpdates.
Variable V : Type.
Implicit Types (d : dict V) (k : string) (v : V).

Lemma keyed_by_set (id : V -> string) d k v :
  keyed_by id d -> k = id v -> keyed_by id (set d k v).
Proof.
  unfold keyed_by. intros Hd Hk.
  induction d as [|[k0 v0] d IH]; simpl.
  - constructor; [exact Hk|constructor].
  - inversion Hd as [|? ? H0 Hd']; subst.
    destruct (String.eqb_spec (id v) k0) as [E|E].
    + constructor; [simpl; congruence|exact Hd'].
    + constructor; [exact H0|now apply IH].
Qed.

Lemma Forall_values_set (Q : V -> Prop) d k v :
  Forall (fun kv => Q (snd kv)) d -> Q v ->
  Forall (fun kv => Q (snd kv)) (set d k v).
Proof.
  intros Hd Hv. induction d as [|[k0 v0] d IH]; simpl.
  - constructor; [exact Hv|constructor].
  - inversion Hd as [|? ? H0 Hd']; subst.
    destruct (String.eqb k k0); constructor; auto.
Qed.

Lemma wf_set_present d k v v' : wf d -> get d k = Some v' -> wf (set d k v).
Proof. unfold wf. intros Hd Hg. now rewrite (keys_set_present _ d k v v' Hg). Qed.

Lemma length_set_le d k v : List.length (set d k v) <= S (List.length d).
Proof.
  induction d as [|[k0 v0] d IH]; simpl; [lia|].
  destruct (String.eqb k k0); simpl; lia.
Qed.

(** Replacing an entry that passes a filter by one that does not. *)
Lemma filter_set_drop (f : V -> bool) d k v v' :
  get d k = Some v -> f v = true -> f v' = false ->
  S (List.length (filter (fun kv => f (snd kv)) (set d k v')))
  = List.length (filter (fun kv => f (snd kv)) d).
Proof.
  intros Hg Hv Hv'. induction d as [|[k0 v0] d IH]; simpl in *; [discriminate|].
  destruct (String.eqb k k0); simpl.
  - inversion Hg; subst. now rewrite Hv, Hv'.
  - destruct (f v0); simpl; rewrite IH; auto.
Qed.

Lemma values_keyed_get (id : V -> string) d v :
  wf d -> keyed_by id d -> In v (values d) -> get d (id v) = Some v.
Proof.
  intros Hwf Hk Hin. unfold values in Hin. apply in_map_iff in Hin.
  destruct Hin as ([k v'] & Hs & Hin). simpl in Hs. subst v'.
  unfold keyed_by in Hk. rewrite Forall_forall in Hk.
  pose proof (Hk _ Hin) as E. simpl in E. subst k.
  now apply In_get.
Qed.

Lemma keyed_by_keys (id : V -> string) d :
  keyed_by id d -> map id (values d) = keys d.
Proof.
  unfold keyed_by, values, keys. induction 1 as [|[k v] d H _ IH]; simpl.
  - reflexivity.
  - simpl in H. now rewrite IH, H.
Qed.

Lemma set_absent d k v : get d k = None -> set d k v = d ++ [(k, v)].
Proof.
  induction d as [|[k0 v0] d IH]; simpl; [reflexivity|].
  destruct (String.eqb k k0); [discriminate|]. intros H. now rewrite IH.
Qed.

Lemma In_set d k v (kv : string * V) :
  In kv (set d k v) -> snd kv = v \/ In kv d.
Proof.
  induction d as [|[k0 v0] d IH]; simpl.
  - intros [<-|[]]. now left.
  - destruct (String.eqb k k0); simpl.
    + intros [<-|H]; [now left|right; now right].
    + intros [<-|H]; [right; now left|].
      destruct (IH H) as [E|Hin]; [now left|right; now right].
Qed.

(** Entries with distinct keys and values that name their key apart have
    distinct values. *)
Lemma NoDup_values d :
  wf d ->
  (forall k1 k2 v, In (k1, v) d -> In (k2, v) d -> k1 = k2) ->
  NoDup (values d).
Proof.
  unfold wf, keys, values. induction d as [|[k0 v0] d IH]; simpl; intros Hk Hinj.
  - constructor.
  - inversion Hk as [|? ? Hn Hd]; subst. constructor.
    + intros Hin. apply in_map_iff in Hin. destruct Hin as ([k1 v1] & E & Hin).
      simpl in E. subst v1.
      assert (k1 = k0) by (apply (Hinj k1 k0 v0); [right; exact Hin|now left]).
      subst k1. apply Hn. apply in_map_iff. now exists (k0, v0).
    + apply IH; [exact Hd|]. intros k1 k2 v H1 H2.
      apply (Hinj k1 k2 v); now right.
Qed.

End DictUpdates.

Lemma NoDup_map_filter (A B : Type) (g : A -> B) (f : A -> bool) (l : list A) :
  NoDup (map g l) -> NoDup (map g (filter f l)).
Proof.
  induction l as [|a l IH]; simpl; intros H; [constructor|].
  inversion H as [|? ? Hn Hd]; subst.
  destruct (f a); simpl; [|now apply IH].
  constructor; [|now apply IH].
  intros Hin. apply Hn. apply in_map_iff in Hin.
  destruct Hin as (x & Hx & Hin). apply filter_In in Hin.
  apply in_map_iff. exists x. tauto.
Qed.

(** The snapshot of a well-formed scheduler: pending tasks with pairwise
    distinct identifiers, each stored under its identifier. *)
Lemma get_pending_tasks_snapshot (self : RobotScheduler.t) :
  well_formed self ->
  NoDup (map Task.task_id (RobotScheduler.get_pending_tasks self))
  /\ forall t, In t (RobotScheduler.get_pending_tasks self) ->
       Task.is_pending t = true
       /\ get (RobotScheduler.tasks self) (Task.task_id t) = Some t.
Proof.
  intros (_ & _ & _ & Hwf & Hk).
  pose proof (sorted_desc_perm _ Task.priority
                (filter Task.is_pending (values (RobotScheduler.tasks self)))) as Hp.
  fold (RobotScheduler.get_pending_tasks self) in Hp.
  split.
  - apply (Permutation_NoDup (Permutation_sym (Permutation_map Task.task_id Hp))).
    apply NoDup_map_filter. rewrite (keyed_by_keys _ _ _ Hk). exact Hwf.
  - intros t Hin. apply (Permutation_in _ Hp) in Hin.
    apply filter_In in Hin. destruct Hin as [Hin Hpend].
    split; [exact Hpend|]. now apply values_keyed_get.
Qed.

(** The robot found is one of the available robots. *)
Lemma closer_fold_In {L : Libm} (task : Task.t) (l : list (string * Robot.t)) :
  forall (acc : outcome (option (string * Robot.t) * float))
         (b : string * Robot.t) (d : float),
    fold_left (RobotScheduler.closer task) l acc = Return (Some b, d) ->
    (exists d0, acc = Return (Some b, d0)) \/ In b l.
Proof.
  induction l as [|r l IH]; intros acc b d H; cbn [fold_left] in H.
  - left. now exists d.
  - apply IH in H. destruct H as [[d0 H]|H]; [|right; now right].
    unfold RobotScheduler.closer in H.
    destruct acc as [[best min_distance]|e]; [|discriminate].
    destruct (Position.distance_to _ _) as [dist|e]; [|discriminate].
    destruct (dist <? min_distance)%float; inversion H; subst.
    + right. now left.
    + left. now exists d0.
Qed.

Lemma find_best_robot_available {L : Libm} (self : RobotScheduler.t) (task : Task.t)
    (b : string * Robot.t) :
  RobotScheduler._find_best_robot self task = Return (Some b) ->
  In b (RobotScheduler.get_available_robots self).
Proof.
  unfold RobotScheduler._find_best_robot.
  destruct (RobotScheduler.get_available_robots self) as [|r0 l]; [discriminate|].
  destruct (fold_left _ _ _) as [[best d]|e] eqn:E; [|discriminate].
  intros H. inversion H; subst best.
  apply closer_fold_In in E. destruct E as [[d0 E]|E]; [discriminate|exact E].
Qed.

Lemma add_task_stored (self : RobotScheduler.t) (t : Task.t) :
  get (RobotScheduler.tasks self) (Task.task_id t) = Some t ->
  RobotScheduler.add_task self t = self.
Proof.
  intros H. unfold RobotScheduler.add_task, RobotScheduler.set_tasks.
  rewrite (set_get_id _ _ _ _ H). now destruct self.
Qed.

(** [assign_task] on a pending task that the scheduler holds, with valid
    positions and an accurate library: without an available robot nothing
    changes, and otherwise an available robot takes the task. *)
Lemma assign_task_stored_pending {L : Libm} (self : RobotScheduler.t) (t : Task.t) :
  accurate L ->
  Position.valid (Task.target_position t) = true ->
  valid_positions self ->
  get (RobotScheduler.tasks self) (Task.task_id t) = Some t ->
  Task.is_pending t = true ->
  match RobotScheduler.get_available_robots self with
  | [] => RobotScheduler.assign_task self t = (self, Return None)
  | _ :: _ =>
      exists rk r,
        In (rk, r) (RobotScheduler.get_available_robots self)
        /\ RobotScheduler.assign_task self t
           = (RobotScheduler.Build
                (set (RobotScheduler.robots self) rk (busy_with r (Task.task_id t)))
                (set (RobotScheduler.tasks self) (Task.task_id t)
                   (assigned_to t (Robot.robot_id r))),
              Return (Some (Robot.robot_id r)))
  end.
Proof.
  intros Hacc Ht Hv Hg Hp. unfold RobotScheduler.assign_task.
  rewrite (add_task_stored self t Hg).
  pose proof (find_best_robot_closest self t Hacc Ht Hv) as Hb.
  destruct (RobotScheduler.get_available_robots self) as [|r0 l] eqn:Ea.
  - now rewrite Hb.
  - destruct Hb as ([rk r] & Eb & _). rewrite Eb.
    pose proof (find_best_robot_available self t _ Eb) as Hin.
    exists rk, r. rewrite <- Ea. split; [exact Hin|].
    apply filter_In in Hin. destruct Hin as [_ Hav]. cbn [snd] in Hav.
    unfold Robot.assign_task. rewrite Hav. cbn [negb].
    unfold Task.assign_to_robot. rewrite Hp. reflexivity.
Qed.

Lemma available_is_idle (r : Robot.t) :
  Robot.is_available r = true -> Robot.status r = IDLE.
Proof.
  unfold Robot.is_available. intros H. apply andb_true_iff in H.
  now apply RobotStatus_eqb_eq.
Qed.

(** The first [n] elements, when one more element comes at the end. *)
Lemma firstn_snoc_full (A : Type) (n : nat) (l : list A) (a : A) :
  n <= List.length l -> firstn n (l ++ [a]) = firstn n l.
Proof.
  intros H. rewrite firstn_app.
  replace (n - List.length l) with 0 by lia. cbn [firstn]. apply app_nil_r.
Qed.

Lemma firstn_snoc_short (A : Type) (n : nat) (l : list A) (a : A) :
  List.length l < n -> firstn n l = l /\ firstn n (l ++ [a]) = l ++ [a].
Proof.
  intros H. split; apply firstn_all2; [lia|]. rewrite length_app. cbn. lia.
Qed.

(** One turn of the loop keeps the invariant. *)
Lemma auto_assign_step_keeps {L : Libm} (self0 : RobotScheduler.t)
    (done todo : list Task.t) (t : Task.t) (s : RobotScheduler.t) (m : dict string) :
  accurate L ->
  NoDup (map Task.task_id (done ++ t :: todo)) ->
  Task.is_pending t = true ->
  Position.valid (Task.target_position t) = true ->
  auto_assign_inv self0 done (t :: todo) s m ->
  exists s' m',
    RobotScheduler.auto_assign_step (s, m, None) t = (s', m', None)
    /\ auto_assign_inv self0 (done ++ [t]) todo s' m'.
Proof.
  intros Hacc Hnd Hp Hvt [Hwf Hkey Hids Hpos Htodo Hun Has Hav0 Hkeys Hcount].
  assert (Hg : get (RobotScheduler.tasks s) (Task.task_id t) = Some t)
    by (apply Htodo; now left).
  assert (Hlen : List.length m
                 = Nat.min (List.length (RobotScheduler.get_available_robots self0))
                     (List.length done)).
  { rewrite <- (length_map fst m). change (map fst m) with (keys m).
    now rewrite Hkeys, length_map, length_firstn. }
  assert (Hfresh : ~ In (Task.task_id t) (map Task.task_id done)
                   /\ ~ In (Task.task_id t) (map Task.task_id todo)).
  { rewrite map_app in Hnd. cbn [map] in Hnd.
    apply NoDup_remove_2 in Hnd. split; intros Hin; apply Hnd;
      apply in_or_app; auto. }
  destruct Hfresh as [Hfresh1 Hfresh2].
  unfold RobotScheduler.auto_assign_step.
  pose proof (assign_task_stored_pending s t Hacc Hvt Hpos Hg Hp) as Hassign.
  destruct (RobotScheduler.get_available_robots s) as [|a0 al] eqn:Ea.
  - (* no robot: nothing changes *)
    rewrite Hassign. exists s, m. split; [reflexivity|].
    cbn [List.length] in Hcount.
    constructor; auto.
    + intros u Hu. apply Htodo. now right.
    + intros u Hu Hm. apply in_app_or in Hu. destruct Hu as [Hu|[<-|[]]]; auto.
    + intros tid rid Hm. destruct (Has tid rid Hm) as (u & r & Hu & H).
      exists u, r. split; [apply in_or_app; now left|exact H].
    + rewrite Ea. intros kr [].
    + rewrite firstn_snoc_full; [exact Hkeys|lia].
    + rewrite Ea. exact Hcount.
  - (* robot [r], stored under [rk], takes the task *)
    destruct Hassign as (rk & r & Hin & E). rewrite E.
    assert (Hin0 : In (rk, r) (RobotScheduler.get_available_robots self0))
      by (apply Hav0; exact Hin).
    assert (Hshort : List.length done
                     < List.length (RobotScheduler.get_available_robots self0)).
    { cbn [List.length] in Hcount. lia. }
    destruct (firstn_snoc_short _ _ done t Hshort) as [Hf1 Hf2].
    rewrite Hf1 in Hkeys.
    rewrite <- Ea in Hin.
    apply filter_In in Hin. destruct Hin as [Hin Hav]. cbn [snd] in Hav.
    assert (Hrk : rk = Robot.robot_id r).
    { unfold keyed_by in Hkey. rewrite Forall_forall in Hkey.
      exact (Hkey _ Hin). }
    assert (Hgr : get (RobotScheduler.robots s) rk = Some r) by now apply In_get.
    assert (Hid : truthy (Robot.robot_id r) = true).
    { rewrite Forall_forall in Hids.
      apply (startswith_truthy _ "R"). exact (Hids _ Hin). }
    rewrite Hid.
    assert (Hmt : get m (Task.task_id t) = None).
    { apply get_None_keys. now rewrite Hkeys. }
    eexists. eexists. split; [reflexivity|].
    constructor; cbn [RobotScheduler.robots RobotScheduler.tasks].
    + now apply wf_set_present with (v' := r).
    + now apply keyed_by_set.
    + apply (Forall_values_set _
               (fun v => startswith (Robot.robot_id v) "R" = true)); auto.
      rewrite Forall_forall in Hids. exact (Hids _ Hin).
    + unfold valid_positions. cbn [RobotScheduler.robots].
      apply (Forall_values_set _
               (fun v => Position.valid (Robot.position v) = true)); [exact Hpos|].
      unfold valid_positions in Hpos. rewrite Forall_forall in Hpos.
      exact (Hpos _ Hin).
    + intros u Hu. rewrite get_set_other; [apply Htodo; now right|].
      intros Heq. apply Hfresh2. rewrite Heq. now apply in_map.
    + intros u Hu Hm.
      destruct (String.eqb_spec (Task.task_id t) (Task.task_id u)) as [Heq|Hne].
      * rewrite Heq, get_set_same in Hm. discriminate.
      * rewrite get_set_other in Hm by exact Hne.
        rewrite get_set_other by exact Hne.
        apply in_app_or in Hu. destruct Hu as [Hu|[<-|[]]]; [auto|congruence].
    + intros tid rid Hm.
      destruct (String.eqb_spec (Task.task_id t) tid) as [Heq|Hne].
      * subst tid. rewrite get_set_same in Hm. inversion Hm; subst rid.
        exists t, r.
        split; [apply in_or_app; right; now left|]. split; [reflexivity|].
        split; [apply get_set_same|].
        rewrite <- Hrk. split; [exact Hin0|apply get_set_same].
      * rewrite get_set_other in Hm by exact Hne.
        destruct (Has tid rid Hm) as (u & r0 & Hu & Hut & Hgt & Hr0 & Hgr0).
        exists u, r0. split; [apply in_or_app; now left|]. split; [exact Hut|].
        split; [rewrite get_set_other by exact Hne; exact Hgt|].
        split; [exact Hr0|].
        rewrite get_set_other; [exact Hgr0|].
        intros Heq. subst rid. rewrite Hgr in Hgr0. inversion Hgr0 as [Hb].
        pose proof (available_is_idle r Hav) as Hst. rewrite Hb in Hst.
        discriminate.
    + intros kr Hkr. unfold RobotScheduler.get_available_robots in Hkr.
      cbn [RobotScheduler.robots] in Hkr.
      apply filter_In in Hkr. destruct Hkr as [Hkr Hkav].
      apply In_set in Hkr. destruct Hkr as [Hkr|Hkr].
      * rewrite Hkr in Hkav. discriminate.
      * apply Hav0. rewrite <- Ea. apply filter_In. split; assumption.
    + rewrite (set_absent _ m _ _ Hmt). unfold keys in *.
      rewrite map_app, Hkeys, Hf2, map_app. reflexivity.
    + rewrite (set_absent _ m _ _ Hmt), length_app. cbn [List.length].
      pose proof (filter_set_drop _ Robot.is_available (RobotScheduler.robots s)
                    rk r (busy_with r (Task.task_id t)) Hgr Hav eq_refl) as Hd.
      unfold RobotScheduler.get_available_robots in *.
      cbn [RobotScheduler.robots] in *.
      rewrite Ea in Hd. cbn [List.length] in Hd, Hcount. lia.
Qed.

Lemma auto_assign_loop {L : Libm} (self0 : RobotScheduler.t) (todo : list Task.t) :
  accurate L ->
  forall (done : list Task.t) (s : RobotScheduler.t) (m : dict string),
    NoDup (map Task.task_id (done ++ todo)) ->
    (forall t, In t todo ->
       Task.is_pending t = true
       /\ Position.valid (Task.target_position t) = true) ->
    auto_assign_inv self0 done todo s m ->
    exists s' m',
      fold_left RobotScheduler.auto_assign_step todo (s, m, None) = (s', m', None)
      /\ auto_assign_inv self0 (done ++ todo) [] s' m'.
Proof.
  intros Hacc.
  induction todo as [|t todo IH]; intros done s m Hnd Hp Hinv; cbn [fold_left].
  - exists s, m. split; [reflexivity|]. now rewrite app_nil_r.
  - destruct (Hp t (or_introl eq_refl)) as [Hpt Hvt].
    destruct (auto_assign_step_keeps self0 done todo t s m Hacc Hnd Hpt Hvt Hinv)
      as (s1 & m1 & E & H1).
    rewrite E.
    replace (done ++ t :: todo) with ((done ++ [t]) ++ todo) in *
      by (rewrite <- app_assoc; reflexivity).
    apply IH; [exact Hnd| |exact H1].
    intros u Hu. apply Hp. now right.
Qed.

(** The first elements of a list without repetition have none. *)
Lemma NoDup_firstn_skipn (A : Type) (n : nat) (l : list A) :
  NoDup l ->
  NoDup (firstn n l) /\ forall a, In a (skipn n l) -> ~ In a (firstn n l).
Proof.
  intros H. rewrite <- (firstn_skipn n l) in H. split.
  - now apply NoDup_app_remove_r in H.
  - intros a Ha Hf. revert H. generalize (firstn n l) (skipn n l) Ha Hf.
    intros l1 l2 H2 H1. induction l1 as [|x l1 IH]; [destruct H1|].
    cbn [app]. intros H. inversion H as [|? ? Hn Hd]; subst.
    destruct H1 as [->|H1]; [|now apply IH].
    apply Hn. apply in_or_app. now right.
Qed.

Lemma In_firstn (A : Type) (n : nat) (l : list A) (a : A) :
  In a (firstn n l) -> In a l.
Proof.
  intros H. rewrite <- (firstn_skipn n l). apply in_or_app. now left.
Qed.

Lemma In_skipn (A : Type) (n : nat) (l : list A) (a : A) :
  In a (skipn n l) -> In a l.
Proof.
  intros H. rewrite <- (firstn_skipn n l). apply in_or_app. now right.
Qed.

(** C7.  On a well-formed scheduler with valid positions, and with an
    accurate library, [auto_assign_pending_tasks] does not raise, and the
    robots available when the call begins go to the first tasks of the
    snapshot of pending tasks, which is in descending priority: the
    mapping returned has, in that order, one entry for each of the first
    [n] tasks of the snapshot, [n] being the number of those robots, or
    for all of them when there are fewer.  The value of an entry is a
    robot that was available, no robot is the value of two entries, and
    after the call that robot is BUSY with the task and the task ASSIGNED
    to it.  The tasks of the snapshot beyond the first [n] are stored as
    they were, PENDING.  An identifier has an entry exactly when a task of
    the snapshot with that identifier is ASSIGNED after the call. *)
Theorem auto_assign_pending_tasks_partial {L : Libm} (self : RobotScheduler.t) :
  accurate L ->
  well_formed self ->
  valid_positions self ->
  valid_targets self ->
  let pending := RobotScheduler.get_pending_tasks self in
  let available := RobotScheduler.get_available_robots self in
  exists self' assignments,
    RobotScheduler.auto_assign_pending_tasks self = (self', Return assignments)
    /\ keys assignments = map Task.task_id (firstn (List.length available) pending)
    /\ List.length assignments = Nat.min (List.length available) (List.length pending)
    /\ (forall tid rid,
          get assignments tid = Some rid ->
          exists t r0,
            In t (firstn (List.length available) pending)
            /\ Task.task_id t = tid
            /\ In (rid, r0) available
            /\ get (RobotScheduler.robots self') rid = Some (busy_with r0 tid)
            /\ get (RobotScheduler.tasks self') tid = Some (assigned_to t rid))
    /\ NoDup (values assignments)
    /\ (forall t,
          In t (skipn (List.length available) pending) ->
          get assignments (Task.task_id t) = None
          /\ get (RobotScheduler.tasks self') (Task.task_id t) = Some t
          /\ Task.status t = PENDING)
    /\ (forall tid rid,
          get assignments tid = Some rid <->
          exists t,
            In t pending
            /\ Task.task_id t = tid
            /\ exists t',
                 get (RobotScheduler.tasks self') tid = Some t'
                 /\ Task.status t' = ASSIGNED
                 /\ Task.assigned_robot t' = Some rid).
Proof.
  intros Hacc Hwf Hvp Hvt pending available.
  destruct (get_pending_tasks_snapshot self Hwf) as [Hnd Hsnap].
  fold pending in Hnd, Hsnap.
  assert (Htargets : forall t, In t pending ->
            Task.is_pending t = true
            /\ Position.valid (Task.target_position t) = true).
  { intros t Hin. destruct (Hsnap t Hin) as [Hp Hg]. split; [exact Hp|].
    unfold valid_targets in Hvt. rewrite Forall_forall in Hvt.
    apply get_In in Hg. exact (Hvt _ Hg). }
  assert (Hinit : auto_assign_inv self [] pending self []).
  { destruct Hwf as (H1 & H2 & H3 & _).
    constructor; auto.
    - intros t Hin. now apply Hsnap.
    - intros t [].
    - intros tid rid H. discriminate.
    - now rewrite firstn_nil. }
  destruct (auto_assign_loop self pending Hacc [] self [] Hnd Htargets Hinit)
    as (s' & m' & E & [Hrwf _ _ _ _ Hun Has _ Hkeys Hcount]).
  cbn [app] in *. fold available in Hkeys, Hcount, Has.
  exists s', m'. unfold RobotScheduler.auto_assign_pending_tasks.
  cbv zeta. fold pending. rewrite E.
  destruct (NoDup_firstn_skipn _ (List.length available) _ Hnd) as [Hnd1 Hnd2].
  assert (Hmwf : wf m').
  { unfold wf. rewrite Hkeys, <- firstn_map.
    now apply (NoDup_firstn_skipn _ (List.length available)). }
  assert (Hfirst : forall tid rid, get m' tid = Some rid ->
            exists t, In t (firstn (List.length available) pending)
                      /\ Task.task_id t = tid).
  { intros tid rid Hm. apply get_In in Hm.
    assert (Hk : In tid (keys m')) by (apply in_map_iff; now exists (tid, rid)).
    rewrite Hkeys in Hk. apply in_map_iff in Hk. destruct Hk as (t & Ht & Hin).
    now exists t. }
  split; [reflexivity|]. split; [exact Hkeys|]. split.
  { rewrite <- (length_map fst m'). change (map fst m') with (keys m').
    now rewrite Hkeys, length_map, length_firstn. }
  split.
  { intros tid rid Hm.
    destruct (Has tid rid Hm) as (t & r0 & Hin & Ht & Hg & Hr0 & Hgr).
    destruct (Hfirst tid rid Hm) as (t1 & Hin1 & Ht1).
    assert (t1 = t).
    { destruct (Hsnap t1 (In_firstn _ _ _ _ Hin1)) as [_ Hg1].
      destruct (Hsnap t Hin) as [_ Hg2].
      rewrite Ht1, <- Ht, Hg2 in Hg1. now inversion Hg1. }
    subst t1. exists t, r0. repeat split; assumption. }
  split.
  { apply NoDup_values; [exact Hmwf|].
    intros k1 k2 v H1 H2.
    apply (In_get _ _ _ _ Hmwf) in H1. apply (In_get _ _ _ _ Hmwf) in H2.
    destruct (Has k1 v H1) as (_ & r1 & _ & _ & _ & _ & Hg1).
    destruct (Has k2 v H2) as (_ & r2 & _ & _ & _ & _ & Hg2).
    rewrite Hg1 in Hg2. now inversion Hg2. }
  split.
  { intros t Hin.
    assert (Hp : In t pending) by (apply (In_skipn _ _ _ _ Hin)).
    assert (Hm : get m' (Task.task_id t) = None).
    { apply get_None_keys. rewrite Hkeys, <- firstn_map.
      apply (NoDup_firstn_skipn _ (List.length available) _ Hnd).
      rewrite skipn_map. now apply in_map. }
    split; [exact Hm|]. split; [now apply Hun|].
    destruct (Hsnap t Hp) as [Hpt _]. now apply TaskStatus_eqb_eq. }
  intros tid rid. split.
  - intros Hm. destruct (Has tid rid Hm) as (t & r & Hin & Ht & Hg & _).
    exists t. split; [exact Hin|]. split; [exact Ht|].
    exists (assigned_to t rid). split; [exact Hg|]. split; reflexivity.
  - intros (t & Hin & Ht & t' & Hg & Hst & Hrob). subst tid.
    destruct (get m' (Task.task_id t)) as [rid'|] eqn:Em.
    + destruct (Has _ _ Em) as (u & r & _ & _ & Hg' & _).
      rewrite Hg in Hg'. inversion Hg'; subst t'.
      cbn in Hrob. congruence.
    + rewrite (Hun t Hin Em) in Hg. inversion Hg; subst t'.
      destruct (Hsnap t Hin) as [Hp _].
      apply TaskStatus_eqb_eq in Hp. congruence.
Qed.

Lemma well_formed_two_for_three : well_formed two_for_three.
Proof.
  unfold well_formed, wf, keyed_by. cbn.
  repeat split; repeat constructor; cbn; intuition discriminate.
Defined.

(** With two available robots and three pending tasks, two tasks are
    assigned: those of priority 3 and 2. *)
Lemma auto_assign_pending_tasks_partial_witness :
  exists self' assignments,
    RobotScheduler.auto_assign_pending_tasks (L := correctly_rounded) two_for_three
    = (self', Return assignments)
    /\ keys assignments = ["T2"; "T3"]
    /\ List.length assignments = 2
    /\ get (RobotScheduler.tasks self') "T1"
       = Some (Sample.task "T1" (Sample.at_ 1 1) 1 PENDING).
Proof.
  assert (Hvp : valid_positions two_for_three) by (repeat constructor).
  assert (Hvt : valid_targets two_for_three) by (repeat constructor).
  destruct (auto_assign_pending_tasks_partial (L := correctly_rounded) two_for_three
              correctly_rounded_accurate well_formed_two_for_three Hvp Hvt)
    as (self' & assignments & E & Hk & Hl & _ & _ & Hrest & _).
  exists self', assignments. split; [exact E|]. split; [exact Hk|].
  split; [exact Hl|].
  apply (Hrest (Sample.task "T1" (Sample.at_ 1 1) 1 PENDING)).
  vm_compute. now left.
Defined.

(** With two available robots and three pending tasks, the tasks of
    priority 3 and 2 are assigned, each to the robot nearest to it, and
    the task of priority 1 stays PENDING. *)
Example auto_assign_two_for_three :
  List.length (RobotScheduler.get_available_robots two_for_three) = 2
  /\ map Task.task_id (RobotScheduler.get_pending_tasks two_for_three)
     = ["T2"; "T3"; "T1"]
  /\ RobotScheduler.auto_assign_pending_tasks (L := correctly_rounded) two_for_three
     = (RobotScheduler.Build
          [("R1", Robot.Build "R1" "robot" (Sample.at_ 0 0) BUSY (Some "T3") 100 0);
           ("R2", Robot.Build "R2" "robot" (Sample.at_ 5 5) IDLE None 15 0);
           ("R3", Robot.Build "R3" "robot" (Sample.at_ 10 10) BUSY (Some "T2") 100 0)]
          [("T1", Sample.task "T1" (Sample.at_ 1 1) 1 PENDING);
           ("T2", Task.Build "T2" DELIVERY (Sample.at_ 9 9) 3 ASSIGNED (Some "R3") 0 30 "");
           ("T3", Task.Build "T3" DELIVERY (Sample.at_ 2 2) 2 ASSIGNED (Some "R1") 0 30 "")],
        Return [("T2", "R3"); ("T3", "R1")]).
Proof. repeat split. Qed.

(* ================================================================== *)
(** * Well-formed schedulers                                           *)
(* ================================================================== *)

(** The operations that fill a scheduler keep it well formed. *)

Lemma keys_set (V : Type) (d : dict V) (k : string) (v : V) :
  keys (set d k v) = if contains d k then keys d else keys d ++ [k].
Proof.
  unfold contains. induction d as [|[k0 v0] d IH]; simpl; [reflexivity|].
  destruct (String.eqb k k0); simpl; [reflexivity|].
  rewrite IH. now destruct (get d k).
Qed.

Lemma wf_set (V : Type) (d : dict V) (k : string) (v : V) :
  wf d -> wf (set d k v).
Proof.
  unfold wf. intros Hd. rewrite keys_set. unfold contains.
  destruct (get d k) eqn:Eg; [exact Hd|].
  apply get_None_keys in Eg.
  apply (Permutation_NoDup (l := k :: keys d)).
  - change (k :: keys d) with ([k] ++ keys d). apply Permutation_app_comm.
  - now constructor.
Qed.

Lemma well_formed_init : well_formed RobotScheduler.init.
Proof. repeat split; constructor. Qed.

Lemma register_robot_well_formed (self : RobotScheduler.t) (robot : Robot.t) :
  well_formed self ->
  startswith (Robot.robot_id robot) "R" = true ->
  well_formed (fst (RobotScheduler.register_robot self robot)).
Proof.
  intros Hwf Hid. unfold RobotScheduler.register_robot.
  destruct (contains (RobotScheduler.robots self) (Robot.robot_id robot));
    [exact Hwf|].
  destruct Hwf as (H1 & H2 & H3 & H4 & H5).
  repeat split; cbn [fst RobotScheduler.set_robots RobotScheduler.robots
                       RobotScheduler.tasks]; auto.
  - now apply wf_set.
  - now apply keyed_by_set.
  - now apply (Forall_values_set _
                 (fun v => startswith (Robot.robot_id v) "R" = true)).
Qed.

Lemma add_task_well_formed (self : RobotScheduler.t) (task : Task.t) :
  well_formed self -> well_formed (RobotScheduler.add_task self task).
Proof.
  intros (H1 & H2 & H3 & H4 & H5).
  repeat split; cbn [RobotScheduler.add_task RobotScheduler.set_tasks
                       RobotScheduler.robots RobotScheduler.tasks]; auto.
  - now apply wf_set.
  - now apply keyed_by_set.
Qed.

Lemma assign_task_well_formed {L : Libm} (self : RobotScheduler.t) (task : Task.t) :
  well_formed self -> well_formed (fst (RobotScheduler.assign_task self task)).
Proof.
  intros Hwf. apply (add_task_well_formed self task) in Hwf.
  unfold RobotScheduler.assign_task.
  set (stored := RobotScheduler.add_task self task) in *.
  destruct (RobotScheduler._find_best_robot stored task) as [[[rk r]|]|e] eqn:Eb;
    [|exact Hwf|exact Hwf].
  apply find_best_robot_available in Eb. apply filter_In in Eb.
  destruct Eb as [Hin _].
  destruct Hwf as (H1 & H2 & H3 & H4 & H5).
  assert (Hrk : rk = Robot.robot_id r).
  { unfold keyed_by in H2. rewrite Forall_forall in H2. exact (H2 _ Hin). }
  assert (Hid : startswith (Robot.robot_id r) "R" = true).
  { rewrite Forall_forall in H3. exact (H3 _ Hin). }
  assert (Hrobots :
    forall r', Robot.robot_id r' = Robot.robot_id r ->
      wf (set (RobotScheduler.robots stored) rk r')
      /\ keyed_by Robot.robot_id (set (RobotScheduler.robots stored) rk r')
      /\ Forall (fun kr => startswith (Robot.robot_id (snd kr)) "R" = true)
           (set (RobotScheduler.robots stored) rk r')).
  { intros r' Hr'. split; [now apply wf_set|].
    split; [apply keyed_by_set; congruence|].
    apply (Forall_values_set _
             (fun v => startswith (Robot.robot_id v) "R" = true)); congruence. }
  assert (Htasks :
    forall d t', wf d -> keyed_by Task.task_id d ->
      Task.task_id t' = Task.task_id task ->
      wf (set d (Task.task_id task) t')
      /\ keyed_by Task.task_id (set d (Task.task_id task) t')).
  { intros d t' Hd Hk Ht'. split; [now apply wf_set|].
    apply keyed_by_set; congruence. }
  unfold Robot.assign_task.
  destruct (Robot.is_available r); cbn [negb].
  - unfold Task.assign_to_robot.
    destruct (Task.is_pending task); cbn [negb].
    + destruct (Hrobots (busy_with r (Task.task_id task)) eq_refl) as (R1 & R2 & R3).
      destruct (Htasks _ (assigned_to task (Robot.robot_id r)) H4 H5 eq_refl)
        as (T1 & T2).
      repeat split; assumption.
    + destruct (Hrobots (busy_with r (Task.task_id task)) eq_refl) as (R1 & R2 & R3).
      destruct (Htasks _ task H4 H5 eq_refl) as (T1 & T2).
      destruct (Htasks _ (RobotScheduler.reset_task task) T1 T2 eq_refl)
        as (T3 & T4).
      repeat split; assumption.
  - destruct (Hrobots r eq_refl) as (R1 & R2 & R3).
    destruct (Htasks _ (RobotScheduler.reset_task task) H4 H5 eq_refl) as (T1 & T2).
    repeat split; assumption.
Qed.

(* ================================================================== *)
(** * Robots and tasks on their own                                    *)
(* ================================================================== *)

(** X1.  An available robot without a current task that is assigned a
    task becomes BUSY with it and is no longer available; [complete_task]
    then gives back the robot exactly as it was.  [complete_task] can be
    repeated without effect. *)
Theorem robot_assign_complete_round_trip (r : Robot.t) (task_id : string) :
  Robot.is_available r = true ->
  Robot.current_task r = None ->
  Robot.assign_task r task_id
  = (Robot.set_status (Robot.set_current_task r (Some task_id)) BUSY, Return tt)
  /\ Robot.is_available (fst (Robot.assign_task r task_id)) = false
  /\ Robot.complete_task (fst (Robot.assign_task r task_id)) = r
  /\ Robot.complete_task (Robot.complete_task r) = Robot.complete_task r.
Proof.
  intros Ha Hc. pose proof (available_is_idle r Ha) as Hs.
  unfold Robot.assign_task. rewrite Ha. cbn [negb fst].
  split; [reflexivity|]. split; [reflexivity|]. split; [|reflexivity].
  destruct r as [id nm pos st ct bl cr]. cbn in *. now subst.
Qed.

Lemma robot_assign_complete_round_trip_witness :
  Robot.complete_task
    (fst (Robot.assign_task (Sample.robot "R1" (Sample.at_ 0 0)) "T1"))
  = Sample.robot "R1" (Sample.at_ 0 0).
Proof.
  apply (robot_assign_complete_round_trip (Sample.robot "R1" (Sample.at_ 0 0)) "T1");
    reflexivity.
Defined.

(** X2.  The methods of a robot keep its status and its current task in
    step: if the robot is BUSY exactly when it has a current task, it is
    so after [assign_task] (accepted or rejected), after [complete_task]
    and after [move_to]. *)
Theorem robot_methods_keep_consistency (r : Robot.t) :
  robot_consistent r ->
  (forall task_id, robot_consistent (fst (Robot.assign_task r task_id)))
  /\ robot_consistent (Robot.complete_task r)
  /\ (forall p, robot_consistent (Robot.move_to r p)).
Proof.
  unfold robot_consistent. intros H. split; [|split].
  - intros task_id. unfold Robot.assign_task.
    destruct (Robot.is_available r); cbn; [|exact H].
    split; intros _; [discriminate|reflexivity].
  - cbn. split; [discriminate|]. intros Hn. now contradiction Hn.
  - intros p. exact H.
Qed.

Lemma robot_methods_keep_consistency_witness :
  robot_consistent
    (fst (Robot.assign_task (Sample.robot "R1" (Sample.at_ 0 0)) "T1")).
Proof.
  apply (robot_methods_keep_consistency (Sample.robot "R1" (Sample.at_ 0 0))).
  unfold robot_consistent. cbn. split; [discriminate|]. intros Hn. now contradiction Hn.
Defined.

(** ** The description after [fail] *)

(** X3.  [fail] always returns and leaves the task FAILED; it keeps the
    identifier, type, target, priority, creation time, duration and also
    the assigned robot.  With an empty reason the description is kept;
    otherwise it grows by at most the 7 characters of the label and the
    length of the reason. *)
Theorem fail_keeps_fields_bounded_growth (t : Task.t) (reason : string) :
  let t' := fst (Task.fail t reason) in
  snd (Task.fail t reason) = Return tt
  /\ Task.status t' = FAILED
  /\ Task.task_id t' = Task.task_id t
  /\ Task.task_type t' = Task.task_type t
  /\ Task.target_position t' = Task.target_position t
  /\ Task.priority t' = Task.priority t
  /\ Task.assigned_robot t' = Task.assigned_robot t
  /\ Task.created_at t' = Task.created_at t
  /\ Task.estimated_duration t' = Task.estimated_duration t
  /\ (reason = EmptyString -> Task.description t' = Task.description t)
  /\ len (Task.description t') <= len (Task.description t) + 7 + len reason.
Proof.
  unfold Task.fail. destruct reason as [|c reason]; cbn [truthy fst snd].
  - cbn. repeat split; lia.
  - cbn [Task.set_description Task.set_status Task.status Task.task_id
           Task.task_type Task.target_position Task.priority Task.assigned_robot
           Task.created_at Task.estimated_duration Task.description].
    repeat split; try discriminate.
    eapply Nat.le_trans; [apply len_strip|].
    rewrite !len_app. change (len Task.failure_label) with 7. lia.
Qed.

(* ================================================================== *)
(** * More about the scheduler                                         *)
(* ================================================================== *)

Section MoreDictFacts.
Variable V : Type.
Implicit Types (d : dict V) (k : string) (v : V).

Lemma set_set d k v v' : set (set d k v) k v' = set d k v'.
Proof.
  induction d as [|[k0 v0] d IH]; simpl.
  - now rewrite String.eqb_refl.
  - destruct (String.eqb k k0) eqn:E; simpl; rewrite E; [reflexivity|].
    now rewrite IH.
Qed.

Lemma keys_del_incl d k x : In x (keys (del d k)) -> In x (keys d).
Proof.
  induction d as [|[k0 v0] d IH]; simpl; [tauto|].
  destruct (String.eqb k k0); simpl; [tauto|]. intros [H|H]; auto.
Qed.

Lemma wf_del d k : wf d -> wf (del d k).
Proof.
  unfold wf. induction d as [|[k0 v0] d IH]; simpl; intros H; [constructor|].
  inversion H as [|? ? Hn Hd]; subst.
  destruct (String.eqb k k0); [exact Hd|]. simpl.
  constructor; [|now apply IH].
  intros Hin. apply Hn. now apply keys_del_incl in Hin.
Qed.

Lemma Forall_del (Q : string * V -> Prop) d k : Forall Q d -> Forall Q (del d k).
Proof.
  induction 1 as [|[k0 v0] d H0 Hd IH]; simpl; [constructor|].
  destruct (String.eqb k k0); [exact Hd|]. now constructor.
Qed.

Lemma length_values d : List.length (values d) = List.length d.
Proof. apply length_map. Qed.

End MoreDictFacts.

(** X4.  [register_robot] rejects a robot whose identifier is already
    registered: it raises [SchedulerError] and the scheduler is unchanged.
    Otherwise the robot is added after the robots present, can be looked
    up under its identifier, and robots and tasks present are untouched. *)
Theorem register_robot_once (self : RobotScheduler.t) (robot : Robot.t) :
  match get (RobotScheduler.robots self) (Robot.robot_id robot) with
  | Some _ =>
      RobotScheduler.register_robot self robot = (self, Raise SchedulerError)
  | None =>
      RobotScheduler.register_robot self robot
      = (RobotScheduler.Build
           (RobotScheduler.robots self ++ [(Robot.robot_id robot, robot)])
           (RobotScheduler.tasks self),
         Return tt)
      /\ get (RobotScheduler.robots (fst (RobotScheduler.register_robot self robot)))
           (Robot.robot_id robot) = Some robot
      /\ (forall k, k <> Robot.robot_id robot ->
            get (RobotScheduler.robots (fst (RobotScheduler.register_robot self robot))) k
            = get (RobotScheduler.robots self) k)
      /\ snd (RobotScheduler.register_robot
                (fst (RobotScheduler.register_robot self robot)) robot)
         = Raise SchedulerError
  end.
Proof.
  destruct (get (RobotScheduler.robots self) (Robot.robot_id robot)) eqn:Eg.
  - unfold RobotScheduler.register_robot. rewrite contains_get. now rewrite Eg.
  - assert (E : RobotScheduler.register_robot self robot
                = (RobotScheduler.Build
                     (RobotScheduler.robots self ++ [(Robot.robot_id robot, robot)])
                     (RobotScheduler.tasks self),
                   Return tt)).
    { unfold RobotScheduler.register_robot. rewrite contains_get, Eg.
      unfold RobotScheduler.set_robots. now rewrite (set_absent _ _ _ _ Eg). }
    rewrite E. cbn [fst RobotScheduler.robots].
    rewrite <- (set_absent _ _ _ robot Eg).
    split; [reflexivity|]. split; [apply get_set_same|]. split.
    + intros k Hk. apply get_set_other. congruence.
    + unfold RobotScheduler.register_robot. rewrite contains_get.
      cbn [RobotScheduler.robots]. now rewrite get_set_same.
Qed.

(** X5.  [add_task] stores the task under its identifier: it can be looked
    up there, the other tasks and the robots are untouched, a task with a
    new identifier comes last and one with a known identifier takes the
    place of the old one.  Adding the same task again changes nothing. *)
Theorem add_task_overwrites (self : RobotScheduler.t) (task : Task.t) :
  let self' := RobotScheduler.add_task self task in
  get (RobotScheduler.tasks self') (Task.task_id task) = Some task
  /\ (forall k, k <> Task.task_id task ->
        get (RobotScheduler.tasks self') k = get (RobotScheduler.tasks self) k)
  /\ RobotScheduler.robots self' = RobotScheduler.robots self
  /\ match get (RobotScheduler.tasks self) (Task.task_id task) with
     | Some _ => keys (RobotScheduler.tasks self') = keys (RobotScheduler.tasks self)
     | None =>
         RobotScheduler.tasks self'
         = RobotScheduler.tasks self ++ [(Task.task_id task, task)]
     end
  /\ RobotScheduler.add_task self' task = self'
  /\ (forall other, Task.task_id other = Task.task_id task ->
        RobotScheduler.add_task (RobotScheduler.add_task self other) task = self').
Proof.
  cbn zeta. unfold RobotScheduler.add_task, RobotScheduler.set_tasks.
  cbn [RobotScheduler.tasks RobotScheduler.robots].
  split; [apply get_set_same|]. split.
  { intros k Hk. apply get_set_other. congruence. }
  split; [reflexivity|]. split.
  { destruct (get (RobotScheduler.tasks self) (Task.task_id task)) eqn:Eg.
    - now apply keys_set_present with (v' := t).
    - now apply set_absent. }
  split.
  - now rewrite set_set.
  - intros other Ho. rewrite Ho. now rewrite set_set.
Qed.

Lemma release_robot_tasks (self : RobotScheduler.t) (task : Task.t) :
  RobotScheduler.tasks (RobotScheduler.release_robot self task)
  = RobotScheduler.tasks self.
Proof.
  unfold RobotScheduler.release_robot.
  destruct (Task.assigned_robot task) as [rk|]; [|reflexivity].
  destruct (truthy rk); [|reflexivity].
  destruct (get (RobotScheduler.robots self) rk); reflexivity.
Qed.

(** X6.  [fail_task] on an unknown identifier returns [False] and changes
    nothing.  On a known one it returns [True] whatever the status of the
    task is, the task is FAILED afterwards, and the robot named by its
    [assigned_robot], when it is registered, is released; a task without
    an assigned robot leaves the robots untouched. *)
Theorem fail_task_always_fails_task (self : RobotScheduler.t) (task_id reason : string) :
  match get (RobotScheduler.tasks self) task_id with
  | None => RobotScheduler.fail_task self task_id reason = (self, false)
  | Some T =>
      let self' := fst (RobotScheduler.fail_task self task_id reason) in
      snd (RobotScheduler.fail_task self task_id reason) = true
      /\ get (RobotScheduler.tasks self') task_id = Some (fst (Task.fail T reason))
      /\ Task.status (fst (Task.fail T reason)) = FAILED
      /\ (forall k, k <> task_id ->
            get (RobotScheduler.tasks self') k = get (RobotScheduler.tasks self) k)
      /\ (Task.assigned_robot T = None ->
            RobotScheduler.robots self' = RobotScheduler.robots self)
      /\ (forall robot_key U,
            Task.assigned_robot T = Some robot_key ->
            truthy robot_key = true ->
            get (RobotScheduler.robots self) robot_key = Some U ->
            get (RobotScheduler.robots self') robot_key = Some (Robot.complete_task U))
  end.
Proof.
  unfold RobotScheduler.fail_task.
  destruct (get (RobotScheduler.tasks self) task_id) as [T|] eqn:ET; [|reflexivity].
  destruct (Task.fail T reason) as [T' o] eqn:Ef.
  cbn [fst snd RobotScheduler.set_tasks RobotScheduler.tasks RobotScheduler.robots].
  rewrite release_robot_tasks.
  split; [reflexivity|]. split; [apply get_set_same|]. split.
  { unfold Task.fail in Ef. destruct (truthy reason); inversion Ef; reflexivity. }
  split.
  { intros k Hk. apply get_set_other. congruence. }
  unfold RobotScheduler.release_robot. split.
  - intros Hn. now rewrite Hn.
  - intros rk U Ha Ht HU. rewrite Ha, Ht, HU.
    cbn [RobotScheduler.set_robots RobotScheduler.robots]. apply get_set_same.
Qed.

(** ** Counting by status *)

Lemma count_by_robot_status (l : list Robot.t) :
  (List.length (filter (fun r => RobotStatus_eqb (Robot.status r) IDLE) l)
   + List.length (filter (fun r => RobotStatus_eqb (Robot.status r) BUSY) l)
   + List.length (filter (fun r => RobotStatus_eqb (Robot.status r) CHARGING) l)
   + List.length (filter (fun r => RobotStatus_eqb (Robot.status r) MAINTENANCE) l)
   = List.length l)%nat.
Proof.
  induction l as [|r l IH]; [reflexivity|].
  cbn [filter]. destruct (Robot.status r); cbn [RobotStatus_eqb List.length]; lia.
Qed.

Lemma count_by_task_status (l : list Task.t) :
  (List.length (filter (fun t => TaskStatus_eqb (Task.status t) PENDING) l)
   + List.length (filter (fun t => TaskStatus_eqb (Task.status t) ASSIGNED) l)
   + List.length (filter (fun t => TaskStatus_eqb (Task.status t) IN_PROGRESS) l)
   + List.length (filter (fun t => TaskStatus_eqb (Task.status t) COMPLETED) l)
   + List.length (filter (fun t => TaskStatus_eqb (Task.status t) FAILED) l)
   = List.length l)%nat.
Proof.
  induction l as [|t l IH]; [reflexivity|].
  cbn [filter]. destruct (Task.status t); cbn [TaskStatus_eqb List.length]; lia.
Qed.

(** X7.  In the dictionary of [get_system_status] the four counts of
    robots by status add up to [total_robots] and the five counts of
    tasks by status add up to [total_tasks]; the totals are the sizes of
    the two collections. *)
Theorem get_system_status_counts_add_up (self : RobotScheduler.t) :
  let d := RobotScheduler.get_system_status self in
  (stat d "idle_robots" + stat d "busy_robots" + stat d "charging_robots"
   + stat d "maintenance_robots" = stat d "total_robots")%Z
  /\ (stat d "pending_tasks" + stat d "assigned_tasks" + stat d "in_progress_tasks"
      + stat d "completed_tasks" + stat d "failed_tasks" = stat d "total_tasks")%Z
  /\ stat d "total_robots" = Z.of_nat (List.length (RobotScheduler.robots self))
  /\ stat d "total_tasks" = Z.of_nat (List.length (RobotScheduler.tasks self))
  /\ keys d
     = ["total_robots"; "idle_robots"; "busy_robots"; "charging_robots";
        "maintenance_robots"; "total_tasks"; "pending_tasks"; "assigned_tasks";
        "in_progress_tasks"; "completed_tasks"; "failed_tasks"].
Proof.
  cbn zeta. unfold RobotScheduler.get_system_status, stat. cbn [get String.eqb Ascii.eqb Bool.eqb].
  pose proof (count_by_robot_status (values (RobotScheduler.robots self))) as Hr.
  pose proof (count_by_task_status (values (RobotScheduler.tasks self))) as Ht.
  rewrite length_values in Hr, Ht.
  unfold Task.is_pending, Task.is_completed.
  repeat split; try reflexivity; lia.
Qed.

(** ** When [assign_task] fails *)

(** X8.  With valid positions and an accurate [pow], [assign_task] raises
    exactly when some robot is available and the task is not PENDING, and
    what it raises is [SchedulerError]; with no robot available it returns
    [None] whatever the status of the task is. *)
Theorem assign_task_raises_iff {L : Libm} (self : RobotScheduler.t) (task : Task.t) :
  accurate L ->
  Position.valid (Task.target_position task) = true ->
  valid_positions self ->
  (raised (snd (RobotScheduler.assign_task self task)) = true <->
   RobotScheduler.get_available_robots self <> [] /\ Task.is_pending task = false)
  /\ (raised (snd (RobotScheduler.assign_task self task)) = true ->
      snd (RobotScheduler.assign_task self task) = Raise SchedulerError)
  /\ (RobotScheduler.get_available_robots self = [] ->
      snd (RobotScheduler.assign_task self task) = Return None).
Proof.
  intros Hacc Ht Hv.
  pose proof (find_best_robot_closest (RobotScheduler.add_task self task) task
                Hacc Ht Hv) as Hbest.
  change (RobotScheduler.get_available_robots (RobotScheduler.add_task self task))
    with (RobotScheduler.get_available_robots self) in Hbest.
  unfold RobotScheduler.assign_task.
  destruct (RobotScheduler.get_available_robots self) as [|r0 l] eqn:Ea.
  - rewrite Hbest. cbn [snd raised].
    split; [split; [discriminate|intros [H _]; now contradiction H]|].
    split; [discriminate|reflexivity].
  - destruct Hbest as ([rk r] & Hfind & (l1 & l2 & Hl & _)). rewrite Hfind.
    assert (Hav : Robot.is_available r = true).
    { assert (Hin : In (rk, r) (RobotScheduler.get_available_robots self))
        by (rewrite Ea, Hl; apply in_or_app; right; now left).
      apply filter_In in Hin. apply Hin. }
    unfold Robot.assign_task. rewrite Hav. cbn [negb].
    unfold Task.assign_to_robot.
    destruct (Task.is_pending task); cbn [negb snd raised
      RobotScheduler.assign_task_failed].
    + split; [split; [discriminate|intros [_ H]; discriminate]|].
      split; discriminate.
    + split; [split; [intros _; split; [discriminate|reflexivity]|reflexivity]|].
      split; [reflexivity|discriminate].
Qed.

Lemma assign_task_raises_iff_witness :
  raised (snd (RobotScheduler.assign_task (L := correctly_rounded)
                 one_robot completed_task)) = true.
Proof.
  assert (Hv : valid_positions one_robot) by (repeat constructor).
  apply (assign_task_raises_iff (L := correctly_rounded) one_robot completed_task
           correctly_rounded_accurate eq_refl Hv).
  split; [discriminate|reflexivity].
Defined.

(** ** Well-formedness under every operation *)

Lemma keyed_get (V : Type) (id : V -> string) (d : dict V) (k : string) (v : V) :
  keyed_by id d -> get d k = Some v -> k = id v.
Proof.
  intros Hk Hg. apply get_In in Hg. unfold keyed_by in Hk.
  rewrite Forall_forall in Hk. exact (Hk _ Hg).
Qed.

Lemma robots_update_well_formed (self : RobotScheduler.t) (k : string) (r r' : Robot.t) :
  well_formed self ->
  get (RobotScheduler.robots self) k = Some r ->
  Robot.robot_id r' = Robot.robot_id r ->
  well_formed (RobotScheduler.set_robots self (set (RobotScheduler.robots self) k r')).
Proof.
  intros (H1 & H2 & H3 & H4 & H5) Hg Hid.
  pose proof (keyed_get _ _ _ _ _ H2 Hg) as Hk.
  repeat split; cbn [RobotScheduler.set_robots RobotScheduler.robots
                       RobotScheduler.tasks]; auto.
  - now apply wf_set.
  - apply keyed_by_set; congruence.
  - apply (Forall_values_set _ (fun v => startswith (Robot.robot_id v) "R" = true));
      auto.
    rewrite Hid. apply get_In in Hg. rewrite Forall_forall in H3. exact (H3 _ Hg).
Qed.

Lemma tasks_update_well_formed (self : RobotScheduler.t) (k : string) (t t' : Task.t) :
  well_formed self ->
  get (RobotScheduler.tasks self) k = Some t ->
  Task.task_id t' = Task.task_id t ->
  well_formed (RobotScheduler.set_tasks self (set (RobotScheduler.tasks self) k t')).
Proof.
  intros (H1 & H2 & H3 & H4 & H5) Hg Hid.
  pose proof (keyed_get _ _ _ _ _ H5 Hg) as Hk.
  repeat split; cbn [RobotScheduler.set_tasks RobotScheduler.robots
                       RobotScheduler.tasks]; auto.
  - now apply wf_set.
  - apply keyed_by_set; congruence.
Qed.

Lemma release_robot_well_formed (self : RobotScheduler.t) (task : Task.t) :
  well_formed self -> well_formed (RobotScheduler.release_robot self task).
Proof.
  intros Hwf. unfold RobotScheduler.release_robot.
  destruct (Task.assigned_robot task) as [rk|]; [|exact Hwf].
  destruct (truthy rk); [|exact Hwf].
  destruct (get (RobotScheduler.robots self) rk) as [r|] eqn:Eg; [|exact Hwf].
  now apply robots_update_well_formed with (r := r).
Qed.

Lemma invoke_keeps_task_id (t : Task.t) (c : Task.call) :
  Task.task_id (fst (Task.invoke t c)) = Task.task_id t.
Proof.
  destruct c; cbn [Task.invoke];
    unfold Task.assign_to_robot, Task.start_execution, Task.complete, Task.fail.
  - destruct (negb (Task.is_pending t)); reflexivity.
  - destruct (negb _); reflexivity.
  - destruct (negb _); reflexivity.
  - destruct (truthy reason); reflexivity.
Qed.

Lemma auto_assign_fold_well_formed {L : Libm} (l : list Task.t) :
  forall (s : RobotScheduler.t) (m : dict string) (e : option exn),
    well_formed s ->
    well_formed (fst (fst (fold_left RobotScheduler.auto_assign_step l (s, m, e)))).
Proof.
  induction l as [|t l IH]; intros s m e Hwf; cbn [fold_left]; [exact Hwf|].
  unfold RobotScheduler.auto_assign_step at 2.
  destruct e as [x|]; [now apply IH|].
  pose proof (assign_task_well_formed s t Hwf) as H1.
  destruct (RobotScheduler.assign_task s t) as [s1 [[r|]|x]]; cbn [fst] in H1;
    try (now apply IH); [|destruct x; now apply IH].
  destruct (truthy r); now apply IH.
Qed.

(** X9.  Every operation of the scheduler keeps it well formed: the
    robots and the tasks stay stored once each, under their own
    identifiers, and the robot identifiers stay valid.  That holds for
    [register_robot] with a robot of valid identifier, for
    [unregister_robot], [add_task], [assign_task] (also when it raises),
    [complete_task], [fail_task] and [auto_assign_pending_tasks]. *)
Theorem operations_keep_well_formed {L : Libm} (self : RobotScheduler.t) :
  well_formed self ->
  (forall robot, startswith (Robot.robot_id robot) "R" = true ->
     well_formed (fst (RobotScheduler.register_robot self robot)))
  /\ (forall robot_id, well_formed (fst (RobotScheduler.unregister_robot self robot_id)))
  /\ (forall task, well_formed (RobotScheduler.add_task self task))
  /\ (forall task, well_formed (fst (RobotScheduler.assign_task self task)))
  /\ (forall task_id, well_formed (fst (RobotScheduler.complete_task self task_id)))
  /\ (forall task_id reason,
        well_formed (fst (RobotScheduler.fail_task self task_id reason)))
  /\ well_formed (fst (RobotScheduler.auto_assign_pending_tasks self)).
Proof.
  intros Hwf.
  split; [intros robot Hid; now apply register_robot_well_formed|].
  split.
  { intros robot_id. unfold RobotScheduler.unregister_robot.
    destruct (negb (contains (RobotScheduler.robots self) robot_id)); [exact Hwf|].
    destruct (get (RobotScheduler.robots self) robot_id) as [robot|]; [|exact Hwf].
    cbn [fst].
    assert (Hwf' : well_formed
              match Robot.current_task robot with
              | Some task_key =>
                  if truthy task_key
                  then match get (RobotScheduler.tasks self) task_key with
                       | Some task =>
                           RobotScheduler.set_tasks self
                             (set (RobotScheduler.tasks self) task_key
                                (RobotScheduler.reset_task task))
                       | None => self
                       end
                  else self
              | None => self
              end).
    { destruct (Robot.current_task robot) as [tk|]; [|exact Hwf].
      destruct (truthy tk); [|exact Hwf].
      destruct (get (RobotScheduler.tasks self) tk) as [task|] eqn:Et; [|exact Hwf].
      now apply tasks_update_well_formed with (t := task). }
    destruct Hwf' as (H1 & H2 & H3 & H4 & H5).
    repeat split; cbn [RobotScheduler.set_robots RobotScheduler.robots
                         RobotScheduler.tasks]; auto.
    - now apply wf_del.
    - now apply Forall_del.
    - now apply Forall_del. }
  split; [intros task; now apply add_task_well_formed|].
  split; [intros task; now apply assign_task_well_formed|].
  split.
  { intros task_id. unfold RobotScheduler.complete_task.
    destruct (get (RobotScheduler.tasks self) task_id) as [T|] eqn:ET; [|exact Hwf].
    pose proof (release_robot_well_formed self T Hwf) as Hr.
    pose proof (invoke_keeps_task_id T Task.Complete) as Hid. cbn [Task.invoke] in Hid.
    destruct (Task.complete T) as [T' o]. cbn [fst] in Hid.
    assert (Hw : well_formed
              (RobotScheduler.set_tasks (RobotScheduler.release_robot self T)
                 (set (RobotScheduler.tasks (RobotScheduler.release_robot self T))
                    task_id T'))).
    { apply tasks_update_well_formed with (t := T); auto.
      now rewrite release_robot_tasks. }
    destruct o as [u|[]]; exact Hw. }
  split.
  { intros task_id reason. unfold RobotScheduler.fail_task.
    destruct (get (RobotScheduler.tasks self) task_id) as [T|] eqn:ET; [|exact Hwf].
    pose proof (release_robot_well_formed self T Hwf) as Hr.
    pose proof (invoke_keeps_task_id T (Task.Fail reason)) as Hid.
    cbn [Task.invoke] in Hid.
    destruct (Task.fail T reason) as [T' o]. cbn [fst] in *.
    apply tasks_update_well_formed with (t := T); auto.
    now rewrite release_robot_tasks. }
  unfold RobotScheduler.auto_assign_pending_tasks. cbv zeta.
  pose proof (auto_assign_fold_well_formed (RobotScheduler.get_pending_tasks self)
                self [] None Hwf) as H.
  destruct (fold_left RobotScheduler.auto_assign_step _ _) as [[s m] e].
  cbn [fst] in H. destruct e; exact H.
Qed.

Lemma operations_keep_well_formed_witness :
  well_formed (fst (RobotScheduler.complete_task two_for_three "T1"))
  /\ well_formed (fst (RobotScheduler.auto_assign_pending_tasks
                        (L := correctly_rounded) two_for_three)).
Proof.
  pose proof (operations_keep_well_formed (L := correctly_rounded) two_for_three
                well_formed_two_for_three)
    as (_ & _ & _ & _ & Hc & _ & Ha).
  split; [apply Hc|exact Ha].
Defined.

(** ** Assigning, starting and completing a task *)

(** What a successful [assign_task] has done. *)
Lemma assign_task_success_inv {L : Libm} (self self1 : RobotScheduler.t)
    (task : Task.t)
    (rid : string) :
  RobotScheduler.assign_task self task = (self1, Return (Some rid)) ->
  exists rk r,
    In (rk, r) (RobotScheduler.get_available_robots self)
    /\ rid = Robot.robot_id r
    /\ Task.is_pending task = true
    /\ self1
       = RobotScheduler.Build
           (set (RobotScheduler.robots self) rk (busy_with r (Task.task_id task)))
           (set (set (RobotScheduler.tasks self) (Task.task_id task) task)
              (Task.task_id task) (assigned_to task rid)).
Proof.
  unfold RobotScheduler.assign_task.
  destruct (RobotScheduler._find_best_robot (RobotScheduler.add_task self task) task)
    as [[[rk r]|]|e] eqn:Eb; [|discriminate|discriminate].
  apply find_best_robot_available in Eb.
  change (RobotScheduler.get_available_robots (RobotScheduler.add_task self task))
    with (RobotScheduler.get_available_robots self) in Eb.
  unfold Robot.assign_task.
  destruct (Robot.is_available r); cbn [negb]; [|discriminate].
  unfold Task.assign_to_robot.
  destruct (Task.is_pending task); cbn [negb]; [|discriminate].
  intros H. inversion H; subst. exists rk, r. repeat split. exact Eb.
Qed.

(** X10.  In a well-formed scheduler whose robots are consistent, a task
    that [assign_task] has assigned to a robot, that the caller then
    starts and that [complete_task] completes ends COMPLETED, still naming
    the robot, with [complete_task] returning [True]; and the collection
    of robots is then exactly what it was before the assignment. *)
Theorem assign_start_complete {L : Libm} (self self1 : RobotScheduler.t)
    (task : Task.t)
    (rid : string) :
  well_formed self ->
  Forall (fun kr => robot_consistent (snd kr)) (RobotScheduler.robots self) ->
  RobotScheduler.assign_task self task = (self1, Return (Some rid)) ->
  exists self2 self3 done,
    start_stored_task self1 (Task.task_id task) = (self2, Return tt)
    /\ RobotScheduler.complete_task self2 (Task.task_id task) = (self3, Return true)
    /\ get (RobotScheduler.tasks self3) (Task.task_id task) = Some done
    /\ Task.status done = COMPLETED
    /\ Task.assigned_robot done = Some rid
    /\ RobotScheduler.robots self3 = RobotScheduler.robots self.
Proof.
  intros Hwf Hcons Hassign.
  destruct (assign_task_success_inv _ _ _ _ Hassign)
    as (rk & r & Hin & Hrid & Hp & ->).
  apply filter_In in Hin. destruct Hin as [Hin Hav]. cbn [snd] in Hav.
  destruct Hwf as (H1 & H2 & H3 & _).
  assert (Hrk : rk = Robot.robot_id r).
  { unfold keyed_by in H2. rewrite Forall_forall in H2. exact (H2 _ Hin). }
  assert (Hgr : get (RobotScheduler.robots self) rk = Some r) by now apply In_get.
  assert (Hnone : Robot.current_task r = None).
  { rewrite Forall_forall in Hcons. pose proof (Hcons _ Hin) as [_ Hc]. cbn [snd] in Hc.
    destruct (Robot.current_task r) as [c|]; [|reflexivity].
    pose proof (available_is_idle r Hav) as Hs.
    assert (Hb : Robot.status r = BUSY) by (apply Hc; discriminate).
    congruence. }
  assert (Htruthy : truthy rid = true).
  { subst rid. apply (startswith_truthy _ "R").
    rewrite Forall_forall in H3. exact (H3 _ Hin). }
  assert (Hr : Robot.complete_task (busy_with r (Task.task_id task)) = r).
  { pose proof (available_is_idle r Hav) as Hs.
    destruct r as [id nm pos st ct bl cr]. cbn in *. now subst. }
  set (robots1 := set (RobotScheduler.robots self) rk (busy_with r (Task.task_id task))).
  set (tasks1 := set (set (RobotScheduler.tasks self) (Task.task_id task) task)
                   (Task.task_id task) (assigned_to task rid)).
  set (started := Task.set_status (assigned_to task rid) IN_PROGRESS).
  set (finished := Task.set_status started COMPLETED).
  exists (RobotScheduler.Build robots1 (set tasks1 (Task.task_id task) started)).
  exists (RobotScheduler.Build (RobotScheduler.robots self)
            (set (set tasks1 (Task.task_id task) started) (Task.task_id task) finished)).
  exists finished.
  split.
  { unfold start_stored_task. cbn [RobotScheduler.tasks].
    unfold tasks1 at 1. rewrite get_set_same. reflexivity. }
  split.
  { unfold RobotScheduler.complete_task. cbn [RobotScheduler.tasks].
    rewrite get_set_same.
    unfold RobotScheduler.release_robot.
    change (Task.assigned_robot started) with (Some rid).
    cbv beta iota. rewrite Htruthy. cbn [RobotScheduler.robots].
    assert (Hg1 : get robots1 rid = Some (busy_with r (Task.task_id task))).
    { rewrite Hrid, <- Hrk. apply get_set_same. }
    rewrite Hg1.
    change (Task.complete started) with (finished, @Return unit tt).
    unfold RobotScheduler.set_robots, RobotScheduler.set_tasks.
    cbn [RobotScheduler.robots RobotScheduler.tasks].
    rewrite Hr, Hrid, <- Hrk. unfold robots1. rewrite set_set.
    rewrite (set_get_id _ _ _ _ Hgr). reflexivity. }
  split; [cbn [RobotScheduler.tasks]; apply get_set_same|].
  repeat split.
Qed.

Lemma well_formed_small_fleet : well_formed small_fleet.
Proof.
  unfold well_formed, wf, keyed_by. cbn.
  repeat split; repeat constructor; cbn; intuition discriminate.
Defined.

Lemma assign_start_complete_witness :
  exists self2 self3 done,
    start_stored_task
      (fst (RobotScheduler.assign_task (L := correctly_rounded) small_fleet
              (Sample.task "T0" (Sample.at_ 1 1) 2 PENDING))) "T0"
    = (self2, Return tt)
    /\ RobotScheduler.complete_task self2 "T0" = (self3, Return true)
    /\ get (RobotScheduler.tasks self3) "T0" = Some done
    /\ Task.status done = COMPLETED
    /\ Task.assigned_robot done = Some "R1"
    /\ RobotScheduler.robots self3 = RobotScheduler.robots small_fleet.
Proof.
  apply (assign_start_complete (L := correctly_rounded) small_fleet _
           (Sample.task "T0" (Sample.at_ 1 1) 2 PENDING) "R1"
           well_formed_small_fleet).
  - assert (Hc : forall id p, robot_consistent (Sample.robot id p)).
    { intros id p. unfold robot_consistent. cbn.
      split; [discriminate|intros Hn; now contradiction Hn]. }
    repeat (constructor; [apply Hc|]). constructor.
  - reflexivity.
Defined.

(* ================================================================== *)
(** * The task registry                                                *)
(* ================================================================== *)

(** X11.  [create_task] with a valid target, a priority from 1 to 5, a
    duration from 1 to 1440 and a description of at most 500 characters
    returns a new PENDING task without robot, whose identifier is [T]
    followed by the random part, and stores it under that identifier,
    where [get_task] finds it; the other tasks are untouched.  With a
    priority outside 1 to 5 it raises [ValueError] and the registry is
    unchanged. *)
Theorem create_task_stores (self : TaskService.t) (suffix : string) (created_at : Z)
    (task_type : TaskType) (target : Position.t) (priority duration : Z)
    (description : string) :
  hex8 suffix = true ->
  Position.valid target = true ->
  (1 <= duration <= 1440)%Z ->
  len description <= 500 ->
  ((1 <= priority <= 5)%Z ->
   exists task,
     TaskService.create_task self suffix created_at task_type target priority
       duration description
     = (TaskService.Build (set (TaskService._tasks self) ("T" ++ suffix) task),
        Return task)
     /\ Task.task_id task = ("T" ++ suffix)%string
     /\ Task.status task = PENDING
     /\ Task.assigned_robot task = None
     /\ Task.task_type task = task_type
     /\ Task.priority task = priority
     /\ len (Task.description task) <= 500
     /\ TaskService.get_task
          (fst (TaskService.create_task self suffix created_at task_type target
                  priority duration description))
          (Task.task_id task) = Some task
     /\ (forall k, k <> Task.task_id task ->
           TaskService.get_task
             (fst (TaskService.create_task self suffix created_at task_type target
                     priority duration description)) k
           = TaskService.get_task self k))
  /\ ((priority < 1 \/ 5 < priority)%Z ->
      TaskService.create_task self suffix created_at task_type target priority
        duration description
      = (self, Raise ValueError)).
Proof.
  intros Hhex Hpos Hdur Hdesc.
  unfold hex8 in Hhex. apply andb_true_iff in Hhex. destruct Hhex as [Hlen Hchars].
  apply Nat.eqb_eq in Hlen. apply all_chars_hex_plain in Hchars.
  assert (Hplain : all_chars plain_char ("T" ++ suffix) = true)
    by (cbn [append all_chars]; now rewrite Hchars).
  assert (Hstrip : str_strip_whitespace ("T" ++ suffix) = ("T" ++ suffix)%string)
    by now apply str_strip_whitespace_plain.
  assert (Hl : len ("T" ++ suffix) = 9).
  { rewrite (len_plain _ Hplain). cbn [append String.length]. now rewrite Hlen. }
  assert (Hsw : startswith ("T" ++ suffix) "T" = true).
  { unfold startswith. cbn [append prefix].
    destruct (ascii_dec "T" "T") as [_|Hn]; [|now contradiction Hn].
    now destruct suffix. }
  unfold TaskService.create_task, Task.init, Task.validate_task_id.
  rewrite Hstrip, Hl, Hpos, Hsw.
  assert (Hd : (len (str_strip_whitespace description) <=? 500)%nat = true).
  { apply Nat.leb_le. pose proof (len_str_strip_whitespace description). lia. }
  rewrite Hd.
  replace (1 <=? duration)%Z with true by (symmetry; apply Z.leb_le; lia).
  replace (duration <=? 1440)%Z with true by (symmetry; apply Z.leb_le; lia).
  cbn [Nat.leb negb raised andb].
  split.
  - intros Hp.
    replace (1 <=? priority)%Z with true by (symmetry; apply Z.leb_le; lia).
    replace (priority <=? 5)%Z with true by (symmetry; apply Z.leb_le; lia).
    cbn [andb fst TaskService._tasks TaskService.get_task].
    eexists. split; [reflexivity|].
    cbn [Task.task_id Task.status Task.assigned_robot Task.task_type Task.priority
           Task.description].
    repeat split.
    + unfold Task.validate_description. cbn [truthy_opt].
      destruct (truthy (str_strip_whitespace description)); [|cbn; lia].
      pose proof (len_strip (str_strip_whitespace description)).
      pose proof (len_str_strip_whitespace description). lia.
    + apply get_set_same.
    + intros k Hk. apply get_set_other. congruence.
  - intros Hp.
    destruct (Z.leb_spec 1 priority); destruct (Z.leb_spec priority 5);
      try lia; reflexivity.
Qed.

Lemma create_task_stores_witness :
  exists task,
    TaskService.create_task TaskService.init "1A2B3C4D" 0 DELIVERY (Sample.at_ 10 5)
      2 45 "parcel"
    = (TaskService.Build [("T1A2B3C4D", task)], Return task)
    /\ Task.task_id task = "T1A2B3C4D".
Proof.
  destruct (create_task_stores TaskService.init "1A2B3C4D" 0 DELIVERY
              (Sample.at_ 10 5) 2 45 "parcel" eq_refl eq_refl)
    as [H _]; [lia|cbn; lia|].
  destruct H as (task & E & Hid & _); [lia|].
  exists task. split; [exact E|exact Hid].
Defined.

(** ** Deleting *)

Lemma del_absent (V : Type) (d : dict V) (k : string) :
  get d k = None -> del d k = d.
Proof.
  induction d as [|[k0 v0] d IH]; simpl; [reflexivity|].
  destruct (String.eqb k k0); [discriminate|]. intros H. now rewrite IH.
Qed.

Lemma del_set_absent (V : Type) (d : dict V) (k : string) (v : V) :
  get d k = None -> del (set d k v) k = d.
Proof.
  induction d as [|[k0 v0] d IH]; simpl.
  - now rewrite String.eqb_refl.
  - destruct (String.eqb k k0) eqn:E; [discriminate|]. intros H.
    simpl. rewrite E. now rewrite IH.
Qed.

Lemma length_del_present (V : Type) (d : dict V) (k : string) (v : V) :
  get d k = Some v -> S (List.length (del d k)) = List.length d.
Proof.
  induction d as [|[k0 v0] d IH]; simpl; [discriminate|].
  destruct (String.eqb k k0); [reflexivity|]. intros H. simpl. now rewrite IH.
Qed.

(** X12.  [delete_task] on an unknown identifier returns [False] and
    leaves the registry as it is.  On a known one it returns [True], the
    registry has one task less, the other tasks are untouched and, keys
    being distinct, [get_task] no longer finds the identifier.  Deleting a
    task that was just stored under a new identifier gives the registry
    back as it was. *)
Theorem delete_task_removes (self : TaskService.t) (task_id : string) :
  wf (TaskService._tasks self) ->
  match TaskService.get_task self task_id with
  | None =>
      TaskService.delete_task self task_id = (self, false)
      /\ forall task,
           TaskService.delete_task
             (TaskService.Build (set (TaskService._tasks self) task_id task)) task_id
           = (self, true)
  | Some _ =>
      let self' := fst (TaskService.delete_task self task_id) in
      snd (TaskService.delete_task self task_id) = true
      /\ TaskService.get_task self' task_id = None
      /\ (forall k, k <> task_id ->
            TaskService.get_task self' k = TaskService.get_task self k)
      /\ S (List.length (TaskService.get_all_tasks self'))
         = List.length (TaskService.get_all_tasks self)
      /\ TaskService.delete_task self' task_id = (self', false)
  end.
Proof.
  intros Hwf. unfold TaskService.get_task, TaskService.delete_task.
  rewrite contains_get.
  destruct (get (TaskService._tasks self) task_id) as [t|] eqn:Eg.
  - unfold TaskService.get_all_tasks. cbn [fst snd TaskService._tasks].
    split; [reflexivity|]. split; [now apply get_del_same|]. split.
    { intros k Hk. apply get_del_other. congruence. }
    split.
    { rewrite !length_values. now apply length_del_present with (v := t). }
    rewrite contains_get. now rewrite (get_del_same _ _ _ Hwf).
  - split; [now destruct self|].
    intros task. cbn [TaskService._tasks]. rewrite contains_get, get_set_same.
    rewrite (del_set_absent _ _ _ _ Eg). now destruct self.
Qed.

Lemma delete_task_removes_witness :
  TaskService.delete_task
    (TaskService.Build [("T1", Sample.task "T1" (Sample.at_ 0 0) 1 PENDING)]) "T1"
  = (TaskService.Build [], true).
Proof.
  assert (Hwf : wf (TaskService._tasks TaskService.init)) by constructor.
  pose proof (delete_task_removes TaskService.init "T1" Hwf) as H.
  cbn [TaskService.get_task TaskService.init TaskService._tasks get] in H.
  destruct H as [_ H].
  exact (H (Sample.task "T1" (Sample.at_ 0 0) 1 PENDING)).
Defined.

(** ** Statistics and queries *)

Lemma count_by_task_type (l : list Task.t) :
  (List.length (filter (fun t => TaskService.TaskType_eqb (Task.task_type t) DELIVERY) l)
   + List.length (filter (fun t => TaskService.TaskType_eqb (Task.task_type t) PATROL) l)
   + List.length (filter (fun t => TaskService.TaskType_eqb (Task.task_type t) CLEANING) l)
   = List.length l)%nat.
Proof.
  induction l as [|t l IH]; [reflexivity|].
  cbn [filter]. destruct (Task.task_type t);
    cbn [TaskService.TaskType_eqb List.length]; lia.
Qed.

Lemma length_filter_le (A : Type) (f : A -> bool) (l : list A) :
  (List.length (filter f l) <= List.length l)%nat.
Proof.
  induction l as [|a l IH]; cbn [filter List.length]; [lia|].
  destruct (f a); cbn [List.length]; lia.
Qed.

(** X13.  In the dictionary of [get_task_statistics] the five counts by
    status add up to [total_tasks], so do the three counts by type, and
    [high_priority_tasks] is at most [total_tasks]. *)
Theorem get_task_statistics_counts_add_up (self : TaskService.t) :
  let d := TaskService.get_task_statistics self in
  (stat d "pending_tasks" + stat d "assigned_tasks" + stat d "in_progress_tasks"
   + stat d "completed_tasks" + stat d "failed_tasks" = stat d "total_tasks")%Z
  /\ (stat d "delivery_tasks" + stat d "patrol_tasks" + stat d "cleaning_tasks"
      = stat d "total_tasks")%Z
  /\ (0 <= stat d "high_priority_tasks" <= stat d "total_tasks")%Z
  /\ stat d "total_tasks" = Z.of_nat (List.length (TaskService.get_all_tasks self))
  /\ keys d
     = ["total_tasks"; "high_priority_tasks"; "pending_tasks"; "assigned_tasks";
        "in_progress_tasks"; "completed_tasks"; "failed_tasks"; "delivery_tasks";
        "patrol_tasks"; "cleaning_tasks"].
Proof.
  cbn zeta. unfold TaskService.get_task_statistics, stat,
    TaskService.all_statuses, TaskService.all_types.
  cbn [fold_left TaskService.TaskStatus_value TaskService.TaskType_value append
         set get fst snd keys map String.eqb Ascii.eqb Bool.eqb].
  pose proof (count_by_task_status (values (TaskService._tasks self))) as Hs.
  pose proof (count_by_task_type (values (TaskService._tasks self))) as Ht.
  pose proof (sorted_desc_perm _ Task.priority
                (filter Task.is_high_priority (values (TaskService._tasks self))))
    as Hp.
  apply Permutation_length in Hp.
  pose proof (length_filter_le _ Task.is_high_priority
                (values (TaskService._tasks self))) as Hh.
  unfold TaskService.get_tasks_by_status, TaskService.get_tasks_by_type,
    TaskService.get_high_priority_tasks, TaskService.get_all_tasks.
  rewrite length_values in *.
  repeat split; try reflexivity; lia.
Qed.

(** X14.  [get_high_priority_tasks] returns the tasks of priority 4 and
    above, each as often as the registry has it, by descending priority,
    tasks of equal priority in the order of the registry. *)
Theorem get_high_priority_tasks_sorted (self : TaskService.t) :
  let high := filter Task.is_high_priority (TaskService.get_all_tasks self) in
  let result := TaskService.get_high_priority_tasks self in
  Permutation result high
  /\ (forall t, In t result <->
        In t (TaskService.get_all_tasks self) /\ (4 <= Task.priority t)%Z)
  /\ StronglySorted priority_ge result
  /\ (forall p, with_priority p result = with_priority p high).
Proof.
  unfold TaskService.get_high_priority_tasks, TaskService.get_all_tasks. cbn zeta.
  split; [apply sorted_desc_perm|]. split; [|split].
  - intros t. unfold Task.is_high_priority. split.
    + intros H. apply (Permutation_in _ (sorted_desc_perm _ Task.priority _)) in H.
      apply filter_In in H. destruct H as [Hi Hp].
      split; [exact Hi|]. now apply Z.leb_le.
    + intros [Hi Hp].
      apply (Permutation_in _ (Permutation_sym (sorted_desc_perm _ Task.priority _))).
      apply filter_In. split; [exact Hi|]. now apply Z.leb_le.
  - apply sorted_desc_sorted.
  - intros p. apply sorted_desc_stable.
Qed.

Lemma In_values_set (V : Type) (d : dict V) (k : string) (v v0 : V) :
  get d k = Some v0 -> In v (values (set d k v)).
Proof.
  induction d as [|[k0 v1] d IH]; simpl; [discriminate|].
  destruct (String.eqb k k0); simpl; [now left|]. intros H. right. now apply IH.
Qed.

(** X15.  After [update_task_status] has set the status of a task of the
    registry, [get_tasks_by_status] for that status returns the task, with
    its new status, and the registry has as many tasks as before. *)
Theorem update_then_query_by_status (self : TaskService.t) (task_id : string)
    (task : Task.t) (s : TaskStatus) :
  TaskService.get_task self task_id = Some task ->
  let self' := fst (TaskService.update_task_status self task_id s) in
  In (Task.set_status task s) (TaskService.get_tasks_by_status self' s)
  /\ (forall s', s' <> s ->
        ~ In (Task.set_status task s) (TaskService.get_tasks_by_status self' s'))
  /\ List.length (TaskService.get_all_tasks self')
     = List.length (TaskService.get_all_tasks self).
Proof.
  unfold TaskService.get_task, TaskService.update_task_status. intros Hg.
  rewrite Hg. cbn [fst TaskService._tasks].
  unfold TaskService.get_tasks_by_status, TaskService.get_all_tasks.
  cbn [TaskService._tasks]. split; [|split].
  - apply filter_In. split; [now apply In_values_set with (v0 := task)|].
    now apply TaskStatus_eqb_eq.
  - intros s' Hs' Hin. apply filter_In in Hin. destruct Hin as [_ Hin].
    apply TaskStatus_eqb_eq in Hin. cbn in Hin. congruence.
  - rewrite !length_values. unfold keys.
    pose proof (keys_set_present _ (TaskService._tasks self) task_id
                  (Task.set_status task s) task Hg) as Hk.
    apply (f_equal (@List.length string)) in Hk. unfold keys in Hk.
    now rewrite !length_map in Hk.
Qed.

Lemma update_then_query_by_status_witness :
  In (Sample.task "T1" (Sample.at_ 0 0) 1 FAILED)
     (TaskService.get_tasks_by_status
        (fst (TaskService.update_task_status
                (TaskService.Build [("T1", Sample.task "T1" (Sample.at_ 0 0) 1 PENDING)])
                "T1" FAILED))
        FAILED).
Proof.
  apply (update_then_query_by_status
           (TaskService.Build [("T1", Sample.task "T1" (Sample.at_ 0 0) 1 PENDING)])
           "T1" (Sample.task "T1" (Sample.at_ 0 0) 1 PENDING) FAILED eq_refl).
Defined.

(* ================================================================== *)
(** * The validators                                                   *)
(* ================================================================== *)







(** ** [sanitize_string] *)

Lemma len_take (n : nat) (s : string) : len (take n s) = Nat.min n (len s).
Proof.
  revert n. induction s as [|c s IH]; intros n; cbn [take len].
  - now rewrite Nat.min_0_r.
  - destruct (continuation c) eqn:Ec; cbn [len]; [rewrite Ec; apply IH|].
    destruct n as [|n]; [reflexivity|]. cbn [len]. rewrite Ec, IH. reflexivity.
Qed.

Lemma take_prefix (n : nat) (s : string) : prefix (take n s) s = true.
Proof.
  revert n. induction s as [|c s IH]; intros n; cbn [take]; [reflexivity|].
  destruct (continuation c).
  - cbn [prefix]. destruct (ascii_dec c c) as [_|Hn]; [apply IH|now contradiction Hn].
  - destruct n as [|n]; [reflexivity|]. cbn [prefix].
    destruct (ascii_dec c c) as [_|Hn]; [apply IH|now contradiction Hn].
Qed.

(** X17.  [sanitize_string] returns a prefix of the stripped string, the
    stripped string itself when that has no more than [max_length]
    characters.  For a [max_length] that is not negative the result has
    at most [max_length] characters; for a negative one the slice drops
    characters from the end instead, and the result has
    [len(stripped) + max_length] characters, or none. *)
Theorem sanitize_string_length (value : string) (max_length : Z) :
  let cleaned := strip value in
  let result := Validators.sanitize_string value max_length in
  startswith cleaned result = true
  /\ ((Z.of_nat (len cleaned) <= max_length)%Z -> result = cleaned)
  /\ ((0 <= max_length)%Z ->
      Z.of_nat (len result) = Z.min max_length (Z.of_nat (len cleaned)))
  /\ ((max_length < 0)%Z ->
      Z.of_nat (len result) = Z.max 0 (Z.of_nat (len cleaned) + max_length)).
Proof.
  cbn zeta. unfold Validators.sanitize_string, slice_to, startswith.
  destruct (Z.ltb_spec max_length (Z.of_nat (len (strip value)))) as [Hlt|Hge].
  - destruct (Z.leb_spec 0 max_length) as [Hn|Hn].
    + split; [apply take_prefix|]. split; [lia|]. split; [|lia].
      intros _. rewrite len_take. lia.
    + split; [apply take_prefix|]. split; [lia|]. split; [lia|].
      intros _. rewrite len_take. lia.
  - split.
    { clear. induction (strip value) as [|c s IH]; cbn [prefix]; [reflexivity|].
      destruct (ascii_dec c c) as [_|Hn]; [exact IH|now contradiction Hn]. }
    split; [reflexivity|]. split; lia.
Qed.

(* ================================================================== *)
(** * The location utilities                                           *)
(* ================================================================== *)

(** ** Distances between positions *)

(** X18.  [calculate_distance] is symmetric.  Between valid positions it
    is a finite number that is not negative (never a NaN or an infinity),
    and it is zero when the positions have equal coordinates. *)
Theorem calculate_distance_symmetric (p q : Position.t) :
  LocationUtils.calculate_distance p q = LocationUtils.calculate_distance q p
  /\ (Position.valid p = true -> Position.valid q = true ->
      (0 <=? LocationUtils.calculate_distance p q)%float = true
      /\ (LocationUtils.calculate_distance p q <? infinity)%float = true
      /\ (LocationUtils.calculate_distance p q
          =? LocationUtils.calculate_distance q p)%float = true
      /\ ((Position.x p =? Position.x q)%float = true ->
          (Position.y p =? Position.y q)%float = true ->
          LocationUtils.calculate_distance p q = 0%float)).
Proof.
  split; [apply calculate_distance_sym|].
  intros Hp Hq.
  pose proof (calculate_distance_bounded p q Hp Hq) as Hb.
  split; [now apply (leb_zero_nonneg _ 28)|].
  split; [now apply (ltb_infinity _ 28)|].
  split.
  - rewrite (calculate_distance_sym q p). now apply (eqb_refl_nonneg _ 28).
  - intros Ex Ey. now apply calculate_distance_equal_coordinates.
Qed.

Lemma calculate_distance_symmetric_witness :
  LocationUtils.calculate_distance (Sample.at_ 0 0) (Sample.at_ 3 4)
  = LocationUtils.calculate_distance (Sample.at_ 3 4) (Sample.at_ 0 0)
  /\ (LocationUtils.calculate_distance (Sample.at_ 0 0) (Sample.at_ 3 4)
      <? infinity)%float = true.
Proof.
  destruct (calculate_distance_symmetric (Sample.at_ 0 0) (Sample.at_ 3 4))
    as [Hs Hv].
  split; [exact Hs|]. apply (Hv eq_refl eq_refl).
Defined.

Lemma abs_sub_sym (a b : float) : abs (a - b) = abs (b - a).
Proof.
  apply Prim2SF_inj. rewrite !abs_spec, !sub_spec. apply SF64sub_abs_sym.
Qed.

Lemma abs_nonneg_bounded (a : float) (B : Z) :
  bounded_by B (Prim2SF a) -> nonneg_bounded_by B (Prim2SF (abs a)).
Proof.
  rewrite abs_spec. destruct (Prim2SF a) as [s|s| |s m e]; cbn; tauto.
Qed.

Lemma sub_in_range_bounded (a b : float) :
  Position.in_range a = true -> Position.in_range b = true ->
  bounded_by 12 (Prim2SF (a - b)).
Proof.
  intros Ha Hb. apply in_range_bounded in Ha, Hb. rewrite sub_spec.
  apply (SF64sub_bound _ _ 10); auto; lia.
Qed.

(** The absolute difference of two valid coordinates is zero exactly when
    they are equal. *)
Lemma abs_sub_zero_iff (a b : float) :
  Position.in_range a = true -> Position.in_range b = true ->
  ((exists s, Prim2SF (abs (a - b)) = S754_zero s) <-> (a =? b)%float = true).
Proof.
  intros Ha Hb. split.
  - intros [s Hs]. rewrite abs_spec, sub_spec in Hs. rewrite eqb_spec.
    apply in_range_bounded in Ha, Hb.
    destruct (SF64sub (Prim2SF a) (Prim2SF b)) as [s'| | |] eqn:Es;
      try discriminate.
    apply (SF64sub_zero_eq _ _ 10 s'); auto; apply Prim2SF_valid.
  - intros He. destruct (sub_eqb_zero a b Ha Hb He) as [s Hs].
    exists false. now rewrite abs_spec, Hs.
Qed.

(** X19.  [calculate_manhattan_distance] is symmetric, and between valid
    positions it is zero exactly when the two positions have equal
    coordinates. *)
Theorem manhattan_distance_zero_iff (p q : Position.t) :
  LocationUtils.calculate_manhattan_distance p q
  = LocationUtils.calculate_manhattan_distance q p
  /\ (Position.valid p = true -> Position.valid q = true ->
      ((LocationUtils.calculate_manhattan_distance p q =? 0)%float = true <->
       (Position.x p =? Position.x q)%float = true
       /\ (Position.y p =? Position.y q)%float = true)).
Proof.
  unfold LocationUtils.calculate_manhattan_distance.
  split; [now rewrite (abs_sub_sym (Position.x q)), (abs_sub_sym (Position.y q))|].
  unfold Position.valid. rewrite !andb_true_iff. intros [Hpx Hpy] [Hqx Hqy].
  pose proof (abs_sub_zero_iff _ _ Hqx Hpx) as Zx.
  pose proof (abs_sub_zero_iff _ _ Hqy Hpy) as Zy.
  rewrite (eqb_sym (Position.x q)) in Zx. rewrite (eqb_sym (Position.y q)) in Zy.
  pose proof (abs_nonneg_bounded _ 12 (sub_in_range_bounded _ _ Hqx Hpx)) as Bx.
  pose proof (abs_nonneg_bounded _ 12 (sub_in_range_bounded _ _ Hqy Hpy)) as By.
  pose proof (Prim2SF_valid (abs (Position.x q - Position.x p))) as Vx.
  pose proof (Prim2SF_valid (abs (Position.y q - Position.y p))) as Vy.
  rewrite eqb_spec, add_spec. change (Prim2SF 0) with (S754_zero false).
  split.
  - intros H.
    assert (Hz : exists s, SF64add (Prim2SF (abs (Position.x q - Position.x p)))
                             (Prim2SF (abs (Position.y q - Position.y p)))
                           = S754_zero s).
    { pose proof (SF64add_bound _ _ 12 Bx By ltac:(lia) ltac:(lia)) as Hb.
      destruct (SF64add _ _) as [s| | |[] m e]; try contradiction;
        [now exists s|discriminate]. }
    destruct Hz as [s Hs].
    destruct (SF64add_zero_inv _ _ 12 s Vx Vy Bx By Hs) as [Hx Hy].
    split; [now apply Zx|now apply Zy].
  - intros [Ex Ey]. apply Zx in Ex. apply Zy in Ey.
    destruct Ex as [sx ->]. destruct Ey as [sy ->].
    destruct sx, sy; reflexivity.
Qed.

Lemma manhattan_distance_zero_iff_witness :
  (LocationUtils.calculate_manhattan_distance (Sample.at_ tiny 0) (Sample.at_ 0 0)
   =? 0)%float = false.
Proof.
  destruct (manhattan_distance_zero_iff (Sample.at_ tiny 0) (Sample.at_ 0 0))
    as [_ H].
  specialize (H eq_refl eq_refl).
  destruct (LocationUtils.calculate_manhattan_distance (Sample.at_ tiny 0)
              (Sample.at_ 0 0) =? 0)%float; [|reflexivity].
  destruct (proj1 H eq_refl) as [Hx _]. discriminate Hx.
Defined.

(** ** The nearest robot of a list *)

Section Nearest.
Variable target : Position.t.

Let measured (l : list Robot.t) : Prop :=
  forall r, In r l -> nonneg_bounded_by 28 (Prim2SF (distance_from target r)).

Lemma nearer_keeps (seen : list Robot.t) (acc : option Robot.t * float) (r : Robot.t) :
  measured (seen ++ [r]) ->
  least_so_far (distance_from target) seen acc ->
  least_so_far (distance_from target) (seen ++ [r])
    (LocationUtils.nearer target acc r).
Proof.
  intros Hm. destruct acc as [best min_distance].
  unfold least_so_far, LocationUtils.nearer. cbn [fst snd].
  change (LocationUtils.calculate_distance (Robot.position r) target)
    with (distance_from target r).
  assert (Hr : nonneg_bounded_by 28 (Prim2SF (distance_from target r))).
  { apply Hm. apply in_or_app. right. now left. }
  destruct best as [b|].
  - intros [Hmin (l1 & l2 & Hseen & Hbefore & Hafter)]. subst min_distance seen.
    assert (Hb : nonneg_bounded_by 28 (Prim2SF (distance_from target b))).
    { apply Hm. apply in_or_app. left. apply in_or_app. right. now left. }
    destruct (distance_from target r <? distance_from target b)%float eqn:Hlt;
      cbn [fst snd].
    + split; [reflexivity|].
      exists (l1 ++ b :: l2), []. split; [reflexivity|]. split; [|intros r' []].
      intros r' Hin.
      assert (Hr' : nonneg_bounded_by 28 (Prim2SF (distance_from target r'))).
      { apply Hm. apply in_or_app. now left. }
      apply in_app_or in Hin. destruct Hin as [Hin|[<-|Hin]].
      * apply (ltb_cotrans _ (distance_from target b) _ 28 28 28); auto.
        apply (ltb_asym _ _ 28 28); auto.
      * exact Hlt.
      * apply (ltb_cotrans _ (distance_from target b) _ 28 28 28); auto.
    + split; [reflexivity|].
      exists l1, (l2 ++ [r]). split; [now rewrite <- app_assoc|].
      split; [exact Hbefore|].
      intros r' Hin. apply in_app_or in Hin. destruct Hin as [Hin|[<-|[]]].
      * now apply Hafter.
      * exact Hlt.
  - intros [Hseen Hmin]. subst seen min_distance.
    rewrite (ltb_infinity _ 28 Hr). cbn [fst snd].
    split; [reflexivity|].
    exists [], []. split; [reflexivity|]. split; intros r' [].
Qed.

Lemma nearer_fold (l : list Robot.t) :
  forall (seen : list Robot.t) (acc : option Robot.t * float),
    measured (seen ++ l) ->
    least_so_far (distance_from target) seen acc ->
    least_so_far (distance_from target) (seen ++ l)
      (fold_left (LocationUtils.nearer target) l acc).
Proof.
  induction l as [|r l IH]; intros seen acc Hm Hacc; cbn [fold_left].
  - now rewrite app_nil_r.
  - replace (seen ++ r :: l) with ((seen ++ [r]) ++ l) in *
      by (rewrite <- app_assoc; reflexivity).
    apply IH; [exact Hm|].
    apply nearer_keeps; [|exact Hacc].
    intros r' Hin. apply Hm. apply in_or_app. now left.
Qed.

End Nearest.

(** X20.  Among robots at valid positions, [find_nearest_robot] returns
    [None] exactly when there is no candidate (no robot at all, or none
    available when only available robots count), and otherwise the first
    candidate, in the order of the list, at the least distance from the
    target. *)
Theorem find_nearest_robot_first_least (target : Position.t) (robots : list Robot.t)
    (available_only : bool) :
  Position.valid target = true ->
  Forall (fun r => Position.valid (Robot.position r) = true) robots ->
  let candidates :=
    if available_only then filter Robot.is_available robots else robots in
  match candidates with
  | [] => LocationUtils.find_nearest_robot target robots available_only = None
  | _ :: _ =>
      exists best,
        LocationUtils.find_nearest_robot target robots available_only = Some best
        /\ first_least (distance_from target) candidates best
  end.
Proof.
  intros Ht Hv. cbn zeta. unfold LocationUtils.find_nearest_robot.
  destruct robots as [|r0 robots]; [now destruct available_only|].
  set (all := r0 :: robots) in *.
  set (candidates := if available_only then filter Robot.is_available all else all).
  assert (Hsub : forall r, In r candidates -> In r all).
  { intros r. unfold candidates. destruct available_only; [|auto].
    intros H. apply filter_In in H. apply H. }
  destruct candidates as [|c0 cs] eqn:Ec; [reflexivity|].
  assert (Hm : forall r, In r ([] ++ c0 :: cs) ->
                 nonneg_bounded_by 28 (Prim2SF (distance_from target r))).
  { intros r Hin. cbn [app] in Hin. apply Hsub in Hin.
    rewrite Forall_forall in Hv. unfold distance_from.
    apply calculate_distance_bounded; [now apply Hv|exact Ht]. }
  pose proof (nearer_fold target (c0 :: cs) [] (None, infinity) Hm) as H.
  unfold least_so_far in H at 1. cbn [fst snd app] in H.
  specialize (H (conj eq_refl eq_refl)). unfold least_so_far in H.
  destruct (fst (fold_left (LocationUtils.nearer target) (c0 :: cs) (None, infinity)))
    as [b|].
  - exists b. split; [reflexivity|]. apply H.
  - destruct H as [H _]. discriminate.
Qed.

Lemma find_nearest_robot_first_least_witness :
  LocationUtils.find_nearest_robot (Sample.at_ 0 0) some_robots true
  = Some (Sample.robot "R3" (Sample.at_ 0 2))
  /\ LocationUtils.find_nearest_robot (Sample.at_ 0 0) some_robots false
     = Some (Robot.Build "R2" "robot" (Sample.at_ 1 0) BUSY (Some "T9") 100 0).
Proof.
  assert (Hv : Forall (fun r => Position.valid (Robot.position r) = true) some_robots)
    by (repeat constructor).
  split.
  - pose proof (find_nearest_robot_first_least (Sample.at_ 0 0) some_robots true
                  eq_refl Hv) as H.
    vm_compute in H. destruct H as (best & H & _). inversion H; subst best.
    reflexivity.
  - pose proof (find_nearest_robot_first_least (Sample.at_ 0 0) some_robots false
                  eq_refl Hv) as H.
    vm_compute in H. destruct H as (best & H & _). inversion H; subst best.
    reflexivity.
Defined.

(** ** Robots within a radius *)

Section SortAscFacts.
Variable A : Type.
Variable key : A -> float.

Lemma insert_asc_perm (a : A) (l : list A) :
  Permutation (insert_asc key a l) (a :: l).
Proof.
  induction l as [|b l IH]; cbn [insert_asc].
  - apply Permutation_refl.
  - destruct (key b <? key a)%float.
    + apply perm_trans with (b :: a :: l); [now apply perm_skip|apply perm_swap].
    + apply Permutation_refl.
Qed.

Lemma sort_asc_perm (l : list A) : Permutation (sort_asc key l) l.
Proof.
  induction l as [|a l IH]; cbn [sort_asc fold_right].
  - apply perm_nil.
  - apply perm_trans with (a :: sort_asc key l);
      [apply insert_asc_perm|now apply perm_skip].
Qed.

(** The keys are distances: finite and not negative. *)
Let measured (l : list A) : Prop :=
  forall a, In a l -> nonneg_bounded_by 28 (Prim2SF (key a)).

Lemma insert_asc_sorted (a : A) (l : list A) :
  measured (a :: l) ->
  StronglySorted (ascending key) l ->
  StronglySorted (ascending key) (insert_asc key a l).
Proof.
  intros Hm. induction l as [|b l IH]; cbn [insert_asc]; intros Hs.
  - constructor; constructor.
  - inversion Hs as [|? ? Hl Hb]; subst.
    assert (Ha : nonneg_bounded_by 28 (Prim2SF (key a))) by (apply Hm; now left).
    assert (Hkb : nonneg_bounded_by 28 (Prim2SF (key b)))
      by (apply Hm; right; now left).
    destruct (key b <? key a)%float eqn:Hlt.
    + constructor.
      * apply IH; [|exact Hl]. intros x [<-|Hx]; apply Hm; [now left|right; now right].
      * rewrite Forall_forall in *. intros x Hx.
        apply (Permutation_in _ (insert_asc_perm a l)) in Hx.
        destruct Hx as [<-|Hx]; [|now apply Hb].
        unfold ascending. now apply (ltb_asym _ _ 28 28).
    + constructor; [exact Hs|].
      constructor; [exact Hlt|].
      rewrite Forall_forall in *. intros x Hx. unfold ascending.
      destruct (key x <? key a)%float eqn:Hxa; [|reflexivity].
      assert (Hkx : nonneg_bounded_by 28 (Prim2SF (key x)))
        by (apply Hm; right; now right).
      pose proof (ltb_cotrans _ _ (key b) 28 28 28 Hkx Ha Hkb Hxa Hlt) as Hxb.
      specialize (Hb x Hx). unfold ascending in Hb. congruence.
Qed.

Lemma sort_asc_sorted (l : list A) :
  measured l -> StronglySorted (ascending key) (sort_asc key l).
Proof.
  induction l as [|a l IH]; intros Hm; cbn [sort_asc fold_right].
  - constructor.
  - apply insert_asc_sorted.
    + intros x [<-|Hx]; [apply Hm; now left|].
      apply Hm. right. now apply (Permutation_in _ (sort_asc_perm l)).
    + apply IH. intros x Hx. apply Hm. now right.
Qed.

End SortAscFacts.

Lemma within_radius_pairs (center : Position.t) (radius : float) (robots : list Robot.t) :
  flat_map
    (fun robot =>
       if (LocationUtils.calculate_distance center (Robot.position robot) <=? radius)%float
       then [(robot, LocationUtils.calculate_distance center (Robot.position robot))]
       else [])
    robots
  = map (fun r => (r, distance_around center r))
      (filter (fun r => (distance_around center r <=? radius)%float) robots).
Proof.
  induction robots as [|r robots IH]; cbn [flat_map filter map]; [reflexivity|].
  unfold distance_around at 2.
  destruct (LocationUtils.calculate_distance center (Robot.position r) <=? radius)%float;
    cbn [app map]; now rewrite IH.
Qed.

Lemma sorted_map_fst (A : Type) (key : A -> float) (l : list (A * float)) :
  (forall x, In x l -> snd x = key (fst x)) ->
  StronglySorted (ascending snd) l ->
  StronglySorted (ascending key) (map fst l).
Proof.
  intros Hk Hs. induction Hs as [|x l Hl IH Hx]; cbn [map]; [constructor|].
  constructor.
  - apply IH. intros y Hy. apply Hk. now right.
  - rewrite Forall_forall in *. intros b Hb. apply in_map_iff in Hb.
    destruct Hb as (y & <- & Hy). specialize (Hx y Hy). unfold ascending in *.
    rewrite <- (Hk y) by now right. rewrite <- (Hk x) by now left. exact Hx.
Qed.

(** X21.  For a center and robots at valid positions,
    [find_robots_within_radius] returns the robots whose distance to the
    center is at most the radius, each as often as the list has it and no
    other, in ascending order of distance. *)
Theorem find_robots_within_radius_sorted (center : Position.t)
    (robots : list Robot.t) (radius : float) :
  Position.valid center = true ->
  Forall (fun r => Position.valid (Robot.position r) = true) robots ->
  let result := LocationUtils.find_robots_within_radius center robots radius in
  Permutation result
    (filter (fun r => (distance_around center r <=? radius)%float) robots)
  /\ (forall r, In r result <->
        In r robots /\ (distance_around center r <=? radius)%float = true)
  /\ StronglySorted (ascending (distance_around center)) result.
Proof.
  intros Hc Hv. cbn zeta. unfold LocationUtils.find_robots_within_radius.
  rewrite within_radius_pairs.
  set (inside := filter (fun r => (distance_around center r <=? radius)%float) robots).
  set (pairs := map (fun r => (r, distance_around center r)) inside).
  pose proof (sort_asc_perm _ snd pairs) as Hp.
  assert (Hperm : Permutation (map fst (sort_asc snd pairs)) inside).
  { apply perm_trans with (map fst pairs); [now apply Permutation_map|].
    unfold pairs. rewrite map_map. cbn [fst]. rewrite map_id. apply Permutation_refl. }
  split; [exact Hperm|]. split.
  - intros r. split.
    + intros H. apply (Permutation_in _ Hperm) in H. now apply filter_In in H.
    + intros H. apply (Permutation_in _ (Permutation_sym Hperm)).
      now apply filter_In.
  - assert (Hform : forall x, In x pairs ->
                      snd x = distance_around center (fst x) /\ In (fst x) robots).
    { intros x Hx. unfold pairs in Hx. apply in_map_iff in Hx.
      destruct Hx as (r & <- & Hr). cbn [fst snd]. split; [reflexivity|].
      apply filter_In in Hr. apply Hr. }
    apply sorted_map_fst.
    + intros x Hx. apply (Permutation_in _ Hp) in Hx. now apply Hform.
    + apply sort_asc_sorted. intros x Hx. destruct (Hform x Hx) as [-> Hin].
      rewrite Forall_forall in Hv. unfold distance_around.
      apply calculate_distance_bounded; [exact Hc|now apply Hv].
Qed.

Lemma find_robots_within_radius_sorted_witness :
  StronglySorted (ascending (distance_around (Sample.at_ 0 0)))
    (LocationUtils.find_robots_within_radius (Sample.at_ 0 0) some_robots 5)
  /\ map Robot.robot_id
       (LocationUtils.find_robots_within_radius (Sample.at_ 0 0) some_robots 5)
     = ["R2"; "R3"; "R1"].
Proof.
  assert (Hv : Forall (fun r => Position.valid (Robot.position r) = true) some_robots)
    by (repeat constructor).
  pose proof (find_robots_within_radius_sorted (Sample.at_ 0 0) some_robots 5
                eq_refl Hv) as (_ & _ & Hs).
  split; [exact Hs|reflexivity].
Defined.

(* ================================================================== *)
(** * The status monitor                                               *)
(* ================================================================== *)

Lemma SFltb_SFleb (x y : spec_float) : SFltb x y = true -> SFleb x y = true.
Proof.
  unfold SFltb, SFleb. destruct (SFcompare x y) as [[]|]; congruence.
Qed.

Lemma ltb_leb (a b : float) : (a <? b)%float = true -> (a <=? b)%float = true.
Proof. rewrite ltb_spec, leb_spec. apply SFltb_SFleb. Qed.

(** The score is a sum that ends in a [float]. *)
Lemma num_add_float (a : num) (f : float) : exists g, num_add a (Float f) = Float g.
Proof. destruct a; eexists; reflexivity. Qed.

Lemma num_mul_float (a : num) (f : float) : exists g, num_mul a (Float f) = Float g.
Proof. destruct a; eexists; reflexivity. Qed.

(** The two clamps of the score, on a [float] sum. *)
Lemma clamp_float (x : float) :
  let s := min2 (Int 100) (max2 (Int 0) (Float x)) in
  (s = Int 0 /\ (0 <? x)%float = false)
  \/ (s = Int 100 /\ (0 <? x)%float = true /\ (x <? 100)%float = false)
  \/ (s = Float x /\ (0 <? x)%float = true /\ (x <? 100)%float = true).
Proof.
  cbv zeta. unfold max2.
  change (num_ltb (Int 0) (Float x)) with (0 <? x)%float.
  destruct (0 <? x)%float eqn:H0.
  - unfold min2. change (num_ltb (Float x) (Int 100)) with (x <? 100)%float.
    destruct (x <? 100)%float eqn:H1.
    + right. right. now repeat split.
    + right. left. now repeat split.
  - left. now split.
Qed.

(** X22.  [get_system_health_score] is always between 0 and 100, whatever
    the robots and tasks are: it is the integer 0, the integer 100, or a
    [float] strictly between the two.  Without robots it is 0.0. *)
Theorem health_score_in_range (robots : list Robot.t) (tasks : list Task.t) :
  let score := StatusMonitor.get_system_health_score robots tasks in
  num_leb (Int 0) score = true
  /\ num_leb score (Int 100) = true
  /\ match score with
     | Int z => z = 0%Z \/ z = 100%Z
     | Float f => (robots = [] /\ f = 0%float)
                  \/ ((0 <? f)%float = true /\ (f <? 100)%float = true)
     end
  /\ (robots = [] -> score = Float 0).
Proof.
  cbn zeta. unfold StatusMonitor.get_system_health_score.
  destruct robots as [|r robots].
  - repeat split. now left.
  - set (availability := num_mul _ (Float StatusMonitor.weight_03)).
    set (battery := num_mul (min2 _ _) (Float StatusMonitor.weight_03)).
    set (completion := if StatusMonitor.nonempty _ then _ else Float 0).
    assert (Hc : exists c, completion = Float c).
    { unfold completion. destruct (StatusMonitor.nonempty _); [|now eexists].
      apply num_mul_float. }
    destruct Hc as [c ->].
    destruct (num_add_float (num_add availability battery) c) as [x ->].
    destruct (clamp_float x) as [[-> _]|[[-> _]|[-> [H0 H1]]]].
    + repeat split; [now left|discriminate].
    + repeat split; [now right|discriminate].
    + change (num_leb (Int 0) (Float x)) with (0 <=? x)%float.
      change (num_leb (Float x) (Int 100)) with (x <=? 100)%float.
      rewrite (ltb_leb _ _ H0), (ltb_leb _ _ H1).
      repeat split; [now right|discriminate].
Qed.

(** ** Battery statistics *)

Lemma ltb_10_20 (x : float) : (x <? 10)%float = true -> (x <? 20)%float = true.
Proof.
  rewrite !ltb_spec.
  change (Prim2SF 10) with (S754_finite false 5629499534213120 (-49)).
  change (Prim2SF 20) with (S754_finite false 5629499534213120 (-48)).
  unfold SFltb, SFcompare.
  destruct (Prim2SF x) as [s|s| |s m e]; try destruct s; try reflexivity;
    try discriminate.
  destruct (Z.compare_spec e (-49)); destruct (Z.compare_spec e (-48));
    try reflexivity; try discriminate; lia.
Qed.

Lemma length_filter_impl (A : Type) (f g : A -> bool) (l : list A) :
  (forall a, f a = true -> g a = true) ->
  (List.length (filter f l) <= List.length (filter g l))%nat.
Proof.
  intros Hfg. induction l as [|a l IH]; cbn [filter]; [lia|].
  destruct (f a) eqn:Ef.
  - rewrite (Hfg a Ef). cbn [List.length]. lia.
  - destruct (g a); cbn [List.length]; lia.
Qed.

Lemma valid_battery_bounded (r : Robot.t) :
  valid_battery r = true -> nonneg_bounded_by 7 (Prim2SF (Robot.battery_level r)).
Proof.
  unfold valid_battery. rewrite andb_true_iff, !leb_spec.
  pose proof (Prim2SF_valid (Robot.battery_level r)) as Hv.
  change (Prim2SF 0) with (S754_zero false).
  change (Prim2SF 100) with (S754_finite false 7036874417766400 (-46)).
  destruct (Prim2SF (Robot.battery_level r)) as [s|s| |s m e]; intros [Hlo Hhi].
  - exact I.
  - destruct s; discriminate.
  - discriminate.
  - destruct s; [discriminate|]. cbn [nonneg_bounded_by].
    destruct (valid_finite_exponent _ _ _ Hv) as [_ Hc].
    unfold fexp, SpecFloat.emin, prec, emax in Hc.
    assert (He : (e <= -46)%Z).
    { unfold SFleb, SFcompare in Hhi.
      destruct (Z.compare_spec e (-46)); try lia; discriminate. }
    lia.
Qed.

Section MinMax.
Variable B : Z.

Let measured (l : list float) : Prop :=
  forall x, In x l -> nonneg_bounded_by B (Prim2SF x).

Lemma list_min_least (others : list float) :
  forall first : float,
    measured (first :: others) ->
    In (StatusMonitor.list_min first others) (first :: others)
    /\ forall x, In x (first :: others) ->
         (x <? StatusMonitor.list_min first others)%float = false.
Proof.
  unfold StatusMonitor.list_min.
  induction others as [|y others IH]; intros first Hm; cbn [fold_left].
  - split; [now left|]. intros x [<-|[]].
    destruct (first <? first)%float eqn:E; [|reflexivity].
    pose proof (ltb_asym _ _ B B (Hm _ (or_introl eq_refl)) (Hm _ (or_introl eq_refl)) E).
    congruence.
  - assert (Hf : nonneg_bounded_by B (Prim2SF first)) by (apply Hm; now left).
    assert (Hy : nonneg_bounded_by B (Prim2SF y)) by (apply Hm; right; now left).
    destruct (y <? first)%float eqn:Hlt.
    + destruct (IH y) as [Hin Hle].
      { intros x [<-|Hx]; [exact Hy|]. apply Hm. right. now right. }
      split; [now right|].
      intros x [<-|Hx]; [|now apply Hle].
      set (m := fold_left _ others y) in *.
      assert (Hmb : nonneg_bounded_by B (Prim2SF m)).
      { destruct Hin as [<-|Hin]; [exact Hy|]. apply Hm. right. now right. }
      destruct (first <? m)%float eqn:E; [|reflexivity].
      pose proof (Hle y (or_introl eq_refl)) as Hym.
      pose proof (ltb_cotrans _ _ _ B B B Hy Hf Hmb Hlt) as Hc.
      assert (Hmf : (m <? first)%float = false) by now apply (ltb_asym _ _ B B).
      specialize (Hc Hmf). congruence.
    + destruct (IH first) as [Hin Hle].
      { intros x [<-|Hx]; [exact Hf|]. apply Hm. right. now right. }
      split; [destruct Hin as [<-|Hin]; [now left|right; now right]|].
      intros x [<-|[<-|Hx]].
      * apply Hle. now left.
      * set (m := fold_left _ others first) in *.
        assert (Hmb : nonneg_bounded_by B (Prim2SF m)).
        { destruct Hin as [<-|Hin]; [exact Hf|]. apply Hm. right. now right. }
        destruct (y <? m)%float eqn:E; [|reflexivity].
        pose proof (Hle first (or_introl eq_refl)) as Hfm.
        pose proof (ltb_cotrans _ _ _ B B B Hy Hmb Hf E Hfm). congruence.
      * apply Hle. now right.
Qed.

Lemma list_max_greatest (others : list float) :
  forall first : float,
    measured (first :: others) ->
    In (StatusMonitor.list_max first others) (first :: others)
    /\ forall x, In x (first :: others) ->
         (StatusMonitor.list_max first others <? x)%float = false.
Proof.
  unfold StatusMonitor.list_max.
  induction others as [|y others IH]; intros first Hm; cbn [fold_left].
  - split; [now left|]. intros x [<-|[]].
    destruct (first <? first)%float eqn:E; [|reflexivity].
    pose proof (ltb_asym _ _ B B (Hm _ (or_introl eq_refl)) (Hm _ (or_introl eq_refl)) E).
    congruence.
  - assert (Hf : nonneg_bounded_by B (Prim2SF first)) by (apply Hm; now left).
    assert (Hy : nonneg_bounded_by B (Prim2SF y)) by (apply Hm; right; now left).
    destruct (first <? y)%float eqn:Hlt.
    + destruct (IH y) as [Hin Hle].
      { intros x [<-|Hx]; [exact Hy|]. apply Hm. right. now right. }
      split; [now right|].
      intros x [<-|Hx]; [|now apply Hle].
      set (m := fold_left _ others y) in *.
      assert (Hmb : nonneg_bounded_by B (Prim2SF m)).
      { destruct Hin as [<-|Hin]; [exact Hy|]. apply Hm. right. now right. }
      destruct (m <? first)%float eqn:E; [|reflexivity].
      pose proof (Hle y (or_introl eq_refl)) as Hmy.
      pose proof (ltb_cotrans _ _ _ B B B Hmb Hf Hy E) as Hc.
      assert (Hyf : (y <? first)%float = false) by now apply (ltb_asym _ _ B B).
      specialize (Hc Hyf). congruence.
    + destruct (IH first) as [Hin Hle].
      { intros x [<-|Hx]; [exact Hf|]. apply Hm. right. now right. }
      split; [destruct Hin as [<-|Hin]; [now left|right; now right]|].
      intros x [<-|[<-|Hx]].
      * apply Hle. now left.
      * set (m := fold_left _ others first) in *.
        assert (Hmb : nonneg_bounded_by B (Prim2SF m)).
        { destruct Hin as [<-|Hin]; [exact Hf|]. apply Hm. right. now right. }
        destruct (m <? y)%float eqn:E; [|reflexivity].
        pose proof (Hle first (or_introl eq_refl)) as Hmf.
        assert (Hfm : (first <? m)%float = false \/ (first <? m)%float = true)
          by (destruct (first <? m)%float; auto).
        pose proof (ltb_cotrans _ _ _ B B B Hmb Hy Hf E Hlt). congruence.
      * apply Hle. now right.
Qed.

End MinMax.

Lemma length_filter_zero (A : Type) (f : A -> bool) (l : list A) :
  List.length (filter f l) = 0%nat <-> forall a, In a l -> f a = false.
Proof.
  induction l as [|a l IH]; cbn [filter]; [now split|].
  destruct (f a) eqn:Ef; cbn [List.length].
  - split; [discriminate|]. intros H. rewrite (H a (or_introl eq_refl)) in Ef.
    discriminate.
  - rewrite IH. split.
    + intros H b [<-|Hb]; [exact Ef|now apply H].
    + intros H b Hb. apply H. now right.
Qed.

Lemma twenty_bounded : nonneg_bounded_by 7 (Prim2SF 20).
Proof. vm_compute. discriminate. Qed.

(** X23.  For robots whose battery levels are valid percentages,
    [get_battery_status] reports as [min_battery] and [max_battery] two
    of the levels, with no level below the first or above the second; the
    critical robots are among the low ones, which are among all robots;
    and no robot counts as low exactly when [min_battery] is not below
    20. *)
Theorem battery_status_orders (robots : list Robot.t) :
  robots <> [] ->
  Forall (fun r => valid_battery r = true) robots ->
  exists lo hi low critical,
    let stats := StatusMonitor.get_battery_status robots in
    get stats "min_battery" = Some (Float lo)
    /\ get stats "max_battery" = Some (Float hi)
    /\ get stats "low_battery_count" = Some (Int low)
    /\ get stats "critical_battery_count" = Some (Int critical)
    /\ In lo (map Robot.battery_level robots)
    /\ In hi (map Robot.battery_level robots)
    /\ (forall r, In r robots ->
          (Robot.battery_level r <? lo)%float = false
          /\ (hi <? Robot.battery_level r)%float = false)
    /\ (0 <= critical <= low)%Z
    /\ (low <= Z.of_nat (List.length robots))%Z
    /\ (low = 0%Z <-> (lo <? 20)%float = false).
Proof.
  intros Hne Hv. destruct robots as [|r rs]; [congruence|]. clear Hne.
  set (robots := r :: rs) in *.
  assert (Hm : forall x, In x (map Robot.battery_level robots) ->
                         nonneg_bounded_by 7 (Prim2SF x)).
  { intros x Hx. apply in_map_iff in Hx. destruct Hx as [r' [<- Hr']].
    apply valid_battery_bounded. rewrite Forall_forall in Hv. now apply Hv. }
  destruct (list_min_least 7 (map Robot.battery_level rs) (Robot.battery_level r) Hm)
    as [Hlo Hleast].
  destruct (list_max_greatest 7 (map Robot.battery_level rs) (Robot.battery_level r) Hm)
    as [Hhi Hgreatest].
  set (lo := StatusMonitor.list_min _ _) in *.
  set (hi := StatusMonitor.list_max _ _) in *.
  exists lo, hi,
    (Z.of_nat (List.length (filter (fun level => (level <? 20)%float)
                                   (map Robot.battery_level robots)))),
    (Z.of_nat (List.length (filter (fun level => (level <? 10)%float)
                                   (map Robot.battery_level robots)))).
  cbv zeta.
  split; [reflexivity|]. split; [reflexivity|]. split; [reflexivity|].
  split; [reflexivity|]. split; [exact Hlo|]. split; [exact Hhi|].
  split.
  { intros r' Hr'.
    assert (Hin : In (Robot.battery_level r') (map Robot.battery_level robots))
      by now apply in_map.
    split; [now apply Hleast|now apply Hgreatest]. }
  split.
  { split; [lia|]. apply inj_le. apply length_filter_impl. apply ltb_10_20. }
  split.
  { apply inj_le. rewrite <- (length_map Robot.battery_level robots).
    apply length_filter_le. }
  split.
  - intros H0. assert (Hz : List.length (filter (fun level => (level <? 20)%float)
                                (map Robot.battery_level robots)) = 0%nat) by lia.
    rewrite length_filter_zero in Hz. now apply Hz.
  - intros Hlt. apply (f_equal Z.of_nat (y := 0%nat)).
    apply length_filter_zero. intros x Hx.
    destruct (x <? 20)%float eqn:E; [|reflexivity].
    pose proof (ltb_cotrans x 20 lo 7 7 7 (Hm x Hx) twenty_bounded (Hm lo Hlo) E Hlt)
      as Hc.
    rewrite (Hleast x Hx) in Hc. discriminate.
Qed.

(** Of batteries at 15, 5 and 80 percent the least is 5 and the greatest
    80; two robots are low, and one of them critical. *)
Lemma battery_status_orders_witness :
  mixed_batteries <> []
  /\ Forall (fun r => valid_battery r = true) mixed_batteries
  /\ get (StatusMonitor.get_battery_status mixed_batteries) "min_battery"
     = Some (Float 5)
  /\ exists lo hi low critical,
       get (StatusMonitor.get_battery_status mixed_batteries) "min_battery"
       = Some (Float lo)
       /\ get (StatusMonitor.get_battery_status mixed_batteries) "max_battery"
          = Some (Float hi)
       /\ (low <= 3)%Z /\ (0 <= critical <= low)%Z.
Proof.
  assert (Hne : mixed_batteries <> []) by discriminate.
  assert (Hv : Forall (fun r => valid_battery r = true) mixed_batteries)
    by (repeat constructor).
  split; [exact Hne|]. split; [exact Hv|]. split; [reflexivity|].
  destruct (battery_status_orders mixed_batteries Hne Hv)
    as [lo [hi [low [critical [H1 [H2 [_ [_ [_ [_ [_ [H3 [H4 _]]]]]]]]]]]]].
  exists lo, hi, low, critical. repeat split; try assumption; apply H3.
Defined.
